(** * HoloPy: parameter fitting core and scatterer geometry

    A shallow embedding of
      - [holopy/analyze/fit_new.py]  (Parameter, Minimizer, Model,
        RigidSphereCluster), and
      - [holopy/scattering/scatterer/scatterer.py]
        (Scatterer, CenteredScatterer, Indicators, find_bounds, the
        parameter flattening),
    together with the properties the specification states about them.

    Numbers are IEEE binary64 values (Rocq's primitive floats), which is what
    a Python [float] and a [numpy.float64] are.  The two differ in one
    respect that the code below depends on: dividing a Python float by a
    Python float zero raises [ZeroDivisionError], while every division that
    involves a numpy scalar or array follows IEEE 754 (inf or nan, with a
    warning only). *)

From Stdlib Require Import ZArith Bool List String Ascii DecimalString DecimalNat
  Permutation Lia Floats.
Import ListNotations.

(** Decimal literals denote the nearest binary64, as in Python. *)
Set Warnings "-inexact-float,-register-all".

(* ================================================================== *)
(** * The Python runtime: exceptions and fallible computations        *)
(* ================================================================== *)

(** The exceptions the modelled code can raise.  The first two are the
    repository's own; the others are Python's and numpy's. *)
Inductive exn : Set :=
| InvalidParameterSpecification
| InvalidScatterer
| ZeroDivisionError
| TypeError
| ValueError
| IndexError
| KeyError
| UnboundLocalError
| RecursionError.

Inductive result (A : Type) : Type :=
| Ok (a : A)
| Raise (e : exn).

Arguments Ok {A} a.
Arguments Raise {A} e.

Definition bind {A B : Type} (c : result A) (k : A -> result B) : result B :=
  match c with
  | Ok a => k a
  | Raise e => Raise e
  end.

Notation "x <- c ;; k" := (bind c (fun x => k))
  (at level 61, c at next level, right associativity).

(** [for x in xs: f(x)] collecting the results, stopping at the first raise. *)
Fixpoint mapM {A B : Type} (f : A -> result B) (xs : list A) : result (list B) :=
  match xs with
  | [] => Ok []
  | x :: xs' => y <- f x ;; ys <- mapM f xs' ;; Ok (y :: ys)
  end.

(* ================================================================== *)
(** * Numbers                                                         *)
(* ================================================================== *)

(** A Python [float] or a numpy [float64] scalar; both carry a binary64. *)
Inductive number : Set :=
| PyFloat (x : float)
| NpFloat64 (x : float).

Definition float_of (a : number) : float :=
  match a with
  | PyFloat x => x
  | NpFloat64 x => x
  end.

(** [a / b] under [from __future__ import division]. *)
Definition truediv (a b : number) : result number :=
  match a, b with
  | PyFloat x, PyFloat y =>
      if is_zero y then Raise ZeroDivisionError else Ok (PyFloat (x / y)%float)
  | _, _ => Ok (NpFloat64 (float_of a / float_of b)%float)
  end.

(** [a * b]. *)
Definition mul (a b : number) : number :=
  match a, b with
  | PyFloat x, PyFloat y => PyFloat (x * y)%float
  | _, _ => NpFloat64 (float_of a * float_of b)%float
  end.

(** [np.sqrt(a)]: a numpy scalar, nan for a negative argument. *)
Definition np_sqrt (a : number) : number := NpFloat64 (sqrt (float_of a)).

(** [a == b] on numbers. *)
Definition num_eqb (a b : number) : bool := (float_of a =? float_of b)%float.

(** The objects that reach [Parameter.scale] and [Parameter.unscale]:
    [None], a scalar, a [float64] array, or an object array (what
    [np.array] builds from a tuple that holds a [None]). *)
Inductive value : Set :=
| VNone
| VNum (a : number)
| VArray (xs : list float)
| VObjArray (xs : list (option number)).

Definition is_none (v : value) : bool :=
  match v with
  | VNone => true
  | _ => false
  end.

(** One side of a [limit] tuple, as a Python object. *)
Definition side_value (l : option number) : value :=
  match l with
  | None => VNone
  | Some a => VNum a
  end.

Fixpoint all_numbers (xs : list (option number)) : option (list float) :=
  match xs with
  | [] => Some []
  | None :: _ => None
  | Some a :: xs' =>
      match all_numbers xs' with
      | Some fs => Some (float_of a :: fs)
      | None => None
      end
  end.

(** [np.array(xs)] for a tuple of scalars and [None]s. *)
Definition np_array (xs : list (option number)) : value :=
  match all_numbers xs with
  | Some fs => VArray fs
  | None => VObjArray xs
  end.

(* ================================================================== *)
(** * fit_new.py: Parameter                                           *)
(* ================================================================== *)

(** The class [Parameter] ([Parameter] is a reserved word of Rocq, hence
    the name). *)
Record FitParameter : Set := mkParameter {
  name : string;
  guess : option number;
  limit : option (option number * option number);
  misc : option string;
  scale_factor : number
}.

(** [limit[0] * limit[1]]; [None] times anything is a [TypeError]. *)
Definition side_mul (l0 l1 : option number) : result number :=
  match l0, l1 with
  | Some a, Some b => Ok (mul a b)
  | _, _ => Raise TypeError
  end.

(** [Parameter.__init__]. *)
Definition Parameter_init (name : string) (guess : option number)
    (limit : option (option number * option number)) (misc : option string)
    : result FitParameter :=
  match guess with
  | Some g => Ok (mkParameter name guess limit misc g)
  | None =>
      match limit with
      | Some (l0, l1) =>
          prod <- side_mul l0 l1 ;;
          Ok (mkParameter name guess limit misc (np_sqrt prod))
      | None => Raise InvalidParameterSpecification
      end
  end.

(** [Parameter.scale]: [physical / self.scale_factor]. *)
Definition scale (self : FitParameter) (physical : value) : result value :=
  match physical with
  | VNone => Raise TypeError
  | VNum a => r <- truediv a (scale_factor self) ;; Ok (VNum r)
  | VArray xs =>
      Ok (VArray (map (fun x => (x / float_of (scale_factor self))%float) xs))
  | VObjArray xs =>
      rs <- mapM (fun o => match o with
                           | None => Raise TypeError
                           | Some a => truediv a (scale_factor self)
                           end) xs ;;
      Ok (VObjArray (map Some rs))
  end.

(** [Parameter.unscale]: [scaled * self.scale_factor]. *)
Definition unscale (self : FitParameter) (scaled : value) : result value :=
  match scaled with
  | VNone => Raise TypeError
  | VNum a => Ok (VNum (mul a (scale_factor self)))
  | VArray xs =>
      Ok (VArray (map (fun x => (x * float_of (scale_factor self))%float) xs))
  | VObjArray xs =>
      rs <- mapM (fun o => match o with
                           | None => Raise TypeError
                           | Some a => Ok (mul a (scale_factor self))
                           end) xs ;;
      Ok (VObjArray (map Some rs))
  end.

(** [p.unscale(p.scale(x))]. *)
Definition roundtrip (p : FitParameter) (x : number) : result value :=
  y <- scale p (VNum x) ;; unscale p y.

(** The Python test [p.unscale(p.scale(x)) == x]: [true] when the round
    trip returns a number that compares equal to [x], [false] when it
    raises or returns anything else. *)
Definition roundtrip_holds (p : FitParameter) (x : number) : bool :=
  match roundtrip p x with
  | Ok (VNum r) => num_eqb r x
  | _ => false
  end.

(* ================================================================== *)
(** * fit_new.py: Minimizer                                           *)
(* ================================================================== *)

(** One entry of nmpfit's [parinfo]: the dictionary [d] built per
    parameter.  The key ['limits'] is absent when the parameter has no
    limit. *)
Record parinfo : Set := mkParinfo {
  parname : string;
  limited : list bool;
  limits : option value;
  value_ : value
}.

(** What [nmpfit.mpfit] hands back, as far as [minimize] reads it. *)
Record mpfit_result : Set := mkFit {
  status : Z;
  params : list float
}.

Record Minimizer : Set := mkMinimizer { algorithm : string }.

(** [Minimizer()] with the default algorithm. *)
Definition Minimizer_default : Minimizer := mkMinimizer "nmpfit".

(** The body of the [for] loop of [minimize]: the dictionary for one
    parameter, or the exception raised while building it. *)
Definition nmp_par (par : FitParameter) : result parinfo :=
  ld <- match limit par with
        | Some (l0, l1) =>
            flags <- mapM (fun l => r <- scale par (side_value l) ;;
                                    Ok (negb (is_none r))) [l0; l1] ;;
            lims <- scale par (np_array [l0; l1]) ;;
            Ok (flags, Some lims)
        | None => Ok ([false; false], None)
        end ;;
  v <- match guess par with
       | Some g => scale par (VNum g)
       | None => Raise InvalidParameterSpecification
       end ;;
  Ok (mkParinfo (name par) (fst ld) (snd ld) v).

Section Minimize.

(** The cost function's value, the pixel selection, and the external
    solver [nmpfit.mpfit], which is not part of the modelled code. *)
Variables (Residual Selection : Type).
Variable mpfit : (list float -> Z * Residual) -> list parinfo -> mpfit_result.

(** [resid_wrapper], the closure handed to the solver. *)
Definition resid_wrapper (cost_func : list float -> option Selection -> Residual)
    (selection : option Selection) (p : list float) : Z * Residual :=
  (0%Z, cost_func p selection).

(** [Minimizer.minimize].  With an algorithm other than ['nmpfit'] the
    method falls off its end and returns [None].  [resid_wrapper] is
    bound inside the loop, so with no parameter at all the call of the
    solver fails on an unbound local. *)
Definition minimize (self : Minimizer) (parameters : list FitParameter)
    (cost_func : list float -> option Selection -> Residual)
    (selection : option Selection)
    : result (option (list float * bool * mpfit_result)) :=
  if String.eqb (algorithm self) "nmpfit" then
    nmp_pars <- mapM nmp_par parameters ;;
    match parameters with
    | [] => Raise UnboundLocalError
    | _ :: _ =>
        let fitresult := mpfit (resid_wrapper cost_func selection) nmp_pars in
        let converged := (status fitresult <? 4)%Z in
        Ok (Some (params fitresult, converged, fitresult))
    end
  else Ok None.

End Minimize.

Arguments resid_wrapper {Residual Selection} cost_func selection p.
Arguments minimize {Residual Selection} mpfit self parameters cost_func selection.

(* ================================================================== *)
(** * numpy arrays                                                    *)
(* ================================================================== *)

Fixpoint zip_with {A B C : Type} (f : A -> B -> C) (xs : list A) (ys : list B)
    : list C :=
  match xs, ys with
  | x :: xs', y :: ys' => f x y :: zip_with f xs' ys'
  | _, _ => []
  end.

(** An elementwise operation on two one-dimensional [float64] arrays,
    with numpy's broadcasting: equal lengths, or one operand of length 1;
    any other pair of shapes is a [ValueError]. *)
Definition np_broadcast (op : float -> float -> float) (a b : list float)
    : result (list float) :=
  if Nat.eqb (List.length a) (List.length b) then Ok (zip_with op a b)
  else match a, b with
       | [x], _ => Ok (map (op x) b)
       | _, [y] => Ok (map (fun x => op x y) a)
       | _, _ => Raise ValueError
       end.

Definition np_add : list float -> list float -> result (list float) :=
  np_broadcast PrimFloat.add.

Definition np_sub : list float -> list float -> result (list float) :=
  np_broadcast PrimFloat.sub.

(** [enumerate(xs)]. *)
Definition enumerate {A : Type} (xs : list A) : list (nat * A) :=
  combine (seq 0 (List.length xs)) xs.

(** A Python [float] or [complex] scalar. *)
Inductive scalar : Set :=
| Real (x : float)
| Cplx (re im : float).

(** An array of dtype [float64] or [complex128]. *)
Inductive dtype : Set := Float64 | Complex128.

Inductive ndarray : Set :=
| FArr (xs : list float)
| CArr (xs : list (float * float)).

Definition to_complex (s : scalar) : float * float :=
  match s with
  | Real x => (x, zero)
  | Cplx re im => (re, im)
  end.

(** The real part, which is what a cast of a complex value to [float64]
    keeps (numpy warns and drops the imaginary part). *)
Definition to_real (s : scalar) : float :=
  match s with
  | Real x => x
  | Cplx re _ => re
  end.

(** Complex multiplication as numpy and CPython compute it. *)
Definition cmul (a b : float * float) : float * float :=
  ((fst a * fst b - snd a * snd b)%float, (fst a * snd b + snd a * fst b)%float).

Definition arr_len (a : ndarray) : nat :=
  match a with
  | FArr xs => List.length xs
  | CArr xs => List.length xs
  end.

(** [a[i]] as a scalar. *)
Definition arr_get (a : ndarray) (i : nat) : option scalar :=
  match a with
  | FArr xs => option_map Real (nth_error xs i)
  | CArr xs => option_map (fun c => Cplx (fst c) (snd c)) (nth_error xs i)
  end.

(** The elements of an array, [for n in ns]. *)
Definition arr_items (a : ndarray) : list scalar :=
  match a with
  | FArr xs => map Real xs
  | CArr xs => map (fun c => Cplx (fst c) (snd c)) xs
  end.

(** [np.iscomplex] on one element: a nonzero imaginary part. *)
Definition iscomplex (s : scalar) : bool :=
  match s with
  | Real _ => false
  | Cplx _ im => negb (im =? zero)%float
  end.

(** [np.ones_like(a, dtype=dt)] for an array [a] of [len] elements. *)
Definition np_ones_like (len : nat) (dt : dtype) : ndarray :=
  match dt with
  | Float64 => FArr (repeat one len)
  | Complex128 => CArr (repeat (one, zero) len)
  end.

(** [a * s] for an array and a scalar; the result is complex as soon as
    one of them is. *)
Definition np_mul_scalar (a : ndarray) (s : scalar) : ndarray :=
  match a, s with
  | FArr xs, Real b => FArr (map (fun x => (x * b)%float) xs)
  | FArr xs, Cplx _ _ => CArr (map (fun x => cmul (x, zero) (to_complex s)) xs)
  | CArr xs, _ => CArr (map (fun c => cmul c (to_complex s)) xs)
  end.

(** [a[mask] = v]: the value is cast to the dtype of [a]. *)
Definition np_setmask (a : ndarray) (mask : list bool) (v : scalar) : ndarray :=
  match a with
  | FArr xs => FArr (zip_with (fun x (m : bool) => if m then to_real v else x) xs mask)
  | CArr xs => CArr (zip_with (fun c (m : bool) => if m then to_complex v else c) xs mask)
  end.

(** [domains[np.nonzero(ind)] = v] on an integer array: every index at
    which [ind] is true is written; an index past the end of [domains]
    is an [IndexError]. *)
Fixpoint assign_where (domains : list Z) (ind : list bool) (v : Z)
    : result (list Z) :=
  match ind, domains with
  | [], _ => Ok domains
  | b :: ind', d :: domains' =>
      rest <- assign_where domains' ind' v ;;
      Ok ((if b then v else d) :: rest)
  | _ :: _, [] => if existsb (fun b => b) ind then Raise IndexError else Ok []
  end.

(* ================================================================== *)
(** * scatterer.py: Indicators and Scatterer                          *)
(* ================================================================== *)

(** [Indicators]: the membership tests, one per domain, each taking an
    N x 3 array of points (given by its rows) to a boolean array, and the
    bounding box. *)
Record Indicators : Type := mkIndicators {
  functions : list (list (list float) -> list bool);
  bound : list (list float)
}.

(** [Indicators.__call__]. *)
Definition Indicators_call (self : Indicators) (points : list (list float))
    : list (list bool) :=
  map (fun test => test points) (functions self).

Record Scatterer : Type := mkScatterer {
  indicators : Indicators;
  n : ndarray;
  center : list float
}.

(** The [points] argument of [in_domain] and [index_at]: one point, or a
    two-dimensional array given by its rows. *)
Inductive points_arg : Set :=
| OnePoint (p : list float)
| Points (rows : list (list float)).

(** [points = np.array(points)] followed by the reshape of a
    one-dimensional input to [(1, 3)], which fails unless the input has
    exactly three entries. *)
Definition as_rows (points : points_arg) : result (list (list float)) :=
  match points with
  | OnePoint p => if Nat.eqb (List.length p) 3 then Ok [p] else Raise ValueError
  | Points rows => Ok rows
  end.

(** [Scatterer.in_domain]. *)
Definition in_domain (self : Scatterer) (points : points_arg) : result (list Z) :=
  rows <- as_rows points ;;
  let domains := repeat 0%Z (List.length rows) in
  shifted <- mapM (fun row => np_sub row (center self)) rows ;;
  fold_left (fun acc (i_ind : nat * list bool) =>
               domains <- acc ;;
               assign_where domains (snd i_ind) (Z.of_nat (fst i_ind) + 1))
            (rev (enumerate (Indicators_call (indicators self) shifted)))
            (Ok domains).


(** [Scatterer.index_at]. *)
Definition index_at (self : Scatterer) (points : points_arg) (background : scalar)
    : result ndarray :=
  domains <- in_domain self points ;;
  let ns := n self in
  let dt := if existsb iscomplex (arr_items (n self) ++ [background])
            then Complex128 else Float64 in
  let index := np_mul_scalar (np_ones_like (List.length domains) dt) background in
  Ok (fold_left (fun index (i_n : nat * scalar) =>
                   np_setmask index
                     (map (fun d => (d =? Z.of_nat (fst i_n) + 1)%Z) domains)
                     (snd i_n))
                (enumerate (arr_items ns)) index).

(** The arguments of [translated]: [None], a scalar, or a sequence. *)
Inductive coord : Set :=
| CNone
| CScalar (x : float)
| CVector (xs : list float).

(** Modelled from the spec: [is_none] and [ensure_array] of
    [holopy.core.utils], which the sources at hand do not include.
    [is_none(x)] is [x is None]; [ensure_array] leaves [None] alone,
    wraps a scalar into a one-element array and turns a sequence into an
    array, as its uses on [n] ("array of refractive indices") and on the
    translation vector require. *)
Definition coord_is_none (c : coord) : bool :=
  match c with
  | CNone => true
  | _ => false
  end.

Definition ensure_array (c : coord) : option (list float) :=
  match c with
  | CNone => None
  | CScalar x => Some [x]
  | CVector xs => Some xs
  end.

(** [len(ensure_array(coord1)==3)]: the comparison with 3 is elementwise
    and keeps the length; comparing [None] with 3 gives [False], which
    has no length. *)
Definition len_eq3 (c : coord) : result nat :=
  match ensure_array c with
  | None => Raise TypeError
  | Some arr => Ok (List.length (map (fun x => (x =? 3)%float) arr))
  end.

(** [np.array([coord1, coord2, coord3])], as far as the sum with the
    center goes.  Three scalars give an array of three.  A [None] or a
    sequence beside scalars gives an object array (in the versions of
    numpy that have [np.float], which [index_at] uses: those before
    1.24; the versions before 1.19 refuse a list that starts with a
    scalar and holds a sequence with a [ValueError] of their own), and
    adding an object array that holds [None] or a list to the center is
    a [TypeError].  Three sequences of one length would be stacked into
    a two-dimensional array; a center of that kind is outside the
    model, and no statement below passes such arguments. *)
Definition three_coords (c1 c2 c3 : coord) : result (list float) :=
  match c1, c2, c3 with
  | CScalar x, CScalar y, CScalar z => Ok [x; y; z]
  | _, _, _ => Raise TypeError
  end.

(** [Scatterer.translated].  [copy(self)] shares everything but the
    rebound [center]. *)
Definition translated (self : Scatterer) (coord1 coord2 coord3 : coord)
    : result Scatterer :=
  entered_vector <-
    (if coord_is_none coord2
     then len <- len_eq3 coord1 ;; Ok (negb (Nat.eqb len 0))
     else Ok false) ;;
  trans_coords <-
    (if entered_vector : bool then
       match ensure_array coord1 with
       | Some arr => Ok arr
       | None => Raise TypeError
       end
     else if negb (coord_is_none coord2) && negb (coord_is_none coord3) then
       three_coords coord1 coord2 coord3
     else Raise InvalidScatterer) ;;
  new_center <- np_add (center self) trans_coords ;;
  Ok (mkScatterer (indicators self) (n self) new_center).

(* ================================================================== *)
(** * scatterer.py: find_bounds                                       *)
(* ================================================================== *)

(** [xs[i] = v] for an index in range (the loops below only use indices
    below the lengths of their lists). *)
Fixpoint list_set {A : Type} (i : nat) (v : A) (xs : list A) : list A :=
  match xs, i with
  | [], _ => []
  | _ :: xs', O => v :: xs'
  | x :: xs', S i' => x :: list_set i' v xs'
  end.

(** [while cond(s): s = body(s)], run for at most [fuel] tests of the
    condition; [None] when the fuel does not suffice.  The loops of
    [find_bounds] need not terminate: an indicator that is true
    everywhere keeps the first one running. *)
Fixpoint while_loop {St : Type} (fuel : nat) (cond : St -> bool)
    (body : St -> St) (s : St) : option St :=
  match fuel with
  | O => None
  | S fuel' => if cond s then while_loop fuel' cond body (body s) else Some s
  end.

Definition obind {A B : Type} (c : option A) (k : A -> option B) : option B :=
  match c with
  | Some a => k a
  | None => None
  end.

Section FindBounds.

(** The indicator, called on a one-dimensional array of three
    coordinates; its result is used for its truth value. *)
Variable indicator : list float -> bool.

(** The body of the two [for] loops, for axis [i] and direction [j]. *)
Definition find_bounds_step (fuel : nat) (bounds : list (list float))
    (i j : nat) : option (list (list float)) :=
  let point := repeat zero 3 in
  let point := list_set i (nth j (nth i bounds []) zero) point in
  obind (while_loop fuel indicator
           (fun point => list_set i (nth i point zero * 10)%float point) point)
  (fun point =>
  obind (while_loop fuel
           (fun st : list float * Z => negb (indicator (fst st)) && (snd st <? 10)%Z)
           (fun st => (list_set i (nth i (fst st) zero / 2)%float (fst st),
                       (snd st + 1)%Z))
           (point, 0%Z))
  (fun st =>
  obind (while_loop fuel indicator
           (fun point => list_set i (nth i point zero * 1.1)%float point) (fst st))
  (fun point =>
  Some (list_set i (list_set j (nth i point zero) (nth i bounds [])) bounds)))).

(** [find_bounds(indicator)]. *)
Definition find_bounds (fuel : nat) : option (list (list float)) :=
  let bounds := [[-1e-9; 1e-9]; [-1e-9; 1e-9]; [-1e-9; 1e-9]]%float in
  fold_left (fun acc i =>
               fold_left (fun acc j =>
                            obind acc (fun bounds => find_bounds_step fuel bounds i j))
                         (seq 0 2) acc)
            (seq 0 3) (Some bounds).

End FindBounds.

(** ** The search as the specification words it

    Along one axis and in one direction: from the seed, multiply the
    offset by [factor] while the indicator is true at it; then halve it,
    at most ten times, while the indicator is false; then grow it in
    steps of ten percent while the indicator is true.  The specification
    says that the first phase doubles the offset ([factor = 2]). *)

(** The point on axis [i] at offset [t], the other coordinates at 0. *)
Definition on_axis (i : nat) (t : float) : list float :=
  list_set i t [zero; zero; zero].

Fixpoint grow (fuel : nat) (factor : float) (inside : float -> bool) (t : float)
    : option float :=
  match fuel with
  | O => None
  | S fuel' => if inside t then grow fuel' factor inside (t * factor)%float
               else Some t
  end.

Fixpoint shrink (steps : nat) (inside : float -> bool) (t : float) : float :=
  match steps with
  | O => t
  | S steps' => if inside t then t else shrink steps' inside (t / 2)%float
  end.

Definition locate (fuel : nat) (factor : float) (inside : float -> bool)
    (seed : float) : option float :=
  obind (grow fuel factor inside seed)
        (fun t => grow fuel 1.1%float inside (shrink 10 inside t)).

Definition find_bounds_in_words (factor : float) (indicator : list float -> bool)
    (fuel : nat) : option (list (list float)) :=
  let axis i :=
    obind (locate fuel factor (fun t => indicator (on_axis i t)) (-1e-9)%float)
    (fun lo =>
    obind (locate fuel factor (fun t => indicator (on_axis i t)) 1e-9%float)
    (fun hi => Some [lo; hi])) in
  obind (axis 0%nat) (fun x =>
  obind (axis 1%nat) (fun y =>
  obind (axis 2%nat) (fun z => Some [x; y; z]))).

(* ================================================================== *)
(** * scatterer.py: CenteredScatterer and the parameter dictionaries  *)
(* ================================================================== *)

Module Centered.

(** The objects a scatterer's attributes hold: [None], a float, a
    complex number, a list (or tuple or array), a dictionary with string
    keys, or a prior, of which only its [guess] matters here.  A plain
    complex number has no [name] attribute, so [_expand_parameters]
    treats it as a leaf; objects of [prior.ComplexPrior] and of
    [xarray.DataArray] are not among the modelled values. *)
Inductive pyobj : Type :=
| PNone
| PFloat (x : float)
| PComplex (re im : float)
| PList (xs : list pyobj)
| PDict (items : list (string * pyobj))
| PPrior (guess : float).

(** A [dict]: the items in insertion order, each key once. *)
Definition dict : Type := list (string * pyobj).

Fixpoint dict_get (d : dict) (key : string) : option pyobj :=
  match d with
  | [] => None
  | (k, v) :: rest => if String.eqb k key then Some v else dict_get rest key
  end.

Definition dict_has (d : dict) (key : string) : bool :=
  match dict_get d key with
  | Some _ => true
  | None => false
  end.

(** [d[key] = v]. *)
Fixpoint dict_set (d : dict) (key : string) (v : pyobj) : dict :=
  match d with
  | [] => [(key, v)]
  | (k, w) :: rest =>
      if String.eqb k key then (k, v) :: rest else (k, w) :: dict_set rest key v
  end.

(** [dict(pairs)]. *)
Definition dict_of (pairs : list (string * pyobj)) : dict :=
  fold_left (fun d kv => dict_set d (fst kv) (snd kv)) pairs [].

(** [str(i)] for an index. *)
Definition str_nat (i : nat) : string := NilEmpty.string_of_uint (Nat.to_uint i).

(** What [_expand_parameters] makes of one pair [(key, par)]. *)
Fixpoint expand_obj (key : string) (par : pyobj) {struct par}
    : list (string * pyobj) :=
  match par with
  | PList xs =>
      (fix expand_items (i : nat) (xs : list pyobj) {struct xs} :=
         match xs with
         | [] => []
         | x :: xs' =>
             expand_obj (key ++ "." ++ str_nat i) x ++ expand_items (S i) xs'
         end) 0%nat xs
  | PDict items =>
      (fix expand_items (items : list (string * pyobj)) {struct items} :=
         match items with
         | [] => []
         | (k, v) :: items' =>
             expand_obj (key ++ "_" ++ k) v ++ expand_items items'
         end) items
  | _ => [(key, par)]
  end.

(** [_expand_parameters(pairs, basekey)]. *)
Definition expand_parameters (pairs : list (string * pyobj)) (basekey : string)
    : list (string * pyobj) :=
  flat_map (fun kv => expand_obj (basekey ++ fst kv) (snd kv)) pairs.

(** [s.split(c, 1)[0]]: the part of [s] before the first [c]. *)
Fixpoint before (c : ascii) (s : string) : string :=
  match s with
  | EmptyString => EmptyString
  | String a s' => if Ascii.eqb a c then EmptyString else String a (before c s')
  end.

(** [s[n:]]. *)
Fixpoint drop (n : nat) (s : string) : string :=
  match n, s with
  | O, _ => s
  | S n', String _ s' => drop n' s'
  | S _, EmptyString => EmptyString
  end.

(** [set(keys)], listed in the order of first occurrence.  Python does
    not fix the order in which a set is iterated: this order is one
    among those the code may take, and a result of [extract_pars] lists
    its items in one of the orders in which the code may insert them.
    [extract_pars_in_order] below runs the loop over the subkeys in an
    arbitrary order, for the statements that are about every order. *)
Fixpoint dedup (keys : list string) : list string :=
  match keys with
  | [] => []
  | k :: rest =>
      k :: filter (fun k' => negb (String.eqb k' k)) (dedup rest)
  end.

(** Python's arithmetic on floats and complex numbers, for
    [1.0 * real + 1.0j * imag]. *)
Definition as_complex (v : pyobj) : option (float * float) :=
  match v with
  | PFloat x => Some (x, zero)
  | PComplex re im => Some (re, im)
  | _ => None
  end.

Definition py_mul (a b : pyobj) : result pyobj :=
  match a, b with
  | PFloat x, PFloat y => Ok (PFloat (x * y))
  | _, _ =>
      match as_complex a, as_complex b with
      | Some ca, Some cb => Ok (PComplex (fst (cmul ca cb)) (snd (cmul ca cb)))
      | _, _ => Raise TypeError
      end
  end.

Definition py_add (a b : pyobj) : result pyobj :=
  match a, b with
  | PFloat x, PFloat y => Ok (PFloat (x + y))
  | _, _ =>
      match as_complex a, as_complex b with
      | Some ca, Some cb =>
          Ok (PComplex (fst ca + fst cb) (snd ca + snd cb))
      | _, _ => Raise TypeError
      end
  end.

(** [subset]: the items whose key starts with [subkey], under the rest
    of the key after the delimiter, and the delimiter of the last of
    them. *)
Definition clip_items (subkey : string) (raw_pars : dict)
    : dict * option ascii :=
  fold_left (fun (acc : dict * option ascii) (kv : string * pyobj) =>
               if String.prefix subkey (fst kv)
               then (dict_set (fst acc)
                       (drop (String.length subkey + 1) (fst kv)) (snd kv),
                     String.get (String.length subkey) (fst kv))
               else acc)
            raw_pars ([], None).

(** The body of the loop of [extract_pars] for one [subkey]: the entry
    it adds to [out_dict].  [extract] stands for the recursive call.
    The code tests the delimiter with [delimchar is '_'] and
    [delimchar is '.'], the identity of two one-character strings.
    CPython 2, for which the module is written, keeps one object per
    one-character string, so that the test holds exactly when the
    characters are equal, and it is read so here; an interpreter that
    does not share these strings takes the last branch instead and
    raises [InvalidScatterer] for a nested dictionary. *)
Definition extract_subkey (extract : dict -> result dict) (raw_pars : dict)
    (out_dict : dict) (subkey : string) : result dict :=
  out_dict <-
    match dict_get raw_pars subkey with
    | Some val =>
        let val := match val with
                   | PPrior guess => PFloat guess
                   | _ => val
                   end in
        Ok (dict_set out_dict subkey val)
    | None =>
        let (subset, delimchar) := clip_items subkey raw_pars in
        match delimchar with
        | Some "_"%char =>
            sub <- extract subset ;;
            Ok (dict_set out_dict subkey (PDict sub))
        | Some "."%char =>
            dictform <- extract subset ;;
            if dict_has dictform "0" then
              items <- mapM (fun i => match dict_get dictform (str_nat i) with
                                      | Some v => Ok v
                                      | None => Raise KeyError
                                      end)
                            (seq 0 (List.length dictform)) ;;
              Ok (dict_set out_dict subkey (PList items))
            else if dict_has dictform "real" then
              match dict_get dictform "real", dict_get dictform "imag" with
              | Some re, Some im =>
                  a <- py_mul (PFloat 1) re ;;
                  b <- py_mul (PComplex 0 1) im ;;
                  c <- py_add a b ;;
                  Ok (dict_set out_dict subkey c)
              | _, _ => Raise KeyError
              end
            else Ok out_dict
        | _ => Ok out_dict
        end
    end ;;
  if dict_has out_dict subkey then Ok out_dict else Raise InvalidScatterer.

(** [extract_pars], the inverse of the flattening, local to
    [from_parameters].  Every recursive call is on keys that are
    shorter, so a [fuel] above the length of the longest key is never
    used up; [extract_pars] below supplies it.  (Python bounds the depth
    of recursion as well, far above that.) *)
Fixpoint extract_pars_fuel (fuel : nat) (raw_pars : dict) : result dict :=
  match fuel with
  | O => Raise RecursionError
  | S fuel' =>
      let subkeys :=
        dedup (map (fun kv => before "_" (before "." (fst kv))) raw_pars) in
      fold_left (fun (acc : result dict) (subkey : string) =>
                   out_dict <- acc ;;
                   extract_subkey (extract_pars_fuel fuel') raw_pars out_dict subkey)
                subkeys (Ok [])
  end.

Definition longest_key (d : dict) : nat :=
  fold_left (fun m kv => Nat.max m (String.length (fst kv))) d 0%nat.

Definition extract_pars (raw_pars : dict) : result dict :=
  extract_pars_fuel (S (longest_key raw_pars)) raw_pars.

(** [CenteredScatterer]: its one attribute. *)
Record CenteredScatterer : Type := mkCentered { center : pyobj }.

(** [CenteredScatterer.__init__(self, center=None)]: a center has to be
    a sequence of three; [np.isscalar] is true of a float and of a
    complex number, and a prior has no [len]. *)
Definition CenteredScatterer_init (center : pyobj) : result CenteredScatterer :=
  match center with
  | PNone => Ok (mkCentered center)
  | PFloat _ | PComplex _ _ => Raise InvalidScatterer
  | PList xs =>
      if Nat.eqb (List.length xs) 3 then Ok (mkCentered center)
      else Raise InvalidScatterer
  | PDict items =>
      if Nat.eqb (List.length items) 3 then Ok (mkCentered center)
      else Raise InvalidScatterer
  | PPrior _ => Raise TypeError
  end.

(** The constructor called with the dictionary unpacked into keyword
    arguments, for comparison with the positional call that
    [from_parameters] makes: [center] is the only keyword the
    constructor knows. *)
Definition CenteredScatterer_init_kwargs (kwargs : dict) : result CenteredScatterer :=
  if forallb (fun kv => String.eqb (fst kv) "center") kwargs
  then CenteredScatterer_init (match dict_get kwargs "center" with
                               | Some c => c
                               | None => PNone
                               end)
  else Raise TypeError.

(** Modelled from the spec: [HoloPyObject._dict], defined in
    [holopy/core/holopy_object.py], which the sources at hand do not
    include.  The specification requires "that every entity's constructor
    arguments be recoverable from its public attributes": the dictionary
    holds the constructor's arguments by name, read from the attributes
    of the same name, without those that are [None]. *)
Definition _dict (self : CenteredScatterer) : dict :=
  match center self with
  | PNone => []
  | c => [("center"%string, c)]
  end.

(** The property [CenteredScatterer.parameters]. *)
Definition parameters (self : CenteredScatterer) : dict :=
  dict_of (expand_parameters (_dict self) "").

(** [CenteredScatterer.from_parameters].  The reconstructed dictionary
    is passed to the constructor as its first positional argument. *)
Definition from_parameters (self : CenteredScatterer) (pars : dict)
    : result CenteredScatterer :=
  let all_pars :=
    fold_left (fun (all_pars : dict) (key : string) =>
                 match dict_get pars key with
                 | Some v => dict_set all_pars key v
                 | None => all_pars
                 end)
              (map fst (parameters self)) (parameters self) in
  kwargs <- extract_pars all_pars ;;
  CenteredScatterer_init (PDict kwargs).

End Centered.

(* ================================================================== *)
(** * Notions used in the statements, and example objects             *)
(* ================================================================== *)

(** A solver stub for the examples: it reports the given status and
    returns the start values unchanged. *)
Definition mpfit_stub (st : Z) (resid : list float -> Z * unit)
    (parinfo : list parinfo) : mpfit_result :=
  mkFit st (map (fun d => match value_ d with
                          | VNum a => float_of a
                          | _ => zero
                          end) parinfo).

Definition cost_stub (p : list float) (selection : option unit) : unit := tt.

(** The parameter [Parameter(name='r', guess=0.5e-6)]. *)
Definition par_r : FitParameter :=
  mkParameter "r" (Some (PyFloat 0.5e-6)) None None (PyFloat 0.5e-6).

(** The loop of [in_domain], read from the last indicator to the first:
    [paint i inds domains] writes [i + k + 1] for the [k]-th of [inds],
    the later ones first. *)
Fixpoint paint (i : nat) (inds : list (list bool)) (domains : list Z)
    : result (list Z) :=
  match inds with
  | [] => Ok domains
  | ind :: rest =>
      d <- paint (S i) rest domains ;;
      assign_where d ind (Z.of_nat i + 1)
  end.



(** An indicator given by a test on single points, applied row by row. *)
Definition vectorize (test : list float -> bool) (points : list (list float))
    : list bool :=
  map test points.

(** The ball of radius [r] around the origin. *)
Definition in_ball (r : float) (p : list float) : bool :=
  match p with
  | [x; y; z] => (x * x + y * y + z * z <? r * r)%float
  | _ => false
  end.

Definition ball (r : float) : list (list float) -> list bool :=
  vectorize (in_ball r).

(** A sphere with a core: the ball of radius 1 inside the ball of
    radius 2, centered at (10, 0, 0). *)
Definition layered_sphere : Scatterer :=
  mkScatterer (mkIndicators [ball 1; ball 2] [[-2; 2]; [-2; 2]; [-2; 2]]%float)
              (FArr [1.59; 1.33]%float) [10; 0; 0]%float.

Definition probe_points : points_arg :=
  Points [[10.5; 0; 0]; [11.5; 0; 0]; [13; 0; 0]; [10; 0.5; 0.5]]%float.

(** [a == b] on Python scalars. *)
Definition scalar_eqb (a b : scalar) : bool :=
  ((fst (to_complex a) =? fst (to_complex b))
   && (snd (to_complex a) =? snd (to_complex b)))%float.

Definition scalar_finite (a : scalar) : bool :=
  is_finite (fst (to_complex a)) && is_finite (snd (to_complex a)).

(** [r] is the number [v] as an array stores it: the same real part, and
    the same imaginary part unless both are zero (a real array keeps no
    imaginary part, a complex one adds a zero). *)
Definition stored_as (r v : scalar) : Prop :=
  fst (to_complex r) = fst (to_complex v) /\
  (snd (to_complex r) = snd (to_complex v) \/
   (is_zero (snd (to_complex r)) = true /\ is_zero (snd (to_complex v)) = true)).

(** The cast of an assignment [a[...] = v]. *)
Definition cast_like (a : ndarray) (v : scalar) : scalar :=
  match a with
  | FArr _ => Real (to_real v)
  | CArr _ => Cplx (fst (to_complex v)) (snd (to_complex v))
  end.

Definition same_kind (a b : ndarray) : Prop :=
  match a, b with
  | FArr _, FArr _ => True
  | CArr _, CArr _ => True
  | _, _ => False
  end.

(** The refractive index the loop of [index_at] writes for domain [d]
    when it runs over [items] numbered from [i0]. *)
Definition index_of_domain (i0 : nat) (items : list scalar) (d : Z) : option scalar :=
  if (Z.of_nat i0 + 1 <=? d)%Z
  then nth_error items (Z.to_nat (d - Z.of_nat i0 - 1))
  else None.

(** The element of [np.ones_like(domains, dtype) * background]. *)
Definition background_element (dt : dtype) (background : scalar) : scalar :=
  match dt, background with
  | Float64, Real b => Real (one * b)%float
  | _, _ => Cplx (fst (cmul (one, zero) (to_complex background)))
                 (snd (cmul (one, zero) (to_complex background)))
  end.

(** The layered sphere with an absorbing shell. *)
Definition absorbing_sphere : Scatterer :=
  mkScatterer (indicators layered_sphere)
              (CArr [(1.59, 0); (1.33, 0.01)]%float) (center layered_sphere).

(** [CenteredScatterer(center=[1.0, 2.0, 3.0])]. *)
Definition centered_123 : Centered.CenteredScatterer :=
  Centered.mkCentered (Centered.PList [Centered.PFloat 1; Centered.PFloat 2;
                                       Centered.PFloat 3]).

(** [key] is [center], or [center] followed by a delimiter and more. *)
Definition center_key (key : string) : Prop :=
  exists tail, key = ("center" ++ tail)%string /\
    (tail = EmptyString \/
     exists t, tail = String "."%char t \/ tail = String "_"%char t).

(* ================================================================== *)
(** * fit_new.py: Model and RigidSphereCluster                        *)
(* ================================================================== *)

Module FitModel.

(** A [dict] with string keys: the items in insertion order, each key
    once. *)
Fixpoint kw_get {A : Type} (d : list (string * A)) (key : string) : option A :=
  match d with
  | [] => None
  | (k, v) :: rest => if String.eqb k key then Some v else kw_get rest key
  end.

(** [d[key] = v]. *)
Fixpoint kw_set {A : Type} (d : list (string * A)) (key : string) (v : A)
    : list (string * A) :=
  match d with
  | [] => [(key, v)]
  | (k, w) :: rest =>
      if String.eqb k key then (k, v) :: rest else (k, w) :: kw_set rest key v
  end.

(** The integer [z] as a [float64], rounded to the nearest one: what
    numpy does with an integer operand of a product with a float. *)
Definition float_of_int (z : Z) : float :=
  SF2Prim (binary_normalize prec emax z 0 false).

(** An elementwise operation on two two-dimensional [float64] arrays,
    given by their rows, with numpy's broadcasting along both axes. *)
Definition np_broadcast2 (op : float -> float -> float)
    (a b : list (list float)) : result (list (list float)) :=
  if Nat.eqb (List.length a) (List.length b)
  then mapM (fun ab => np_broadcast op (fst ab) (snd ab)) (combine a b)
  else match a, b with
       | [x], _ => mapM (fun y => np_broadcast op x y) b
       | _, [y] => mapM (fun x => np_broadcast op x y) a
       | _, _ => Raise ValueError
       end.

(** [np.ones(data.shape, dtype='int')]. *)
Definition np_ones_int (data : list (list float)) : list (list Z) :=
  map (map (fun _ => 1%Z)) data.

Section Model.

(** The scatterers that [make_scatterer] returns; building them is not
    part of the modelled code. *)
Variable ScattererT : Type.

(** The function [make_scatterer] as [Model] uses it: the names of its
    arguments, which [inspect.getargspec] reads, and the call with
    keyword arguments. *)
Record maker : Type := mkMaker {
  args : list string;
  call : list (string * value) -> result ScattererT
}.

(** The class [Model], with the attributes that the methods below read.
    ([theory], [scatterer] and [selection] are stored by the constructor
    and read by [cost_func] and [fit] only.)  [make_scatterer] defaults
    to [None]. *)
Record Model : Type := mkModel {
  parameters : list FitParameter;
  make_scatterer : option maker
}.

(** The first loop of [make_scatterer_from_par_values]: the dictionary
    [all_pars]. *)
Definition all_pars_of (parameters : list FitParameter)
    (par_values : list number) : result (list (string * value)) :=
  fold_left (fun acc (i_p : nat * FitParameter) =>
               all_pars <- acc ;;
               match nth_error par_values (fst i_p) with
               | None => Raise IndexError
               | Some x =>
                   v <- unscale (snd i_p) (VNum x) ;;
                   Ok (kw_set all_pars (name (snd i_p)) v)
               end)
            (enumerate parameters) (Ok []).

(** [Model.make_scatterer_from_par_values].  [inspect.getargspec(None)]
    is a [TypeError]; a name missing from [all_pars] is a [KeyError]. *)
Definition make_scatterer_from_par_values (self : Model)
    (par_values : list number) : result ScattererT :=
  all_pars <- all_pars_of (parameters self) par_values ;;
  match make_scatterer self with
  | None => Raise TypeError
  | Some make =>
      for_scatterer <-
        fold_left (fun acc (arg : string) =>
                     for_scatterer <- acc ;;
                     match kw_get all_pars arg with
                     | Some v => Ok (kw_set for_scatterer arg v)
                     | None => Raise KeyError
                     end)
                  (args make) (Ok []) ;;
      call make for_scatterer
  end.

(** The loop of [Model.alpha] over [enumerate(self.parameters)]. *)
Fixpoint alpha_loop (par_values : list number) (pars : list (nat * FitParameter))
    : result (option value) :=
  match pars with
  | [] => Ok None
  | (i, par) :: rest =>
      if String.eqb (name par) "alpha" then
        match nth_error par_values i with
        | None => Raise IndexError
        | Some x => v <- unscale par (VNum x) ;; Ok (Some v)
        end
      else alpha_loop par_values rest
  end.

(** [Model.alpha]. *)
Definition alpha (self : Model) (par_values : list number)
    : result (option value) :=
  alpha_loop par_values (enumerate (parameters self)).

(** [RigidSphereCluster.make_scatterer(self, par_values)] up to the call
    of [reference_scatterer.rotated(...).translated(...)], which is not
    among the sources and is the parameter [place], given the two slices
    [unscaled[:3]] and [unscaled[3:6]]. *)
Definition RigidSphereCluster_make_scatterer
    (place : list value -> list value -> result ScattererT)
    (parameters : list FitParameter) (par_values : list number)
    : result ScattererT :=
  unscaled <- mapM (fun (i_val : nat * number) =>
                      match nth_error parameters (fst i_val) with
                      | None => Raise IndexError
                      | Some par => unscale par (VNum (snd i_val))
                      end)
                   (enumerate par_values) ;;
  place (firstn 3 unscaled) (firstn 3 (skipn 3 unscaled)).

(** [RigidSphereCluster(reference_scatterer, alpha, beta, gamma, x, y, z)].
    Its [make_scatterer] is a bound method: [inspect.getargspec] lists
    the arguments [self] and [par_values], and a call that passes [self]
    by keyword is a [TypeError], as is one that leaves [par_values] out
    or passes something that is not a one-dimensional array of
    numbers. *)
Definition RigidSphereCluster
    (place : list value -> list value -> result ScattererT)
    (alpha beta gamma x y z : FitParameter) : Model :=
  let parameters := [alpha; beta; gamma; x; y; z] in
  mkModel parameters
    (Some (mkMaker ["self"; "par_values"]%string
             (fun kwargs =>
                match kw_get kwargs "self" with
                | Some _ => Raise TypeError
                | None =>
                    match kw_get kwargs "par_values" with
                    | Some (VArray xs) =>
                        RigidSphereCluster_make_scatterer place parameters
                          (map NpFloat64 xs)
                    | _ => Raise TypeError
                    end
                end))).

End Model.

Arguments args {ScattererT} m.
Arguments call {ScattererT} m kwargs.
Arguments mkMaker {ScattererT} args call.
Arguments parameters {ScattererT} m.
Arguments make_scatterer {ScattererT} m.
Arguments mkModel {ScattererT} parameters make_scatterer.
Arguments make_scatterer_from_par_values {ScattererT} self par_values.
Arguments alpha {ScattererT} self par_values.
Arguments RigidSphereCluster {ScattererT} place alpha beta gamma x y z.

(** How numpy answers [selection == None] for an array [selection],
    and what [if] makes of the answer.  Before numpy 1.13 the comparison
    is the scalar [False].  From 1.13 on it is elementwise: the result
    is an array of [False], whose truth value is [False] when it has at
    most one element and a [ValueError] when it has more. *)
Inductive none_comparison : Set :=
| ScalarFalse
| Elementwise.

(** The number of elements of a two-dimensional array. *)
Definition np_size {A : Type} (a : list (list A)) : nat :=
  List.length (List.concat a).

(** The test [if selection == None] of [compare] and [cost]: whether the
    default is to be taken. *)
Definition selection_is_none (numpy : none_comparison)
    (selection : option (list (list Z))) : result bool :=
  match selection with
  | None => Ok true
  | Some s =>
      match numpy with
      | ScalarFalse => Ok false
      | Elementwise => if (1 <? np_size s)%nat then Raise ValueError else Ok false
      end
  end.

(** [Model.compare]: a hologram is a two-dimensional array, given by its
    rows, and [ravel] lists them one after the other. *)
Definition compare (numpy : none_comparison) (calc data : list (list float))
    (selection : option (list (list Z))) : result (list float) :=
  default <- selection_is_none numpy selection ;;
  let selection := match default, selection with
                   | false, Some s => s
                   | _, _ => np_ones_int data
                   end in
  let sel := map (map float_of_int) selection in
  a <- np_broadcast2 PrimFloat.mul calc sel ;;
  b <- np_broadcast2 PrimFloat.mul data sel ;;
  d <- np_broadcast2 PrimFloat.sub a b ;;
  Ok (List.concat d).

End FitModel.

(* ================================================================== *)
(** * scatterer.py: further methods of Scatterer and Indicators       *)
(* ================================================================== *)

(** [Scatterer._index_type]. *)
Definition _index_type (self : Scatterer) (background : scalar) : dtype :=
  if existsb iscomplex (arr_items (n self)) || iscomplex background
  then Complex128 else Float64.

(** Python's [min(a, b)] and [max(a, b)]: the first argument, unless the
    second is smaller (larger). *)
Definition pymin (a b : float) : float := if (b <? a)%float then b else a.

Definition pymax (a b : float) : float := if (a <? b)%float then b else a.

(** [d[i][j]]. *)
Definition get2 (d : list (list float)) (i j : nat) : result float :=
  match nth_error d i with
  | Some row =>
      match nth_error row j with
      | Some v => Ok v
      | None => Raise IndexError
      end
  | None => Raise IndexError
  end.

(** [bound_union]. *)
Definition bound_union (d1 d2 : list (list float)) : result (list (list float)) :=
  fold_left (fun acc (i : nat) =>
               new <- acc ;;
               a0 <- get2 d1 i 0 ;;
               b0 <- get2 d2 i 0 ;;
               let new := list_set i (list_set 0 (pymin a0 b0) (nth i new [])) new in
               a1 <- get2 d1 i 1 ;;
               b1 <- get2 d2 i 1 ;;
               Ok (list_set i (list_set 1 (pymax a1 b1) (nth i new [])) new))
            (seq 0 3) (Ok [[0; 0]; [0; 0]; [0; 0]]%float).

(** An indicator function as a Python callable: [Indicators.__call__]
    applies it to an N x 3 array of points, [find_bounds] to one point. *)
Record indicator_fn : Type := mkIndicatorFn {
  on_points : list (list float) -> list bool;
  on_point : list float -> bool
}.

(** The argument [functions] of [Indicators]: one function, which has no
    [len], or a list of them. *)
Inductive functions_arg : Type :=
| OneFunction (f : indicator_fn)
| FunctionList (fs : list indicator_fn).

(** [Indicators.__init__(functions, bound=None)]; [None] when a search
    for the bounds runs out of [fuel]. *)
Definition Indicators_init (functions : functions_arg)
    (bound : option (list (list float))) (fuel : nat) : option (result Indicators) :=
  let functions := match functions with
                   | OneFunction f => [f]
                   | FunctionList fs => fs
                   end in
  match bound with
  | Some b => Some (Ok (mkIndicators (map on_points functions) b))
  | None =>
      obind (fold_left (fun acc (function : indicator_fn) =>
                          obind acc (fun r =>
                          match r with
                          | Raise e => Some (Raise e)
                          | Ok bound =>
                              obind (find_bounds (on_point function) fuel)
                                    (fun found => Some (bound_union bound found))
                          end))
                       functions (Some (Ok [[0; 0]; [0; 0]; [0; 0]]%float)))
            (fun r => Some (bound <- r ;;
                            Ok (mkIndicators (map on_points functions) bound)))
  end.

(* ================================================================== *)
(** * scatterer.py: the property guess of a CenteredScatterer         *)
(* ================================================================== *)

(** [parameters[key].guess] where the value has that attribute. *)
Definition guess_of (v : Centered.pyobj) : Centered.pyobj :=
  match v with
  | Centered.PPrior g => Centered.PFloat g
  | _ => v
  end.

(** [Scatterer.guess] for a [CenteredScatterer], which has the attribute
    [parameters]. *)
Definition CenteredScatterer_guess (self : Centered.CenteredScatterer)
    : result Centered.CenteredScatterer :=
  let parameters := Centered.parameters self in
  let parameters :=
    fold_left (fun d key =>
                 match Centered.dict_get d key with
                 | Some v => Centered.dict_set d key (guess_of v)
                 | None => d
                 end)
              (map fst parameters) parameters in
  Centered.from_parameters self parameters.

(* ================================================================== *)
(** * Further example objects                                         *)
(* ================================================================== *)

(** The open box between the corners (1, 1, 1) and (2, 2, 2), which none
    of the three axes meets. *)
Definition off_axis_box (p : list float) : bool :=
  match p with
  | [x; y; z] =>
      ((1 <? x) && (x <? 2) && (1 <? y) && (y <? 2) && (1 <? z) && (z <? 2))%float
  | _ => false
  end.

(** A model of a sphere: the parameters [r], [x] and [alpha], and a
    [make_scatterer(r, x)] that hands back its arguments. *)
Definition par_x : FitParameter :=
  mkParameter "x" (Some (PyFloat 2)) None None (PyFloat 2).

Definition par_alpha : FitParameter :=
  mkParameter "alpha" (Some (PyFloat 0.5)) None None (PyFloat 0.5).

Definition sphere_maker : FitModel.maker (list (string * value)) :=
  FitModel.mkMaker ["r"; "x"]%string (fun kwargs => Ok kwargs).

Definition sphere_model : FitModel.Model (list (string * value)) :=
  FitModel.mkModel [par_r; par_x; par_alpha] (Some sphere_maker).

(** The element [a[i][j]] of a two-dimensional array, if there is one. *)
Definition pixel {A : Type} (a : list (list A)) (i j : nat) : option A :=
  match nth_error a i with
  | Some row => nth_error row j
  | None => None
  end.

(** Two two-dimensional arrays of the same shape. *)
Definition same_shape {A B : Type} (a : list (list A)) (b : list (list B)) : Prop :=
  Forall2 (fun x y => List.length x = List.length y) a b.

(** A bounding box: three pairs [lower, upper]. *)
Definition is_box (d : list (list float)) : Prop :=
  exists x0 x1 y0 y1 z0 z1, d = [[x0; x1]; [y0; y1]; [z0; z1]].

(** A box whose lower bounds are at most 0 and whose upper bounds are at
    least 0. *)
Definition around_origin (d : list (list float)) : Prop :=
  exists x0 x1 y0 y1 z0 z1, d = [[x0; x1]; [y0; y1]; [z0; z1]] /\
    Forall (fun lo => (lo <=? 0)%float = true) [x0; y0; z0] /\
    Forall (fun hi => (0 <=? hi)%float = true) [x1; y1; z1].

(** An indicator function given by a test on single points.  *)
Definition pointwise (test : list float -> bool) : indicator_fn :=
  mkIndicatorFn (vectorize test) test.

(** A value that [_expand_parameters] does not take apart. *)
Definition is_leaf (v : Centered.pyobj) : Prop :=
  match v with
  | Centered.PList _ | Centered.PDict _ => False
  | _ => True
  end.

(** A key without a delimiter: it is its own part before the first
    ['.'] and ['_']. *)
Definition plain_key (key : string) : Prop :=
  Centered.before "_" (Centered.before "." key) = key.

(** The loop of [extract_pars] with the subkeys visited in the order
    [keys]: the code iterates over [set(...)], in an order that Python
    does not fix.  [extract] stands for the recursive call. *)
Definition extract_pars_in_order (extract : Centered.dict -> result Centered.dict)
    (raw_pars : Centered.dict) (keys : list string) : result Centered.dict :=
  fold_left (fun (acc : result Centered.dict) (subkey : string) =>
               out_dict <- acc ;;
               Centered.extract_subkey extract raw_pars out_dict subkey)
            keys (Ok []).

(* ================================================================== *)
(** * Facts about binary64 arithmetic                                 *)
(* ================================================================== *)

(** The facts below are read off the IEEE 754 specification of the
    primitive operations ([SpecFloat]); [1] is [2^52 * 2^-52] there. *)

Lemma div_eucl_div_mod (a b : Z) : Z.div_eucl a b = (Z.div a b, Z.modulo a b).
Proof. unfold Z.div, Z.modulo. destruct (Z.div_eucl a b); reflexivity. Qed.

Lemma SFdiv_self (s : bool) (m : positive) (e : Z) :
  SFdiv prec emax (S754_finite s m e) (S754_finite s m e)
  = S754_finite false 4503599627370496 (-52).
Proof.
  unfold SFdiv, SFdiv_core_binary.
  replace (Zdigits2 (Z.pos m) + e - (Zdigits2 (Z.pos m) + e))%Z with 0%Z by lia.
  replace (e - e)%Z with 0%Z by lia.
  change (Z.min (fexp prec emax 0) 0) with (-53)%Z.
  change (0 - -53)%Z with 53%Z. cbv iota.
  rewrite div_eucl_div_mod, Z.shiftl_mul_pow2 by lia.
  replace (Z.pos m * 2 ^ 53)%Z with (2 ^ 53 * Z.pos m)%Z by lia.
  rewrite Z.mod_mul, Z.div_mul by lia.
  assert (L : new_location (Z.pos m) 0 = loc_Exact).
  { unfold new_location. destruct (Z.even (Z.pos m)); reflexivity. }
  rewrite L. destruct s; vm_compute; reflexivity.
Qed.

Lemma SFmul_one_l (s : bool) (m : positive) (e : Z) :
  bounded prec emax m e = true ->
  SFmul prec emax (S754_finite false 4503599627370496 (-52)) (S754_finite s m e)
  = S754_finite s m e.
Proof.
  intros Hb. unfold bounded, canonical_mantissa in Hb.
  apply andb_prop in Hb. destruct Hb as [Hc He].
  apply Z.eqb_eq in Hc.
  unfold SFmul. cbn [xorb]. unfold binary_round_aux. cbn [Pos.mul].
  match goal with
  | |- context [shr_fexp prec emax (Z.pos ?mm) (-52 + e)%Z loc_Exact] =>
      assert (D : (fexp prec emax (Zdigits2 (Z.pos mm) + (-52 + e))
                   - (-52 + e) = 52)%Z)
        by (cbn [Zdigits2 digits2_pos];
            unfold fexp, SpecFloat.emin, prec, emax in *; lia)
  end.
  unfold shr_fexp at 1. rewrite D. unfold shr.
  cbn [SpecFloat.iter_pos shr_record_of_loc shr_1 orb shr_m shr_r shr_s
       loc_of_shr_record round_nearest_even].
  unfold shr_fexp.
  replace (-52 + e + 52)%Z with e by lia.
  replace (fexp prec emax (Zdigits2 (Z.pos m) + e) - e)%Z with 0%Z
    by (cbn [Zdigits2]; lia).
  cbn. cbn in He. rewrite He. reflexivity.
Qed.

(** [x / x = 1] for a finite nonzero [x]. *)
Lemma float_div_self (x : float) (s : bool) (m : positive) (e : Z) :
  Prim2SF x = S754_finite s m e -> (x / x = 1)%float.
Proof.
  intros H. apply Prim2SF_inj. rewrite div_spec, H. unfold SF64div.
  rewrite SFdiv_self. reflexivity.
Qed.

(** [1 * x = x] for every [x], nan and the infinities included. *)
Lemma float_mul_1_l (x : float) : (1 * x = x)%float.
Proof.
  apply Prim2SF_inj. rewrite mul_spec. unfold SF64mul.
  change (Prim2SF 1) with (S754_finite false 4503599627370496 (-52)).
  pose proof (Prim2SF_valid x) as V.
  destruct (Prim2SF x) as [s|s| |s m e]; try reflexivity.
  apply SFmul_one_l. exact V.
Qed.

Lemma is_zero_spec (x : float) :
  is_zero x = true <-> exists b, Prim2SF x = S754_zero b.
Proof.
  unfold is_zero. rewrite eqb_spec.
  change (Prim2SF zero) with (S754_zero false).
  destruct (Prim2SF x) as [s|s| |s m e]; cbn; split;
    try discriminate; try (intros [b Hb]; discriminate);
    try (destruct s; discriminate); eauto.
Qed.

Lemma is_nan_spec (x : float) : is_nan x = true <-> Prim2SF x = S754_nan.
Proof.
  unfold is_nan. rewrite eqb_spec. unfold SFeqb.
  destruct (Prim2SF x) as [s|s| |s m e]; cbn; split; try discriminate;
    try reflexivity.
  - destruct s; discriminate.
  - rewrite Z.compare_refl, Pos.compare_cont_refl. destruct s; discriminate.
Qed.

Lemma is_infinity_spec (x : float) :
  is_infinity x = true <-> exists b, Prim2SF x = S754_infinity b.
Proof.
  unfold is_infinity. rewrite eqb_spec, abs_spec.
  change (Prim2SF infinity) with (S754_infinity false).
  destruct (Prim2SF x) as [s|s| |s m e]; cbn; split;
    try discriminate; try (intros [b Hb]; discriminate); eauto.
Qed.

(** A finite nonzero float is a mantissa and an exponent. *)
Lemma finite_nonzero_spec (x : float) :
  is_finite x = true -> is_zero x = false ->
  exists s m e, Prim2SF x = S754_finite s m e.
Proof.
  unfold is_finite. intros Hf Hz.
  apply negb_true_iff, orb_false_iff in Hf. destruct Hf as [Hn Hi].
  destruct (Prim2SF x) as [s|s| |s m e] eqn:E.
  - assert (is_zero x = true) by (apply is_zero_spec; eauto). congruence.
  - assert (is_infinity x = true) by (apply is_infinity_spec; eauto). congruence.
  - assert (is_nan x = true) by (apply is_nan_spec; exact E). congruence.
  - eauto.
Qed.

Lemma eqb_refl_finite (x : float) : is_finite x = true -> (x =? x)%float = true.
Proof.
  unfold is_finite, is_nan. intros H.
  apply negb_true_iff, orb_false_iff in H. destruct H as [H _].
  apply negb_false_iff in H. exact H.
Qed.

Lemma eqb_nan_l (y x : float) : Prim2SF y = S754_nan -> (y =? x)%float = false.
Proof. intros H. rewrite eqb_spec, H. reflexivity. Qed.

(** Dividing by a zero never gives a finite value, and multiplying the
    quotient by that zero again gives nan. *)
Lemma div_zero_not_finite (x s : float) :
  is_zero s = true -> is_finite (x / s) = false.
Proof.
  intros Hz. apply is_zero_spec in Hz. destruct Hz as [b Hb].
  unfold is_finite. apply negb_false_iff, orb_true_iff.
  assert (D : Prim2SF (x / s) = S754_nan \/ exists c, Prim2SF (x / s) = S754_infinity c).
  { rewrite div_spec, Hb. unfold SF64div, SFdiv.
    destruct (Prim2SF x) as [sx|sx| |sx mx ex]; eauto. }
  destruct D as [D | D].
  - left. apply is_nan_spec. exact D.
  - right. apply is_infinity_spec. exact D.
Qed.

Lemma div_zero_mul_zero_nan (x s : float) :
  is_zero s = true -> Prim2SF (x / s * s) = S754_nan.
Proof.
  intros Hz. apply is_zero_spec in Hz. destruct Hz as [b Hb].
  rewrite mul_spec, div_spec, Hb. unfold SF64mul, SF64div, SFdiv, SFmul.
  destruct (Prim2SF x) as [sx|sx| |sx mx ex]; reflexivity.
Qed.

Lemma sqrt_zero (x : float) : is_zero x = true -> is_zero (sqrt x) = true.
Proof.
  intros Hz. apply is_zero_spec in Hz. destruct Hz as [b Hb].
  apply is_zero_spec. exists b. rewrite sqrt_spec, Hb. reflexivity.
Qed.

(* ================================================================== *)
(** * Parameter: scaling                                              *)
(* ================================================================== *)

Lemma Parameter_init_guess (nm : string) (g : number)
    (lim : option (option number * option number)) (mi : option string) :
  Parameter_init nm (Some g) lim mi = Ok (mkParameter nm (Some g) lim mi g).
Proof. reflexivity. Qed.

Lemma Parameter_init_limit (nm : string) (lo hi : number) (mi : option string) :
  Parameter_init nm None (Some (Some lo, Some hi)) mi
  = Ok (mkParameter nm None (Some (Some lo, Some hi)) mi (np_sqrt (mul lo hi))).
Proof. reflexivity. Qed.

(** A parameter built without a guess has both sides of its limit and a
    numpy scalar as its scale factor. *)
Lemma Parameter_init_no_guess (nm : string)
    (lim : option (option number * option number)) (mi : option string)
    (p : FitParameter) :
  Parameter_init nm None lim mi = Ok p ->
  exists lo hi, limit p = Some (Some lo, Some hi) /\ guess p = None /\
                scale_factor p = np_sqrt (mul lo hi).
Proof.
  unfold Parameter_init. destruct lim as [[[lo|] [hi|]]|]; cbn; try discriminate.
  intros H. injection H as <-. exists lo, hi. auto.
Qed.

Lemma float_of_mul (a b : number) :
  float_of (mul a b) = (float_of a * float_of b)%float.
Proof. destruct a, b; reflexivity. Qed.

Lemma truediv_self (g : number) :
  is_finite (float_of g) = true -> is_zero (float_of g) = false ->
  truediv g g = Ok (match g with PyFloat _ => PyFloat 1 | NpFloat64 _ => NpFloat64 1 end).
Proof.
  intros Hf Hz. destruct (finite_nonzero_spec _ Hf Hz) as (s & m & e & E).
  destruct g as [x | x]; cbn in *.
  - rewrite Hz, (float_div_self _ _ _ _ E). reflexivity.
  - rewrite (float_div_self _ _ _ _ E). reflexivity.
Qed.




(** With a zero scale factor no round trip succeeds. *)
Lemma zero_scale_roundtrip (p : FitParameter) (x : number) :
  is_zero (float_of (scale_factor p)) = true -> roundtrip_holds p x = false.
Proof.
  intros Hz. unfold roundtrip_holds, roundtrip, scale, unscale, truediv.
  destruct (scale_factor p) as [s | s] eqn:Es, x as [x | x]; cbn in Hz |- *.
  1: rewrite Hz; reflexivity.
  all: unfold num_eqb; cbn; apply eqb_nan_l, div_zero_mul_zero_nan; exact Hz.
Qed.

(** With a zero scale factor [scale(x)] is a division by zero: it raises
    [ZeroDivisionError], or (when a numpy scalar is involved) returns an
    infinity or nan. *)
Lemma zero_scale_divides_by_zero (p : FitParameter) (x : number) :
  is_zero (float_of (scale_factor p)) = true ->
  scale p (VNum x) = Raise ZeroDivisionError \/
  exists r, scale p (VNum x) = Ok (VNum r) /\ is_finite (float_of r) = false.
Proof.
  intros Hz. unfold scale, truediv.
  destruct (scale_factor p) as [s | s] eqn:Es, x as [x | x]; cbn in Hz |- *.
  1: rewrite Hz; left; reflexivity.
  all: right; eexists; split; [reflexivity|]; cbn;
       apply div_zero_not_finite; exact Hz.
Qed.

(** C10: a zero guess is accepted and becomes the scale factor; so is a
    limit whose product is zero (its root is zero).  For such a parameter
    [scale(x)] divides by zero and [unscale(scale(x)) == x] holds for no
    [x]. *)
Theorem zero_guess_breaks_scaling :
  (forall nm g lim mi, is_zero (float_of g) = true ->
     exists p, Parameter_init nm (Some g) lim mi = Ok p /\
               scale_factor p = g /\
               is_zero (float_of (scale_factor p)) = true) /\
  (forall nm lo hi mi, is_zero (float_of (mul lo hi)) = true ->
     exists p, Parameter_init nm None (Some (Some lo, Some hi)) mi = Ok p /\
               is_zero (float_of (scale_factor p)) = true) /\
  (forall p x, is_zero (float_of (scale_factor p)) = true ->
     (scale p (VNum x) = Raise ZeroDivisionError \/
      exists r, scale p (VNum x) = Ok (VNum r) /\ is_finite (float_of r) = false) /\
     roundtrip_holds p x = false).
Proof.
  split; [|split].
  - intros nm g lim mi Hz. eexists. split; [apply Parameter_init_guess|].
    cbn. auto.
  - intros nm lo hi mi Hz. eexists. split; [apply Parameter_init_limit|].
    cbn. apply sqrt_zero. exact Hz.
  - intros p x Hz. split.
    + apply zero_scale_divides_by_zero. exact Hz.
    + apply zero_scale_roundtrip. exact Hz.
Qed.

Lemma zero_guess_breaks_scaling_witness :
  (exists p, Parameter_init "x" (Some (PyFloat 0)) None None = Ok p /\
             scale_factor p = PyFloat 0 /\
             scale p (VNum (PyFloat 2)) = Raise ZeroDivisionError /\
             roundtrip_holds p (PyFloat 2) = false) /\
  (exists p, Parameter_init "y" None (Some (Some (PyFloat 0), Some (PyFloat 5))) None
             = Ok p /\
             is_zero (float_of (scale_factor p)) = true /\
             scale p (VNum (PyFloat 2)) = Ok (VNum (NpFloat64 infinity)) /\
             roundtrip_holds p (PyFloat 2) = false).
Proof.
  destruct zero_guess_breaks_scaling as (G & L & Z).
  split.
  - destruct (G "x"%string (PyFloat 0) None None) as (p & Hp & Hs & Hz);
      [reflexivity|].
    exists p. split; [exact Hp|]. split; [exact Hs|]. split.
    + rewrite Parameter_init_guess in Hp. injection Hp as <-. reflexivity.
    + apply (Z p (PyFloat 2) Hz).
  - destruct (L "y"%string (PyFloat 0) (PyFloat 5) None) as (p & Hp & Hz);
      [reflexivity|].
    exists p. split; [exact Hp|]. split; [exact Hz|]. split.
    + rewrite Parameter_init_limit in Hp. injection Hp as <-. vm_compute. reflexivity.
    + apply (Z p (PyFloat 2) Hz).
Defined.

(* ================================================================== *)
(** * Minimizer.minimize                                              *)
(* ================================================================== *)

Lemma mapM_app {A B : Type} (f : A -> result B) (xs ys : list A) :
  mapM f (xs ++ ys) = (a <- mapM f xs ;; b <- mapM f ys ;; Ok (a ++ b)).
Proof.
  induction xs as [|x xs IH]; cbn.
  - destruct (mapM f ys); reflexivity.
  - destruct (f x); cbn; [|reflexivity].
    rewrite IH. destruct (mapM f xs); cbn; [|reflexivity].
    destruct (mapM f ys); reflexivity.
Qed.

Lemma mapM_length {A B : Type} (f : A -> result B) (xs : list A) (ys : list B) :
  mapM f xs = Ok ys -> List.length ys = List.length xs.
Proof.
  revert ys. induction xs as [|x xs IH]; cbn; intros ys H.
  - injection H as <-. reflexivity.
  - destruct (f x); cbn in H; [|discriminate].
    destruct (mapM f xs); cbn in H; [|discriminate].
    injection H as <-. cbn. f_equal. apply IH. reflexivity.
Qed.

(** The first parameter whose dictionary cannot be built decides the
    exception. *)
Lemma mapM_first_raise {A B : Type} (f : A -> result B) (pre post : list A)
    (x : A) (e : exn) :
  Forall (fun q => exists d, f q = Ok d) pre ->
  f x = Raise e ->
  mapM f (pre ++ x :: post) = Raise e.
Proof.
  intros Hpre Hx. induction Hpre as [|q pre [d Hd] _ IH]; cbn.
  - rewrite Hx. reflexivity.
  - rewrite Hd. cbn. rewrite IH. reflexivity.
Qed.

(** A parameter without a guess never yields a dictionary. *)
Lemma nmp_par_needs_guess (par : FitParameter) :
  guess par = None -> exists e, nmp_par par = Raise e.
Proof.
  intros Hg. unfold nmp_par. rewrite Hg.
  match goal with
  | |- context [bind ?c _] => destruct c as [ld|e]
  end; cbn; eauto.
Qed.

(** For a parameter built by the constructor without a guess, the
    exception is [InvalidParameterSpecification]: its scale factor is a
    numpy scalar, so scaling its limit cannot raise. *)
Lemma nmp_par_limit_only (nm : string)
    (lim : option (option number * option number)) (mi : option string)
    (p : FitParameter) :
  Parameter_init nm None lim mi = Ok p ->
  nmp_par p = Raise InvalidParameterSpecification.
Proof.
  intros Hp. destruct (Parameter_init_no_guess _ _ _ _ Hp) as (lo & hi & Hl & Hg & Hs).
  unfold nmp_par. rewrite Hl, Hg. unfold scale, np_array. rewrite Hs.
  destruct lo, hi; reflexivity.
Qed.

(** The dictionary of a parameter can be built when it has a guess, a
    nonzero scale factor, and a limit that is absent or has both sides. *)
Lemma nmp_par_builds (par : FitParameter) (g : number) :
  guess par = Some g ->
  is_zero (float_of (scale_factor par)) = false ->
  limit par = None \/ (exists lo hi, limit par = Some (Some lo, Some hi)) ->
  exists d, nmp_par par = Ok d.
Proof.
  intros Hg Hz Hl.
  assert (T : forall a, exists r, truediv a (scale_factor par) = Ok r).
  { intros a. unfold truediv.
    destruct a as [x|x], (scale_factor par) as [y|y]; cbn in Hz |- *;
      try rewrite Hz; eauto. }
  unfold nmp_par. rewrite Hg. destruct (T g) as [rg Hrg].
  destruct Hl as [-> | (lo & hi & ->)].
  - cbn. rewrite Hrg. cbn. eauto.
  - destruct (T lo) as [r0 H0], (T hi) as [r1 H1].
    cbn. rewrite H0, H1, Hrg. cbn. eauto.
Qed.

Section MinimizeFacts.

Variables (Residual Selection : Type).
Variable mpfit : (list float -> Z * Residual) -> list parinfo -> mpfit_result.
Variable cost_func : list float -> option Selection -> Residual.
Variable selection : option Selection.

(** When every dictionary can be built, the solver is called on them and
    its result is returned with [converged = status < 4]. *)
Lemma minimize_returns (parameters : list FitParameter) (infos : list parinfo) :
  parameters <> [] ->
  mapM nmp_par parameters = Ok infos ->
  let fitresult := mpfit (resid_wrapper cost_func selection) infos in
  minimize mpfit Minimizer_default parameters cost_func selection
  = Ok (Some (params fitresult, (status fitresult <? 4)%Z, fitresult)).
Proof.
  intros Hne Hm. unfold minimize. cbn [algorithm Minimizer_default].
  change (String.eqb "nmpfit" "nmpfit") with true. cbv iota.
  rewrite Hm. cbn. destruct parameters; [congruence | reflexivity].
Qed.


(** C5 (as amended): [minimize] raises [InvalidParameterSpecification]
    when some parameter was built without a guess and the dictionaries
    of the parameters before it can be built; a single parameter built
    from a limit alone is enough; and when any parameter lacks a guess
    [minimize] raises in every case, without a call of the solver. *)
Theorem minimize_requires_guess :
  (forall pre p post nm lim mi,
     Parameter_init nm None lim mi = Ok p ->
     Forall (fun q => exists d, nmp_par q = Ok d) pre ->
     minimize mpfit Minimizer_default (pre ++ p :: post) cost_func selection
     = Raise InvalidParameterSpecification) /\
  (forall p nm lim mi,
     Parameter_init nm None lim mi = Ok p ->
     minimize mpfit Minimizer_default [p] cost_func selection = Raise InvalidParameterSpecification) /\
  (forall parameters p,
     In p parameters -> guess p = None ->
     exists e, minimize mpfit Minimizer_default parameters cost_func selection = Raise e).
Proof.
  assert (G : forall pre p post nm lim mi,
     Parameter_init nm None lim mi = Ok p ->
     Forall (fun q => exists d, nmp_par q = Ok d) pre ->
     minimize mpfit Minimizer_default (pre ++ p :: post) cost_func selection
     = Raise InvalidParameterSpecification).
  { intros pre p post nm lim mi Hp Hpre. unfold minimize.
    cbn [algorithm Minimizer_default].
    change (String.eqb "nmpfit" "nmpfit") with true. cbv iota.
    rewrite (mapM_first_raise nmp_par pre post p _ Hpre (nmp_par_limit_only _ _ _ _ Hp)).
    reflexivity. }
  split; [exact G|]. split.
  - intros p nm lim mi Hp. apply (G [] p [] nm lim mi Hp). constructor.
  - intros parameters p Hin Hg. unfold minimize.
    cbn [algorithm Minimizer_default].
    change (String.eqb "nmpfit" "nmpfit") with true. cbv iota.
    apply in_split in Hin. destruct Hin as (l1 & l2 & ->).
    rewrite mapM_app. destruct (mapM nmp_par l1) as [a|e]; cbn; [|eauto].
    destruct (nmp_par_needs_guess p Hg) as [e He]. rewrite He. cbn. eauto.
Qed.

End MinimizeFacts.

Lemma par_r_init : Parameter_init "r" (Some (PyFloat 0.5e-6)) None None = Ok par_r.
Proof. reflexivity. Qed.


Lemma minimize_requires_guess_witness :
  exists p0 p1,
    Parameter_init "r" (Some (PyFloat 0.5e-6)) None None = Ok p0 /\
    Parameter_init "z" None (Some (Some (PyFloat 1), Some (PyFloat 2))) None = Ok p1 /\
    minimize (mpfit_stub 1) Minimizer_default [p0; p1] cost_stub None
    = Raise InvalidParameterSpecification /\
    minimize (mpfit_stub 1) Minimizer_default [p1] cost_stub None
    = Raise InvalidParameterSpecification.
Proof.
  do 2 eexists. split; [reflexivity|]. split; [reflexivity|].
  destruct (minimize_requires_guess _ _ (mpfit_stub 1) cost_stub None)
    as (G & S & _).
  split.
  - apply (G [_] _ [] "z"%string (Some (Some (PyFloat 1), Some (PyFloat 2))) None).
    + reflexivity.
    + constructor; [|constructor]. eexists. vm_compute. reflexivity.
  - apply (S _ "z"%string (Some (Some (PyFloat 1), Some (PyFloat 2))) None).
    reflexivity.
Defined.

(** C5 as stated fails: a parameter with guess 0 placed before the one
    without a guess makes [minimize] raise [ZeroDivisionError], and one
    whose limit has an absent side makes it raise [TypeError]. *)
Lemma minimize_other_exception_first :
  exists p0 p1 p2,
    Parameter_init "a" (Some (PyFloat 0)) None None = Ok p0 /\
    Parameter_init "b" None (Some (Some (PyFloat 1), Some (PyFloat 2))) None = Ok p1 /\
    Parameter_init "c" (Some (PyFloat 1)) (Some (None, Some (PyFloat 5))) None = Ok p2 /\
    guess p1 = None /\
    minimize (mpfit_stub 1) Minimizer_default [p0; p1] cost_stub None
    = Raise ZeroDivisionError /\
    minimize (mpfit_stub 1) Minimizer_default [p2; p1] cost_stub None
    = Raise TypeError.
Proof.
  do 3 eexists. repeat (split; [reflexivity|]). split; reflexivity.
Qed.

(** C8, the inputs on which the code departs from it: a parameter with
    a guess and a limit whose lower side is absent, as in
    [Parameter(name='r', guess=1.0, limit=(None, 5.0))].  The flags are
    computed as [par.scale(l) is not None], and [par.scale(None)] is
    [None / scale_factor]: [minimize] raises [TypeError] where the claim
    asks for the flags [[False, True]]. *)
Theorem minimize_absent_limit_side :
  (exists p,
     Parameter_init "r" (Some (PyFloat 1)) (Some (None, Some (PyFloat 5))) None = Ok p /\
     scale p (side_value None) = Raise TypeError /\
     nmp_par p = Raise TypeError /\
     minimize (mpfit_stub 1) Minimizer_default [p] cost_stub None = Raise TypeError) /\
  (forall (nm : string) (g : number) (hi : option number) (mi : option string),
     exists p,
       Parameter_init nm (Some g) (Some (None, hi)) mi = Ok p /\
       forall (Residual Selection : Type)
              (mpfit : (list float -> Z * Residual) -> list parinfo -> mpfit_result)
              (cost_func : list float -> option Selection -> Residual)
              (selection : option Selection),
         minimize mpfit Minimizer_default [p] cost_func selection = Raise TypeError).
Proof.
  split.
  - eexists. repeat split; reflexivity.
  - intros nm g hi mi. eexists. split; [reflexivity|]. intros. reflexivity.
Qed.

(** A flag is never [False] when a limit is given: once [par.scale(l)]
    has returned, its result is not [None]. *)
Lemma nmp_par_flags (par : FitParameter) (l0 l1 : option number) (d : parinfo) :
  limit par = Some (l0, l1) ->
  nmp_par par = Ok d ->
  limited d = [true; true] /\ exists a b, l0 = Some a /\ l1 = Some b.
Proof.
  intros Hl. unfold nmp_par. rewrite Hl.
  destruct l0 as [a|]; [|discriminate].
  destruct l1 as [b|]; [cbn | cbn; destruct (truediv a (scale_factor par)); discriminate].
  unfold bind. intros H.
  repeat match goal with
         | E : Ok _ = Ok _ |- _ => injection E as <-
         | E : Raise _ = Ok _ |- _ => discriminate E
         | E : context [match ?x with _ => _ end] |- _ => destruct x eqn:?
         end;
    cbn; eauto.
Qed.

(** What the loop does build.  With both sides of the limit present both
    flags are [True] and the limits are the scaled bounds; with no limit
    both flags are [False] and no limits are set; the start value is the
    scaled guess. *)
Lemma nmp_par_with_limit (par : FitParameter) (g lo hi : number) (v : value) :
  guess par = Some g ->
  limit par = Some (Some lo, Some hi) ->
  (exists r0 r1, scale par (VNum lo) = Ok r0 /\ scale par (VNum hi) = Ok r1) ->
  scale par (VNum g) = Ok v ->
  nmp_par par
  = Ok (mkParinfo (name par) [true; true]
          (Some (VArray [(float_of lo / float_of (scale_factor par))%float;
                         (float_of hi / float_of (scale_factor par))%float]))
          v).
Proof.
  intros Hg Hl (r0 & r1 & H0 & H1) Hv. unfold nmp_par. rewrite Hg, Hl, Hv.
  cbn [mapM side_value]. rewrite H0, H1.
  assert (N0 : is_none r0 = false)
    by (cbn in H0; destruct (truediv lo (scale_factor par)); cbn in H0;
        [injection H0 as <-; reflexivity | discriminate]).
  assert (N1 : is_none r1 = false)
    by (cbn in H1; destruct (truediv hi (scale_factor par)); cbn in H1;
        [injection H1 as <-; reflexivity | discriminate]).
  cbn. rewrite N0, N1. reflexivity.
Qed.

Lemma nmp_par_without_limit (par : FitParameter) (g : number) (v : value) :
  guess par = Some g ->
  limit par = None ->
  scale par (VNum g) = Ok v ->
  nmp_par par = Ok (mkParinfo (name par) [false; false] None v).
Proof.
  intros Hg Hl Hv. unfold nmp_par. rewrite Hg, Hl, Hv. reflexivity.
Qed.

(* ================================================================== *)
(** * Scatterer.in_domain                                             *)
(* ================================================================== *)

Lemma in_domain_loop (inds : list (list bool)) (i : nat) (domains : list Z) :
  fold_left (fun acc (i_ind : nat * list bool) =>
               domains <- acc ;;
               assign_where domains (snd i_ind) (Z.of_nat (fst i_ind) + 1))
            (rev (combine (seq i (List.length inds)) inds))
            (Ok domains)
  = paint i inds domains.
Proof.
  revert i. induction inds as [|ind rest IH]; intros i; cbn.
  - reflexivity.
  - rewrite fold_left_app. cbn. rewrite IH. reflexivity.
Qed.


Lemma zip_with_length {A B C : Type} (f : A -> B -> C) (xs : list A) (ys : list B) :
  List.length xs = List.length ys ->
  List.length (zip_with f xs ys) = List.length xs.
Proof.
  revert ys. induction xs as [|x xs IH]; intros [|y ys] H; cbn in *;
    try discriminate; try reflexivity.
  f_equal. apply IH. lia.
Qed.








(* ================================================================== *)
(** * Scatterer.index_at                                              *)
(* ================================================================== *)

Lemma finite_cases (x : float) :
  is_finite x = true ->
  (exists b, Prim2SF x = S754_zero b) \/ (exists s m e, Prim2SF x = S754_finite s m e).
Proof.
  intros Hf. destruct (is_zero x) eqn:Hz.
  - left. apply is_zero_spec. exact Hz.
  - right. apply finite_nonzero_spec; assumption.
Qed.

Lemma eqb_zero_zero (x y : float) (b c : bool) :
  Prim2SF x = S754_zero b -> Prim2SF y = S754_zero c -> (x =? y)%float = true.
Proof. intros Hx Hy. rewrite eqb_spec, Hx, Hy. reflexivity. Qed.

(** [0 * b] is a zero when [b] is finite. *)
Lemma zero_mul_finite (b : float) :
  is_finite b = true -> exists c, Prim2SF (zero * b) = S754_zero c.
Proof.
  intros Hf. rewrite mul_spec. change (Prim2SF zero) with (S754_zero false).
  destruct (finite_cases b Hf) as [[s E] | (s & m & e & E)]; rewrite E; cbn; eauto.
Qed.

(** Subtracting or adding a zero leaves a finite number equal to itself
    (a zero may change its sign). *)
Lemma sub_zero_eqb (a z : float) (c : bool) :
  is_finite a = true -> Prim2SF z = S754_zero c -> (a - z =? a)%float = true.
Proof.
  intros Hf Hz. destruct (finite_cases a Hf) as [[s E] | (s & m & e & E)].
  - apply (eqb_zero_zero _ _ (if s then if c then false else true else false) s);
      [|exact E].
    rewrite sub_spec, E, Hz. destruct s, c; reflexivity.
  - assert (Ea : (a - z)%float = a).
    { apply Prim2SF_inj. rewrite sub_spec, E, Hz. reflexivity. }
    rewrite Ea. apply eqb_refl_finite. exact Hf.
Qed.

Lemma add_zero_eqb (a z : float) (c : bool) :
  is_finite a = true -> Prim2SF z = S754_zero c -> (a + z =? a)%float = true.
Proof.
  intros Hf Hz. destruct (finite_cases a Hf) as [[s E] | (s & m & e & E)].
  - apply (eqb_zero_zero _ _ (if s then if c then true else false else false) s);
      [|exact E].
    rewrite add_spec, E, Hz. destruct s, c; reflexivity.
  - assert (Ea : (a + z)%float = a).
    { apply Prim2SF_inj. rewrite add_spec, E, Hz. reflexivity. }
    rewrite Ea. apply eqb_refl_finite. exact Hf.
Qed.

(** [(1 + 0j) * (a + bj)] compares equal to [a + bj] when both parts are
    finite. *)
Lemma cmul_one_l (a b : float) :
  is_finite a = true -> is_finite b = true ->
  (fst (cmul (one, zero) (a, b)) =? a)%float = true /\
  (snd (cmul (one, zero) (a, b)) =? b)%float = true.
Proof.
  intros Ha Hb. unfold cmul. cbn [fst snd]. rewrite !float_mul_1_l.
  destruct (zero_mul_finite b Hb) as [c Hc].
  destruct (zero_mul_finite a Ha) as [c' Hc'].
  split.
  - apply (sub_zero_eqb a _ c Ha Hc).
  - apply (add_zero_eqb b _ c' Hb Hc').
Qed.

Lemma cast_like_same_kind (a b : ndarray) (v : scalar) :
  same_kind a b -> cast_like a v = cast_like b v.
Proof. destruct a, b; cbn; intros H; try reflexivity; contradiction. Qed.

Lemma zip_with_nth_error {A B C : Type} (f : A -> B -> C) (xs : list A)
    (ys : list B) (k : nat) :
  List.length xs = List.length ys ->
  nth_error (zip_with f xs ys) k
  = match nth_error xs k, nth_error ys k with
    | Some x, Some y => Some (f x y)
    | _, _ => None
    end.
Proof.
  revert ys k. induction xs as [|x xs IH]; intros [|y ys] [|k] H; cbn in *;
    try discriminate; try reflexivity.
  apply IH. lia.
Qed.

Lemma np_setmask_spec (a : ndarray) (mask : list bool) (v : scalar) :
  arr_len a = List.length mask ->
  same_kind (np_setmask a mask v) a /\
  arr_len (np_setmask a mask v) = arr_len a /\
  forall k m, nth_error mask k = Some m ->
    arr_get (np_setmask a mask v) k
    = if m then Some (cast_like a v) else arr_get a k.
Proof.
  intros Hlen. destruct a as [xs | xs]; cbn in *.
  - split; [exact I|]. split; [apply zip_with_length; exact Hlen|].
    intros k m Hm. rewrite zip_with_nth_error, Hm by exact Hlen.
    destruct (nth_error xs k) eqn:E.
    + destruct m; reflexivity.
    + apply nth_error_None in E. assert (k < List.length mask)%nat
        by (apply nth_error_Some; congruence). lia.
  - split; [exact I|]. split; [apply zip_with_length; exact Hlen|].
    intros k m Hm. rewrite zip_with_nth_error, Hm by exact Hlen.
    destruct (nth_error xs k) as [[re im]|] eqn:E.
    + destruct m; cbn; try reflexivity; destruct v; reflexivity.
    + apply nth_error_None in E. assert (k < List.length mask)%nat
        by (apply nth_error_Some; congruence). lia.
Qed.

Lemma index_of_domain_cons (i0 : nat) (x : scalar) (items : list scalar) (d : Z) :
  index_of_domain i0 (x :: items) d
  = if (d =? Z.of_nat i0 + 1)%Z then Some x else index_of_domain (S i0) items d.
Proof.
  unfold index_of_domain.
  destruct (Z.eqb_spec d (Z.of_nat i0 + 1)) as [-> | Hne].
  - replace (Z.of_nat i0 + 1 <=? Z.of_nat i0 + 1)%Z with true
      by (symmetry; apply Z.leb_le; lia).
    replace (Z.to_nat (Z.of_nat i0 + 1 - Z.of_nat i0 - 1)) with 0%nat by lia.
    reflexivity.
  - destruct (Z.leb_spec (Z.of_nat (S i0) + 1) d) as [H1 | H1].
    + replace (Z.of_nat i0 + 1 <=? d)%Z with true
        by (symmetry; apply Z.leb_le; lia).
      replace (Z.to_nat (d - Z.of_nat i0 - 1))
        with (S (Z.to_nat (d - Z.of_nat (S i0) - 1))) by lia.
      reflexivity.
    + replace (Z.of_nat i0 + 1 <=? d)%Z with false
        by (symmetry; apply Z.leb_gt; lia).
      reflexivity.
Qed.

Lemma index_of_domain_below (i0 : nat) (items : list scalar) (d : Z) :
  (d <= Z.of_nat i0)%Z -> index_of_domain i0 items d = None.
Proof.
  intros H. unfold index_of_domain.
  replace (Z.of_nat i0 + 1 <=? d)%Z with false by (symmetry; apply Z.leb_gt; lia).
  reflexivity.
Qed.

Lemma index_at_loop (domains : list Z) (items : list scalar) :
  forall (i0 : nat) (index : ndarray),
    arr_len index = List.length domains ->
    let final :=
      fold_left (fun index (i_n : nat * scalar) =>
                   np_setmask index
                     (map (fun d => (d =? Z.of_nat (fst i_n) + 1)%Z) domains)
                     (snd i_n))
                (combine (seq i0 (List.length items)) items) index in
    same_kind final index /\
    arr_len final = List.length domains /\
    forall k d, nth_error domains k = Some d ->
      arr_get final k = match index_of_domain i0 items d with
                        | Some v => Some (cast_like index v)
                        | None => arr_get index k
                        end.
Proof.
  induction items as [|x items IH]; intros i0 index Hlen; cbn.
  - split; [destruct index; exact I|]. split; [exact Hlen|].
    intros k d Hd. unfold index_of_domain.
    destruct (Z.of_nat i0 + 1 <=? d)%Z; [|reflexivity].
    destruct (Z.to_nat (d - Z.of_nat i0 - 1)); reflexivity.
  - set (mask := map (fun d => (d =? Z.of_nat i0 + 1)%Z) domains).
    assert (Hm : arr_len index = List.length mask)
      by (unfold mask; rewrite length_map; exact Hlen).
    destruct (np_setmask_spec index mask x Hm) as (K & L & G).
    destruct (IH (S i0) (np_setmask index mask x)) as (K' & L' & G');
      [rewrite L; exact Hlen|].
    split; [|split].
    + destruct index; cbn in *; exact K'.
    + exact L'.
    + intros k d Hd. rewrite (G' k d Hd).
      assert (Hmk : nth_error mask k = Some (d =? Z.of_nat i0 + 1)%Z)
        by (unfold mask; rewrite nth_error_map, Hd; reflexivity).
      rewrite (G k _ Hmk), index_of_domain_cons.
      destruct (Z.eqb_spec d (Z.of_nat i0 + 1)) as [-> | Hne].
      * rewrite index_of_domain_below by lia. reflexivity.
      * destruct (index_of_domain (S i0) items d); [|reflexivity].
        rewrite (cast_like_same_kind _ index _ K). reflexivity.
Qed.

Lemma arr_get_items (a : ndarray) (i : nat) :
  arr_get a i = nth_error (arr_items a) i.
Proof. destruct a; cbn; rewrite nth_error_map; reflexivity. Qed.

Lemma background_array (len : nat) (dt : dtype) (background : scalar) :
  let index := np_mul_scalar (np_ones_like len dt) background in
  arr_len index = len /\
  (forall k, (k < len)%nat ->
     arr_get index k = Some (background_element dt background)) /\
  (forall xs, index = FArr xs -> dt = Float64 /\ exists b, background = Real b).
Proof.
  destruct dt, background as [b | re im]; cbn.
  all: rewrite length_map, repeat_length.
  all: split; [reflexivity|]; split;
    [ intros k Hk; rewrite nth_error_map, nth_error_repeat by exact Hk; reflexivity
    | intros xs H; try discriminate; eauto ].
Qed.

Lemma background_element_eqb (dt : dtype) (background : scalar) :
  scalar_finite background = true ->
  scalar_eqb (background_element dt background) background = true.
Proof.
  unfold scalar_finite, scalar_eqb. intros H.
  apply andb_prop in H. destruct H as [Hre Him].
  destruct (cmul_one_l _ _ Hre Him) as [C1 C2].
  destruct dt, background as [b | re im]; cbn [background_element to_complex fst snd] in *.
  2-4: rewrite C1, C2; reflexivity.
  rewrite float_mul_1_l, (eqb_refl_finite b Hre). reflexivity.
Qed.

(** C7: at a point that [in_domain] puts into domain [i + 1],
    [index_at] returns the refractive index [n[i]] (in the dtype of the
    result, which drops a zero imaginary part or adds one); at a point in
    domain 0 it returns a value equal to [background], a finite
    number, and [background] itself when it and all of [n] are real. *)
Theorem index_at_by_domain (self : Scatterer) (points : points_arg)
    (background : scalar) (domains : list Z) :
  in_domain self points = Ok domains ->
  exists index,
    index_at self points background = Ok index /\
    arr_len index = List.length domains /\
    forall k d, nth_error domains k = Some d ->
      (forall i v, d = (Z.of_nat i + 1)%Z -> arr_get (n self) i = Some v ->
         exists r, arr_get index k = Some r /\ stored_as r v) /\
      (d = 0%Z -> scalar_finite background = true ->
         exists r, arr_get index k = Some r /\ scalar_eqb r background = true) /\
      (d = 0%Z -> forall b, background = Real b ->
         existsb iscomplex (arr_items (n self)) = false ->
         arr_get index k = Some (Real b)).
Proof.
  intros Hd. unfold index_at. rewrite Hd. cbn [bind].
  set (dt := if existsb iscomplex (arr_items (n self) ++ [background])
             then Complex128 else Float64).
  set (index0 := np_mul_scalar (np_ones_like (List.length domains) dt) background).
  destruct (background_array (List.length domains) dt background) as (L0 & B0 & F0).
  fold index0 in L0, B0, F0.
  destruct (index_at_loop domains (arr_items (n self)) 0 index0 L0) as (K & L & G).
  eexists. split; [reflexivity|]. unfold enumerate. split; [exact L|].
  intros k d Hk. specialize (G k d Hk). split; [|split].
  - intros i v -> Hv. rewrite arr_get_items in Hv.
    unfold index_of_domain in G.
    replace (Z.of_nat 0 + 1 <=? Z.of_nat i + 1)%Z with true in G
      by (symmetry; apply Z.leb_le; lia).
    replace (Z.to_nat (Z.of_nat i + 1 - Z.of_nat 0 - 1)) with i in G by lia.
    rewrite Hv in G. eexists. split; [exact G|].
    unfold stored_as. destruct index0 as [xs | xs] eqn:E; cbn [cast_like].
    + destruct (F0 xs eq_refl) as (Hdt & b & Hb).
      assert (Hc : iscomplex v = false).
      { unfold dt in Hdt.
        destruct (existsb iscomplex (arr_items (n self) ++ [background])) eqn:Ex;
          [discriminate|].
        destruct (iscomplex v) eqn:Hv'; [|reflexivity].
        assert (existsb iscomplex (arr_items (n self) ++ [background]) = true).
        { apply existsb_exists. exists v. split; [|exact Hv'].
          apply in_or_app. left. apply (nth_error_In _ _ Hv). }
        congruence. }
      destruct v as [x | re im]; cbn in *.
      * auto.
      * split; [reflexivity|]. right. split; [reflexivity|].
        apply negb_false_iff in Hc. exact Hc.
    + destruct v; cbn; auto.
  - intros -> Hfin. rewrite index_of_domain_below in G by lia.
    assert (Hlt : (k < List.length domains)%nat)
      by (apply nth_error_Some; congruence).
    rewrite (B0 k Hlt) in G. eexists. split; [exact G|].
    apply background_element_eqb. exact Hfin.
  - intros -> b -> Hreal. rewrite index_of_domain_below in G by lia.
    assert (Hlt : (k < List.length domains)%nat)
      by (apply nth_error_Some; congruence).
    rewrite (B0 k Hlt) in G. rewrite G. unfold dt.
    rewrite existsb_app, Hreal. cbn. rewrite float_mul_1_l. reflexivity.
Qed.

Lemma index_at_by_domain_witness :
  index_at layered_sphere probe_points (Real 1)
  = Ok (FArr [1.59; 1.33; 1; 1.59]%float) /\
  index_at absorbing_sphere probe_points (Real 1)
  = Ok (CArr [(1.59, 0); (1.33, 0.01); (1, 0); (1.59, 0)]%float) /\
  exists index,
    index_at layered_sphere probe_points (Real 1) = Ok index /\
    (exists r, arr_get index 1 = Some r /\ stored_as r (Real 1.33)) /\
    (exists r, arr_get index 2 = Some r /\ scalar_eqb r (Real 1) = true).
Proof.
  split; [vm_compute; reflexivity|]. split; [vm_compute; reflexivity|].
  destruct (index_at_by_domain layered_sphere probe_points (Real 1) [1; 2; 0; 1]%Z)
    as (index & Hi & _ & Hk); [vm_compute; reflexivity|].
  exists index. split; [exact Hi|]. split.
  - apply (proj1 (Hk 1%nat 2%Z eq_refl) 1%nat (Real 1.33)); reflexivity.
  - apply (proj1 (proj2 (Hk 2%nat 0%Z eq_refl))); reflexivity.
Defined.

(* ================================================================== *)
(** * Scatterer.translated                                            *)
(* ================================================================== *)

(** Three scalars, or one vector of three entries: the new center is the
    old one plus the offset, entry by entry; the scatterer is otherwise
    unchanged. *)
Lemma translated_three_scalars (self : Scatterer) (c0 c1 c2 x y z : float) :
  center self = [c0; c1; c2] ->
  translated self (CScalar x) (CScalar y) (CScalar z)
  = Ok (mkScatterer (indicators self) (n self) [c0 + x; c1 + y; c2 + z]%float).
Proof. intros H. unfold translated. cbn. rewrite H. reflexivity. Qed.

Lemma translated_vector (self : Scatterer) (c0 c1 c2 x y z : float) :
  center self = [c0; c1; c2] ->
  translated self (CVector [x; y; z]) CNone CNone
  = Ok (mkScatterer (indicators self) (n self) [c0 + x; c1 + y; c2 + z]%float).
Proof. intros H. unfold translated. cbn. rewrite H. reflexivity. Qed.

(** The two shapes the guards do refuse. *)
Lemma translated_two_scalars (self : Scatterer) (c1 : coord) (y : float) :
  translated self c1 (CScalar y) CNone = Raise InvalidScatterer.
Proof. reflexivity. Qed.

Lemma translated_empty_vector (self : Scatterer) (coord3 : coord) :
  translated self (CVector []) CNone coord3 = Raise InvalidScatterer.
Proof. reflexivity. Qed.

(** The guard of the first branch is [len(ensure_array(coord1)==3)], the
    length of the comparison, not a comparison of the length: every
    nonempty first argument passes it when [coord2] is absent, and
    [coord3] is not looked at. *)
Lemma translated_first_branch (self : Scatterer) (coord1 coord3 : coord)
    (arr : list float) :
  ensure_array coord1 = Some arr -> arr <> [] ->
  translated self coord1 CNone coord3
  = (new_center <- np_add (center self) arr ;;
     Ok (mkScatterer (indicators self) (n self) new_center)).
Proof.
  intros H Hne. unfold translated, len_eq3. rewrite H. cbn [bind coord_is_none].
  rewrite length_map. destruct arr as [|a arr]; [congruence|]. reflexivity.
Qed.

(** C6, the inputs on which the code departs from it.  A single scalar
    is neither a 3-vector nor three scalars, and so are a vector of two
    entries and a first and a third scalar without the second; the claim
    asks for [InvalidScatterer] on each.  The code moves the scatterer by
    the scalar along all three axes in the first and the last case, and
    fails in numpy's broadcasting ([ValueError]) in the second. *)
Theorem translated_accepts_lone_scalar :
  translated layered_sphere (CScalar 5) CNone CNone
  = Ok (mkScatterer (indicators layered_sphere) (n layered_sphere) [15; 5; 5]%float) /\
  translated layered_sphere (CVector [1; 2]%float) CNone CNone = Raise ValueError /\
  translated layered_sphere (CScalar 1) CNone (CScalar 3)
  = Ok (mkScatterer (indicators layered_sphere) (n layered_sphere) [11; 1; 1]%float) /\
  (forall (inds : Indicators) (n0 : ndarray) (c0 c1 c2 x : float) (coord3 : coord),
     translated (mkScatterer inds n0 [c0; c1; c2]) (CScalar x) CNone coord3
     = Ok (mkScatterer inds n0 [c0 + x; c1 + x; c2 + x]%float)) /\
  (forall (inds : Indicators) (n0 : ndarray) (c0 c1 c2 x y : float) (coord3 : coord),
     translated (mkScatterer inds n0 [c0; c1; c2]) (CVector [x; y]) CNone coord3
     = Raise ValueError).
Proof.
  repeat split; try (vm_compute; reflexivity); intros; reflexivity.
Qed.

(** Translating by (1, 2, 3) and then by (-1, -2, -3), for the center
    (10, 0, 0).  The sums are binary64 sums, so for other centers the
    round trip holds up to rounding. *)
Lemma translated_there_and_back :
  (s1 <- translated layered_sphere (CScalar 1) (CScalar 2) (CScalar 3) ;;
   translated s1 (CScalar (-1)) (CScalar (-2)) (CScalar (-3)))
  = Ok layered_sphere.
Proof. vm_compute. reflexivity. Qed.

(* ================================================================== *)
(** * find_bounds                                                     *)
(* ================================================================== *)

Lemma on_axis_nth (i : nat) (t : float) :
  (i < 3)%nat -> nth i (on_axis i t) zero = t.
Proof. intros H. destruct i as [|[|[|i]]]; cbn; try reflexivity; lia. Qed.

Lemma on_axis_set (i : nat) (t u : float) :
  (i < 3)%nat -> list_set i u (on_axis i t) = on_axis i u.
Proof. intros H. destruct i as [|[|[|i]]]; try reflexivity; lia. Qed.

(** A loop that multiplies or divides coordinate [i] of a point on axis
    [i] is a loop on the offset alone. *)
Lemma while_on_axis (i : nat) (indicator : list float -> bool)
    (step : float -> float) (fuel : nat) (t : float) :
  (i < 3)%nat ->
  while_loop fuel indicator
    (fun point => list_set i (step (nth i point zero)) point) (on_axis i t)
  = option_map (on_axis i)
      (while_loop fuel (fun t => indicator (on_axis i t)) step t).
Proof.
  intros Hi. revert t. induction fuel as [|fuel IH]; intros t; cbn; [reflexivity|].
  destruct (indicator (on_axis i t)); [|reflexivity].
  rewrite on_axis_nth, on_axis_set by exact Hi. apply IH.
Qed.

Lemma while_grow (fuel : nat) (factor : float) (inside : float -> bool) (t : float) :
  while_loop fuel inside (fun t => (t * factor)%float) t = grow fuel factor inside t.
Proof.
  revert t. induction fuel as [|fuel IH]; intros t; cbn; [reflexivity|].
  destruct (inside t); [apply IH | reflexivity].
Qed.

(** The counted loop: with [steps] iterations left before [iter]
    reaches 10 it stops within [steps + 1] tests, at the offset that
    [shrink steps] computes. *)
Lemma while_shrink (i : nat) (indicator : list float -> bool) (steps : nat) :
  (i < 3)%nat ->
  forall (fuel : nat) (t : float) (iter : Z),
    (steps < fuel)%nat -> (iter = 10 - Z.of_nat steps)%Z ->
    exists iter',
      while_loop fuel
        (fun st : list float * Z => negb (indicator (fst st)) && (snd st <? 10)%Z)
        (fun st => (list_set i (nth i (fst st) zero / 2)%float (fst st),
                    (snd st + 1)%Z))
        (on_axis i t, iter)
      = Some (on_axis i (shrink steps (fun t => indicator (on_axis i t)) t), iter').
Proof.
  intros Hi. induction steps as [|steps IH]; intros fuel t iter Hf Hiter.
  - destruct fuel as [|fuel]; [lia|]. cbn.
    replace (iter <? 10)%Z with false by (symmetry; apply Z.ltb_ge; lia).
    rewrite andb_false_r. eauto.
  - destruct fuel as [|fuel]; [lia|]. cbn.
    destruct (indicator (on_axis i t)); cbn; [eauto|].
    replace (iter <? 10)%Z with true by (symmetry; apply Z.ltb_lt; lia).
    rewrite on_axis_nth, on_axis_set by exact Hi.
    apply IH; lia.
Qed.

(** One pass of the loop body finds what [locate] finds from the seed
    stored in [bounds[i][j]], and stores it there. *)
Lemma find_bounds_step_locate (indicator : list float -> bool) (fuel : nat)
    (bounds : list (list float)) (i j : nat) :
  (i < 3)%nat -> (10 < fuel)%nat ->
  find_bounds_step indicator fuel bounds i j
  = obind (locate fuel 10 (fun t => indicator (on_axis i t))
             (nth j (nth i bounds []) zero))
          (fun t => Some (list_set i (list_set j t (nth i bounds [])) bounds)).
Proof.
  intros Hi Hf. unfold find_bounds_step, locate.
  change (list_set i (nth j (nth i bounds []) zero) (repeat zero 3))
    with (on_axis i (nth j (nth i bounds []) zero)).
  rewrite (while_on_axis i indicator (fun x => (x * 10)%float)) by exact Hi.
  rewrite while_grow.
  destruct (grow fuel 10 _ _) as [t1|]; cbn [option_map obind]; [|reflexivity].
  destruct (while_shrink i indicator 10 Hi fuel t1 0%Z Hf eq_refl) as [iter' ->].
  cbn [obind fst].
  rewrite (while_on_axis i indicator (fun x => (x * 1.1)%float)) by exact Hi.
  rewrite while_grow.
  destruct (grow fuel 1.1 _ _) as [t3|]; cbn [option_map obind]; [|reflexivity].
  rewrite on_axis_nth by exact Hi. reflexivity.
Qed.

(** More fuel does not change a result once there is one: the bounds
    that [find_bounds] returns are those of the Python function whenever
    its loops terminate. *)
Lemma while_loop_more_fuel {St : Type} (fuel fuel' : nat) (cond : St -> bool)
    (body : St -> St) (s r : St) :
  while_loop fuel cond body s = Some r -> (fuel <= fuel')%nat ->
  while_loop fuel' cond body s = Some r.
Proof.
  revert fuel' s. induction fuel as [|fuel IH]; intros fuel' s H Hle; [discriminate|].
  destruct fuel' as [|fuel']; [lia|]. cbn in *.
  destruct (cond s); [|exact H]. apply IH; [exact H | lia].
Qed.

Lemma find_bounds_step_more_fuel (indicator : list float -> bool)
    (fuel fuel' : nat) (bounds r : list (list float)) (i j : nat) :
  find_bounds_step indicator fuel bounds i j = Some r -> (fuel <= fuel')%nat ->
  find_bounds_step indicator fuel' bounds i j = Some r.
Proof.
  unfold find_bounds_step. intros H Hle.
  repeat match type of H with
         | context [while_loop fuel ?c ?b ?s] =>
             let E := fresh "E" in
             destruct (while_loop fuel c b s) eqn:E; cbn [obind] in H;
             [|discriminate H];
             rewrite (while_loop_more_fuel fuel fuel' c b s _ E Hle); cbn [obind]
         end.
  exact H.
Qed.

Lemma find_bounds_more_fuel (indicator : list float -> bool) (fuel fuel' : nat)
    (bounds : list (list float)) :
  (fuel <= fuel')%nat ->
  find_bounds indicator fuel = Some bounds ->
  find_bounds indicator fuel' = Some bounds.
Proof.
  intros Hle. unfold find_bounds. cbn [seq fold_left obind]. intros H.
  repeat match type of H with
         | context [find_bounds_step indicator fuel ?b ?i ?j] =>
             let E := fresh "E" in
             destruct (find_bounds_step indicator fuel b i j) eqn:E;
             cbn [obind] in H; [|discriminate H];
             rewrite (find_bounds_step_more_fuel indicator fuel fuel' b _ i j E Hle);
             cbn [obind]
         end.
  exact H.
Qed.

(** C9 (as amended): [find_bounds] is the search the specification
    describes, along each of the three axes and in both directions from
    the seeds -1e-9 and 1e-9 with the other coordinates at 0, except that
    the first phase multiplies the offset by 10 where the specification
    says it doubles it.  Eleven tests of the condition are enough for the
    counted loop; the other two loops end when the fuel lets them. *)
Theorem find_bounds_as_worded (indicator : list float -> bool) (fuel : nat) :
  (10 < fuel)%nat ->
  find_bounds indicator fuel = find_bounds_in_words 10 indicator fuel.
Proof.
  intros Hf. unfold find_bounds, find_bounds_in_words.
  cbn [seq fold_left obind].
  rewrite find_bounds_step_locate by (lia || exact Hf). cbn [nth].
  destruct (locate fuel 10 (fun t => indicator (on_axis 0 t)) (-1e-9)) as [x0|];
    cbn [obind list_set nth]; [|reflexivity].
  rewrite find_bounds_step_locate by (lia || exact Hf). cbn [nth].
  destruct (locate fuel 10 (fun t => indicator (on_axis 0 t)) 1e-9) as [x1|];
    cbn [obind list_set nth]; [|reflexivity].
  rewrite find_bounds_step_locate by (lia || exact Hf). cbn [nth].
  destruct (locate fuel 10 (fun t => indicator (on_axis 1 t)) (-1e-9)) as [y0|];
    cbn [obind list_set nth]; [|reflexivity].
  rewrite find_bounds_step_locate by (lia || exact Hf). cbn [nth].
  destruct (locate fuel 10 (fun t => indicator (on_axis 1 t)) 1e-9) as [y1|];
    cbn [obind list_set nth]; [|reflexivity].
  rewrite find_bounds_step_locate by (lia || exact Hf). cbn [nth].
  destruct (locate fuel 10 (fun t => indicator (on_axis 2 t)) (-1e-9)) as [z0|];
    cbn [obind list_set nth]; [|reflexivity].
  rewrite find_bounds_step_locate by (lia || exact Hf). cbn [nth].
  destruct (locate fuel 10 (fun t => indicator (on_axis 2 t)) 1e-9) as [z1|];
    cbn [obind list_set nth]; reflexivity.
Qed.

Lemma find_bounds_as_worded_witness :
  (10 < 400)%nat /\
  find_bounds (in_ball 1) 400 = find_bounds_in_words 10 (in_ball 1) 400 /\
  find_bounds (in_ball 1) 400
  = Some [[-1.0717944050000008; 1.0717944050000008];
          [-1.0717944050000008; 1.0717944050000008];
          [-1.0717944050000008; 1.0717944050000008]]%float.
Proof.
  split; [lia|]. split.
  - apply (find_bounds_as_worded (in_ball 1) 400). lia.
  - vm_compute. reflexivity.
Defined.

(** C9 as stated fails: for the unit ball the search that doubles the
    offset ends at 1.0462095267069955 on every axis, the code at
    1.0717944050000008. *)
Lemma find_bounds_does_not_double :
  find_bounds_in_words 2 (in_ball 1) 400
  = Some [[-1.0462095267069955; 1.0462095267069955];
          [-1.0462095267069955; 1.0462095267069955];
          [-1.0462095267069955; 1.0462095267069955]]%float /\
  find_bounds (in_ball 1) 400
  = Some [[-1.0717944050000008; 1.0717944050000008];
          [-1.0717944050000008; 1.0717944050000008];
          [-1.0717944050000008; 1.0717944050000008]]%float /\
  find_bounds (in_ball 1) 400 <> find_bounds_in_words 2 (in_ball 1) 400.
Proof.
  split; [vm_compute; reflexivity|]. split; [vm_compute; reflexivity|].
  intros H.
  pose (first_bound := fun o : option (list (list float)) =>
          match o with
          | Some ((x :: _) :: _) => (x =? -1.0717944050000008)%float
          | _ => false
          end).
  assert (E : first_bound (find_bounds (in_ball 1) 400)
              = first_bound (find_bounds_in_words 2 (in_ball 1) 400))
    by (rewrite H; reflexivity).
  vm_compute in E. discriminate E.
Qed.

(* ================================================================== *)
(** * CenteredScatterer.parameters and from_parameters                *)
(* ================================================================== *)

Lemma centered_123_init :
  Centered.CenteredScatterer_init
    (Centered.PList [Centered.PFloat 1; Centered.PFloat 2; Centered.PFloat 3])
  = Ok centered_123.
Proof. reflexivity. Qed.

(** ** [from_parameters] cannot succeed

    Every flattened key of a [CenteredScatterer] is [center], alone or
    followed by a delimiter: [extract_pars] rebuilds a dictionary with
    the one key [center], and the constructor, given that dictionary as
    its [center], finds one entry where it wants three. *)

Lemma append_assoc (a b c : string) : ((a ++ b) ++ c = a ++ (b ++ c))%string.
Proof. induction a as [|x a IH]; cbn; [reflexivity | rewrite IH; reflexivity]. Qed.

Lemma center_key_extend (key rest : string) (delim : ascii) :
  delim = "."%char \/ delim = "_"%char ->
  center_key key -> center_key (key ++ String delim rest).
Proof.
  intros Hd (tail & -> & Ht). exists (tail ++ String delim rest)%string.
  split; [apply append_assoc|]. right.
  destruct Ht as [-> | (t & [-> | ->])]; cbn; [|eauto..].
  exists rest. destruct Hd as [-> | ->]; auto.
Qed.

Lemma center_key_subkey (key : string) :
  center_key key ->
  Centered.before "_" (Centered.before "." key) = "center"%string.
Proof.
  intros (tail & -> & [-> | (t & [-> | ->])]); reflexivity.
Qed.

Fixpoint expand_obj_keys (par : Centered.pyobj) {struct par} :
  forall key, center_key key ->
    Forall (fun kv => center_key (fst kv)) (Centered.expand_obj key par).
Proof.
  destruct par as [| x | re im | xs | items | g]; intros key Hk; cbn;
    try (constructor; [exact Hk | constructor]).
  - generalize 0%nat. induction xs as [|x xs IH]; intros i.
    + constructor.
    + apply Forall_app. split; [|apply IH].
      apply expand_obj_keys.
      apply (center_key_extend key (Centered.str_nat i) "."); auto.
  - induction items as [|[k v] items IH].
    + constructor.
    + apply Forall_app. split; [|apply IH].
      apply expand_obj_keys.
      apply (center_key_extend key k "_"); auto.
Qed.

Lemma dict_set_keys (P : string -> Prop) (d : Centered.dict) (key : string)
    (v : Centered.pyobj) :
  Forall (fun kv => P (fst kv)) d -> P key ->
  Forall (fun kv => P (fst kv)) (Centered.dict_set d key v).
Proof.
  intros Hd Hk. induction Hd as [|[k w] d Hkw Hd IH]; cbn.
  - constructor; [exact Hk | constructor].
  - destruct (String.eqb k key); constructor; auto.
Qed.

Lemma dict_of_keys (P : string -> Prop) (pairs : list (string * Centered.pyobj)) :
  Forall (fun kv => P (fst kv)) pairs ->
  Forall (fun kv => P (fst kv)) (Centered.dict_of pairs).
Proof.
  unfold Centered.dict_of. intros Hp.
  assert (G : forall (d : Centered.dict),
            Forall (fun kv => P (fst kv)) d ->
            Forall (fun kv => P (fst kv))
              (fold_left (fun d kv => Centered.dict_set d (fst kv) (snd kv)) pairs d)).
  { induction Hp as [|kv pairs Hkv _ IH]; intros d Hd; cbn; [exact Hd|].
    apply IH. apply dict_set_keys; assumption. }
  apply G. constructor.
Qed.

Lemma parameters_keys (self : Centered.CenteredScatterer) :
  Forall (fun kv => center_key (fst kv)) (Centered.parameters self).
Proof.
  unfold Centered.parameters. apply dict_of_keys.
  unfold Centered.expand_parameters, Centered._dict.
  assert (C : center_key "center") by (exists EmptyString; auto).
  destruct (Centered.center self); cbn [flat_map fst snd append];
    [ constructor
    | rewrite app_nil_r; apply (expand_obj_keys _ "center"%string C) .. ].
Qed.

Lemma dedup_constant (c : string) (keys : list string) :
  Forall (fun k => k = c) keys ->
  Centered.dedup keys = [] \/ Centered.dedup keys = [c].
Proof.
  induction 1 as [|k keys -> _ IH]; cbn; [left; reflexivity|].
  right. destruct IH as [-> | ->]; cbn; [reflexivity|].
  rewrite String.eqb_refl. reflexivity.
Qed.

(** From keys that all belong to [center], [extract_pars] builds at most
    the one entry [center]. *)
Lemma extract_pars_fuel_center (fuel : nat) (raw_pars out : Centered.dict) :
  Forall (fun kv => center_key (fst kv)) raw_pars ->
  Centered.extract_pars_fuel fuel raw_pars = Ok out ->
  (List.length out <= 1)%nat.
Proof.
  intros Hk. destruct fuel as [|fuel]; [discriminate|].
  cbn [Centered.extract_pars_fuel].
  assert (Hs : Forall (fun k => k = "center"%string)
                 (map (fun kv => Centered.before "_" (Centered.before "." (fst kv)))
                      raw_pars)).
  { induction Hk as [|kv raw Hkv _ IH]; cbn; constructor; [|exact IH].
    apply center_key_subkey. exact Hkv. }
  destruct (dedup_constant _ _ Hs) as [-> | ->]; cbn [fold_left].
  - intros H. injection H as <-. cbn. lia.
  - unfold Centered.extract_subkey, bind. intros H.
    repeat match goal with
           | E : Ok _ = Ok _ |- _ => injection E as <-
           | E : Raise _ = Ok _ |- _ => discriminate E
           | E : context [match ?x with _ => _ end] |- _ => destruct x eqn:?
           end;
      cbn; lia.
Qed.

(** [from_parameters] raises for every [CenteredScatterer] and every
    dictionary of new values. *)
Lemma from_parameters_never_returns (self : Centered.CenteredScatterer)
    (pars : Centered.dict) :
  exists e, Centered.from_parameters self pars = Raise e.
Proof.
  unfold Centered.from_parameters.
  match goal with
  | |- context [Centered.extract_pars ?d] => set (all_pars := d)
  end.
  assert (Hk : Forall (fun kv => center_key (fst kv)) all_pars).
  { unfold all_pars.
    assert (G : forall keys (d : Centered.dict),
              Forall center_key keys ->
              Forall (fun kv => center_key (fst kv)) d ->
              Forall (fun kv => center_key (fst kv))
                (fold_left (fun (all_pars : Centered.dict) (key : string) =>
                              match Centered.dict_get pars key with
                              | Some v => Centered.dict_set all_pars key v
                              | None => all_pars
                              end) keys d)).
    { induction keys as [|k keys IH]; intros d Hkeys Hd; cbn; [exact Hd|].
      inversion Hkeys; subst. apply IH; [assumption|].
      destruct (Centered.dict_get pars k); [apply dict_set_keys|]; assumption. }
    apply G; [|apply parameters_keys].
    apply Forall_map. apply parameters_keys. }
  destruct (Centered.extract_pars all_pars) as [kwargs|e] eqn:E; cbn; [|eauto].
  apply (extract_pars_fuel_center _ _ _ Hk) in E.
  destruct kwargs as [|kv [|kv' kwargs]]; cbn in *; eauto; lia.
Qed.

(** ** The fuel of [extract_pars] suffices *)

Lemma longest_key_fold (d : Centered.dict) (a : nat) :
  fold_left (fun m kv => Nat.max m (String.length (fst kv))) d a
  = Nat.max a (Centered.longest_key d).
Proof.
  unfold Centered.longest_key. revert a.
  induction d as [|kv d IH]; intros a; cbn; [lia|].
  rewrite IH, (IH (String.length (fst kv))). lia.
Qed.

Lemma longest_key_cons (kv : string * Centered.pyobj) (d : Centered.dict) :
  Centered.longest_key (kv :: d)
  = Nat.max (String.length (fst kv)) (Centered.longest_key d).
Proof. unfold Centered.longest_key at 1. cbn. apply longest_key_fold. Qed.

Lemma longest_key_bound (d : Centered.dict) (m : nat) :
  Forall (fun kv => (String.length (fst kv) <= m)%nat) d ->
  (Centered.longest_key d <= m)%nat.
Proof.
  induction 1 as [|kv d H _ IH]; [cbn; lia|].
  rewrite longest_key_cons. lia.
Qed.

Lemma longest_key_In (d : Centered.dict) (kv : string * Centered.pyobj) :
  In kv d -> (String.length (fst kv) <= Centered.longest_key d)%nat.
Proof.
  induction d as [|kv' d IH]; intros H; [contradiction|].
  rewrite longest_key_cons. destruct H as [-> | H]; [lia|].
  specialize (IH H). lia.
Qed.

Lemma dict_get_None_In (d : Centered.dict) (key : string) (kv : string * Centered.pyobj) :
  Centered.dict_get d key = None -> In kv d -> fst kv <> key.
Proof.
  induction d as [|[k v] d IH]; intros Hg Hin; [contradiction|].
  cbn in Hg. destruct (String.eqb_spec k key) as [-> | Hne]; [discriminate|].
  destruct Hin as [<- | Hin]; [exact Hne | apply IH; assumption].
Qed.

Lemma prefix_length (s k : string) :
  String.prefix s k = true -> k <> s ->
  (String.length s < String.length k)%nat.
Proof.
  revert k. induction s as [|a s IH]; intros [|b k] H Hne; cbn in *;
    try congruence; try lia.
  destruct (Ascii.ascii_dec a b) as [-> | Hab]; [|discriminate].
  assert (k <> s) by congruence.
  specialize (IH k H H0). lia.
Qed.

Lemma drop_length (n : nat) (k : string) :
  String.length (Centered.drop n k) = (String.length k - n)%nat.
Proof.
  revert k. induction n as [|n IH]; intros [|a k]; cbn; try reflexivity.
  apply IH.
Qed.

(** The keys that [clip_items] keeps are shorter than the longest key
    they come from, and there is such a key when a delimiter is found. *)
Lemma clip_items_shorter (subkey : string) (raw_pars : Centered.dict) :
  Centered.dict_get raw_pars subkey = None ->
  let (subset, delimchar) := Centered.clip_items subkey raw_pars in
  delimchar = None \/
  (Centered.longest_key subset < Centered.longest_key raw_pars)%nat.
Proof.
  intros Hg. unfold Centered.clip_items.
  set (M := Centered.longest_key raw_pars).
  assert (G : forall (items : Centered.dict) (acc : Centered.dict * option ascii),
            (forall kv, In kv items -> In kv raw_pars) ->
            (Forall (fun kv => (String.length (fst kv) < M)%nat) (fst acc)) ->
            (snd acc = None \/ (0 < M)%nat) ->
            let r := fold_left
                       (fun (acc : Centered.dict * option ascii)
                            (kv : string * Centered.pyobj) =>
                          if String.prefix subkey (fst kv)
                          then (Centered.dict_set (fst acc)
                                  (Centered.drop (String.length subkey + 1) (fst kv))
                                  (snd kv),
                                String.get (String.length subkey) (fst kv))
                          else acc) items acc in
            Forall (fun kv => (String.length (fst kv) < M)%nat) (fst r) /\
            (snd r = None \/ (0 < M)%nat)).
  { induction items as [|kv items IH]; intros acc Hin Hf Hs; cbn; [auto|].
    apply IH; [intros kv' H; apply Hin; right; exact H | |].
    - destruct (String.prefix subkey (fst kv)) eqn:Hp; [|exact Hf]. cbn [fst].
      assert (Hkv : In kv raw_pars) by (apply Hin; left; reflexivity).
      pose proof (prefix_length _ _ Hp (dict_get_None_In _ _ _ Hg Hkv)) as Hlt.
      pose proof (longest_key_In _ _ Hkv) as Hle. fold M in Hle.
      apply (dict_set_keys (fun k => (String.length k < M)%nat)); [exact Hf|].
      rewrite drop_length. lia.
    - destruct (String.prefix subkey (fst kv)) eqn:Hp; [|exact Hs]. right.
      assert (Hkv : In kv raw_pars) by (apply Hin; left; reflexivity).
      pose proof (prefix_length _ _ Hp (dict_get_None_In _ _ _ Hg Hkv)) as Hlt.
      pose proof (longest_key_In _ _ Hkv) as Hle. fold M in Hle. lia. }
  specialize (G raw_pars ([], None) (fun kv H => H) (Forall_nil _) (or_introl eq_refl)).
  cbn zeta in G.
  match goal with
  | |- context [fold_left ?f raw_pars ?a] =>
      destruct (fold_left f raw_pars a) as [subset delimchar]
  end.
  cbn [fst snd] in G. destruct G as [Hf [Hs | Hs]]; [left; exact Hs|].
  right. destruct subset as [|kv subset]; [exact Hs|].
  assert (Centered.longest_key (kv :: subset) <= M - 1)%nat; [|lia].
  apply longest_key_bound.
  apply (Forall_impl _ (P := fun kv => (String.length (fst kv) < M)%nat)); [|exact Hf].
  intros a Ha. lia.
Qed.

(** The loop body does not depend on what the recursive call does on
    dictionaries whose keys are not shorter than the longest key. *)
Lemma extract_subkey_ext (f g : Centered.dict -> result Centered.dict)
    (raw_pars out_dict : Centered.dict) (subkey : string) :
  (forall subset,
     (Centered.longest_key subset < Centered.longest_key raw_pars)%nat ->
     f subset = g subset) ->
  Centered.extract_subkey f raw_pars out_dict subkey
  = Centered.extract_subkey g raw_pars out_dict subkey.
Proof.
  intros Hfg. unfold Centered.extract_subkey.
  destruct (Centered.dict_get raw_pars subkey) as [val|] eqn:Hg; [reflexivity|].
  pose proof (clip_items_shorter subkey raw_pars Hg) as Hc.
  destruct (Centered.clip_items subkey raw_pars) as [subset delimchar].
  destruct Hc as [-> | Hlt]; [reflexivity|].
  rewrite (Hfg subset Hlt). reflexivity.
Qed.

Lemma fold_left_ext_result {A B : Type} (f g : A -> B -> A) (l : list B) (a : A) :
  (forall x y, f x y = g x y) -> fold_left f l a = fold_left g l a.
Proof.
  intros H. revert a. induction l as [|y l IH]; intros a; cbn; [reflexivity|].
  rewrite H. apply IH.
Qed.

(** One more unit of fuel changes nothing once the fuel exceeds the
    longest key: the bound on the recursion is never reached. *)
Lemma extract_pars_fuel_enough (fuel : nat) :
  forall raw_pars : Centered.dict,
    (Centered.longest_key raw_pars < fuel)%nat ->
    Centered.extract_pars_fuel (S fuel) raw_pars
    = Centered.extract_pars_fuel fuel raw_pars.
Proof.
  induction fuel as [|fuel IH]; intros raw_pars Hlt; [lia|].
  change (Centered.extract_pars_fuel (S (S fuel)) raw_pars)
    with (fold_left
            (fun (acc : result Centered.dict) (subkey : string) =>
               out_dict <- acc ;;
               Centered.extract_subkey (Centered.extract_pars_fuel (S fuel))
                 raw_pars out_dict subkey)
            (Centered.dedup
               (map (fun kv => Centered.before "_" (Centered.before "." (fst kv)))
                    raw_pars))
            (Ok [])).
  change (Centered.extract_pars_fuel (S fuel) raw_pars)
    with (fold_left
            (fun (acc : result Centered.dict) (subkey : string) =>
               out_dict <- acc ;;
               Centered.extract_subkey (Centered.extract_pars_fuel fuel)
                 raw_pars out_dict subkey)
            (Centered.dedup
               (map (fun kv => Centered.before "_" (Centered.before "." (fst kv)))
                    raw_pars))
            (Ok [])).

  apply fold_left_ext_result. intros [out_dict|e] subkey; cbn [bind]; [|reflexivity].
  apply extract_subkey_ext. intros subset Hs. apply IH. lia.
Qed.

(** With any fuel above the longest key [extract_pars_fuel] is
    [extract_pars]. *)
Lemma extract_pars_any_fuel (raw_pars : Centered.dict) (extra : nat) :
  Centered.extract_pars_fuel (S (Centered.longest_key raw_pars) + extra) raw_pars
  = Centered.extract_pars raw_pars.
Proof.
  unfold Centered.extract_pars. induction extra as [|extra IH].
  - rewrite Nat.add_0_r. reflexivity.
  - rewrite Nat.add_succ_r, extract_pars_fuel_enough by lia. exact IH.
Qed.

(** C3, the input on which the code departs from it.  The flattened
    parameters of [CenteredScatterer(center=[1.0, 2.0, 3.0])] are
    [center.0], [center.1], [center.2]; [extract_pars] rebuilds
    [{'center': [1.0, 2.0, 3.0]}] from them; but [from_parameters] hands
    this dictionary to the constructor as the argument [center] itself,
    which has one entry and not three, so that the call raises
    [InvalidScatterer].  Unpacked into keyword arguments the same
    dictionary gives the original scatterer back.  The same happens for
    every [CenteredScatterer]: [from_parameters] never returns one. *)
Theorem from_parameters_positional_dict :
  Centered.parameters centered_123
  = [("center.0"%string, Centered.PFloat 1); ("center.1"%string, Centered.PFloat 2);
     ("center.2"%string, Centered.PFloat 3)] /\
  Centered.extract_pars (Centered.parameters centered_123)
  = Ok [("center"%string,
         Centered.PList [Centered.PFloat 1; Centered.PFloat 2; Centered.PFloat 3])] /\
  Centered.from_parameters centered_123 (Centered.parameters centered_123)
  = Raise InvalidScatterer /\
  (kwargs <- Centered.extract_pars (Centered.parameters centered_123) ;;
   Centered.CenteredScatterer_init_kwargs kwargs) = Ok centered_123 /\
  (forall self pars, exists e, Centered.from_parameters self pars = Raise e).
Proof.
  repeat split; try (vm_compute; reflexivity).
  apply from_parameters_never_returns.
Qed.

(** The positional call fails for every [CenteredScatterer]: the
    dictionary it passes has at most the one key [center]. *)
Lemma from_parameters_no_center :
  Centered.from_parameters (Centered.mkCentered Centered.PNone) []
  = Raise InvalidScatterer.
Proof. vm_compute. reflexivity. Qed.

(** The flattening and [extract_pars] on a dictionary with a complex
    number, a float, a list and a nested dictionary: the values come
    back, a prior as its guess. *)
Lemma extract_pars_example :
  let attributes : Centered.dict :=
    [("n"%string, Centered.PComplex 1.59 0.01);
     ("r"%string, Centered.PFloat 0.5);
     ("center"%string,
      Centered.PList [Centered.PFloat 1; Centered.PFloat 2; Centered.PFloat 3]);
     ("t"%string,
      Centered.PDict [("a"%string, Centered.PFloat 1);
                      ("b"%string, Centered.PList [Centered.PFloat 2;
                                                   Centered.PPrior 3])])] in
  Centered.dict_of (Centered.expand_parameters attributes "")
  = [("n"%string, Centered.PComplex 1.59 0.01);
     ("r"%string, Centered.PFloat 0.5);
     ("center.0"%string, Centered.PFloat 1);
     ("center.1"%string, Centered.PFloat 2);
     ("center.2"%string, Centered.PFloat 3);
     ("t_a"%string, Centered.PFloat 1);
     ("t_b.0"%string, Centered.PFloat 2);
     ("t_b.1"%string, Centered.PPrior 3)] /\
  Centered.extract_pars (Centered.dict_of (Centered.expand_parameters attributes ""))
  = Ok [("n"%string, Centered.PComplex 1.59 0.01);
        ("r"%string, Centered.PFloat 0.5);
        ("center"%string,
         Centered.PList [Centered.PFloat 1; Centered.PFloat 2; Centered.PFloat 3]);
        ("t"%string,
         Centered.PDict [("a"%string, Centered.PFloat 1);
                         ("b"%string, Centered.PList [Centered.PFloat 2;
                                                      Centered.PFloat 3])])].
Proof. split; vm_compute; reflexivity. Qed.

(** The key conventions have their limits, whatever the call: an
    attribute name with an underscore comes back as a nested dictionary,
    an empty list is lost, and a list-valued attribute whose name starts
    another attribute's name cannot be rebuilt. *)
Lemma extract_pars_limits :
  Centered.extract_pars
    (Centered.dict_of (Centered.expand_parameters
                         [("r_in"%string, Centered.PFloat 1)] ""))
  = Ok [("r"%string, Centered.PDict [("in"%string, Centered.PFloat 1)])] /\
  Centered.extract_pars
    (Centered.dict_of (Centered.expand_parameters
                         [("r"%string, Centered.PList [])] ""))
  = Ok [] /\
  Centered.extract_pars
    (Centered.dict_of (Centered.expand_parameters
                         [("n"%string, Centered.PList [Centered.PFloat 1]);
                          ("normal"%string, Centered.PList [Centered.PFloat 2])] ""))
  = Raise InvalidScatterer.
Proof. repeat split; vm_compute; reflexivity. Qed.

(* ================================================================== *)
(** * More on find_bounds                                             *)
(* ================================================================== *)

Lemma grow_ends_outside (fuel : nat) (factor : float) (inside : float -> bool)
    (t r : float) :
  grow fuel factor inside t = Some r -> inside r = false.
Proof.
  revert t. induction fuel as [|fuel IH]; intros t H; cbn in H; [discriminate|].
  destruct (inside t) eqn:E; [exact (IH _ H)|]. injection H as <-. exact E.
Qed.

Lemma locate_ends_outside (fuel : nat) (factor : float) (inside : float -> bool)
    (seed r : float) :
  locate fuel factor inside seed = Some r -> inside r = false.
Proof.
  unfold locate. destruct (grow fuel factor inside seed) as [t|]; cbn [obind];
    [|discriminate].
  apply grow_ends_outside.
Qed.

(** What [find_bounds] returns, axis by axis, when the counted loop has
    the eleven tests it needs. *)
Lemma find_bounds_locate (indicator : list float -> bool) (fuel : nat)
    (bounds : list (list float)) :
  (10 < fuel)%nat ->
  find_bounds indicator fuel = Some bounds ->
  exists x0 x1 y0 y1 z0 z1,
    bounds = [[x0; x1]; [y0; y1]; [z0; z1]] /\
    locate fuel 10 (fun t => indicator (on_axis 0 t)) (-1e-9) = Some x0 /\
    locate fuel 10 (fun t => indicator (on_axis 0 t)) 1e-9 = Some x1 /\
    locate fuel 10 (fun t => indicator (on_axis 1 t)) (-1e-9) = Some y0 /\
    locate fuel 10 (fun t => indicator (on_axis 1 t)) 1e-9 = Some y1 /\
    locate fuel 10 (fun t => indicator (on_axis 2 t)) (-1e-9) = Some z0 /\
    locate fuel 10 (fun t => indicator (on_axis 2 t)) 1e-9 = Some z1.
Proof.
  intros Hf. unfold find_bounds. cbn [seq fold_left obind].
  rewrite find_bounds_step_locate by (lia || exact Hf). cbn [nth].
  destruct (locate fuel 10 (fun t => indicator (on_axis 0 t)) (-1e-9)) as [x0|];
    cbn [obind list_set nth]; [|discriminate].
  rewrite find_bounds_step_locate by (lia || exact Hf). cbn [nth].
  destruct (locate fuel 10 (fun t => indicator (on_axis 0 t)) 1e-9) as [x1|];
    cbn [obind list_set nth]; [|discriminate].
  rewrite find_bounds_step_locate by (lia || exact Hf). cbn [nth].
  destruct (locate fuel 10 (fun t => indicator (on_axis 1 t)) (-1e-9)) as [y0|];
    cbn [obind list_set nth]; [|discriminate].
  rewrite find_bounds_step_locate by (lia || exact Hf). cbn [nth].
  destruct (locate fuel 10 (fun t => indicator (on_axis 1 t)) 1e-9) as [y1|];
    cbn [obind list_set nth]; [|discriminate].
  rewrite find_bounds_step_locate by (lia || exact Hf). cbn [nth].
  destruct (locate fuel 10 (fun t => indicator (on_axis 2 t)) (-1e-9)) as [z0|];
    cbn [obind list_set nth]; [|discriminate].
  rewrite find_bounds_step_locate by (lia || exact Hf). cbn [nth].
  destruct (locate fuel 10 (fun t => indicator (on_axis 2 t)) 1e-9) as [z1|];
    cbn [obind list_set nth]; [|discriminate].
  intros H. injection H as <-. exists x0, x1, y0, y1, z0, z1. auto 10.
Qed.

(** X1: every bound that [find_bounds] returns is an offset at which the
    indicator is false: the last loop of the search only stops at a
    point of the axis that lies outside the domain.  This holds for
    every indicator and however many steps the loops take. *)
Theorem find_bounds_ends_outside (indicator : list float -> bool) (fuel : nat)
    (bounds : list (list float)) :
  find_bounds indicator fuel = Some bounds ->
  forall i j, (i < 3)%nat -> (j < 2)%nat ->
    indicator (on_axis i (nth j (nth i bounds []) zero)) = false.
Proof.
  intros H.
  apply (find_bounds_more_fuel indicator fuel (fuel + 11)) in H; [|lia].
  destruct (find_bounds_locate indicator (fuel + 11) bounds ltac:(lia) H)
    as (x0 & x1 & y0 & y1 & z0 & z1 & -> & H1 & H2 & H3 & H4 & H5 & H6).
  intros i j Hi Hj.
  destruct i as [|[|[|i]]]; [| | |lia]; (destruct j as [|[|j]]; [| |lia]); cbn [nth];
    eapply (locate_ends_outside _ _ (fun t => indicator (on_axis _ t))); eassumption.
Qed.

Lemma find_bounds_ends_outside_witness :
  find_bounds (in_ball 1) 400
  = Some [[-1.0717944050000008; 1.0717944050000008];
          [-1.0717944050000008; 1.0717944050000008];
          [-1.0717944050000008; 1.0717944050000008]]%float /\
  in_ball 1 (on_axis 0 1.0717944050000008) = false.
Proof.
  split; [vm_compute; reflexivity|].
  apply (find_bounds_ends_outside (in_ball 1) 400
           [[-1.0717944050000008; 1.0717944050000008];
            [-1.0717944050000008; 1.0717944050000008];
            [-1.0717944050000008; 1.0717944050000008]]%float
           ltac:(vm_compute; reflexivity) 0%nat 1%nat); lia.
Defined.

Lemma while_loop_forever {St : Type} (P : St -> Prop) (cond : St -> bool)
    (body : St -> St) :
  (forall s, P s -> cond s = true /\ P (body s)) ->
  forall fuel s, P s -> while_loop fuel cond body s = None.
Proof.
  intros H. induction fuel as [|fuel IH]; intros s Hs; cbn; [reflexivity|].
  destruct (H s Hs) as [-> Hb]. apply IH, Hb.
Qed.

(** X2: the search does not terminate for an indicator that is true all
    along the first axis: whatever the number of steps allowed, the
    first loop, which multiplies the offset by 10 while the indicator is
    true, is still running, and [find_bounds] returns nothing. *)
Theorem find_bounds_unbounded_indicator (indicator : list float -> bool) :
  (forall t, indicator (on_axis 0 t) = true) ->
  forall fuel, find_bounds indicator fuel = None.
Proof.
  intros Htrue fuel. unfold find_bounds. cbn [seq fold_left].
  assert (E : find_bounds_step indicator fuel
                [[-1e-9; 1e-9]; [-1e-9; 1e-9]; [-1e-9; 1e-9]]%float 0 0 = None).
  { unfold find_bounds_step. cbn [nth].
    change (list_set 0 (-1e-9)%float (repeat zero 3)) with (on_axis 0 (-1e-9)%float).
    rewrite (while_loop_forever (fun p => exists t, p = on_axis 0 t)).
    - reflexivity.
    - intros s [t ->]. split; [apply Htrue|].
      rewrite on_axis_nth, on_axis_set by lia. eauto.
    - eauto. }
  cbn [obind]. rewrite E. cbn [obind]. reflexivity.
Qed.

Lemma find_bounds_unbounded_indicator_witness :
  find_bounds (fun _ => true) 1000 = None.
Proof.
  apply (find_bounds_unbounded_indicator (fun _ => true)). intros t. reflexivity.
Defined.

Lemma shrink_outside (steps : nat) (inside : float -> bool) (t : float) :
  (forall u, inside u = false) ->
  shrink steps inside t
  = Nat.iter steps (fun f u => f (u / 2)%float) (fun u => u) t.
Proof.
  intros H. revert t. induction steps as [|steps IH]; intros t; cbn; [reflexivity|].
  rewrite H. apply IH.
Qed.

Lemma locate_outside (fuel : nat) (inside : float -> bool) (seed : float) :
  (10 < fuel)%nat -> (forall u, inside u = false) ->
  locate fuel 10 inside seed
  = Some (seed / 2 / 2 / 2 / 2 / 2 / 2 / 2 / 2 / 2 / 2)%float.
Proof.
  intros Hf H. unfold locate. destruct fuel as [|fuel]; [lia|].
  cbn [grow]. rewrite H. cbn [obind]. rewrite shrink_outside by exact H.
  cbn [Nat.iter]. rewrite H. reflexivity.
Qed.

(** X3: for an indicator that is false everywhere on the three axes (a
    domain that the axes through the origin miss) the search halves each
    seed ten times and stops: every bound is 1e-9 / 1024, whatever the
    extent of the domain. *)
Theorem find_bounds_misses_domain (indicator : list float -> bool) (fuel : nat) :
  (10 < fuel)%nat ->
  (forall i t, (i < 3)%nat -> indicator (on_axis i t) = false) ->
  find_bounds indicator fuel
  = Some [[-9.765625e-13; 9.765625e-13]; [-9.765625e-13; 9.765625e-13];
          [-9.765625e-13; 9.765625e-13]]%float.
Proof.
  intros Hf H. unfold find_bounds. cbn [seq fold_left obind].
  repeat (rewrite find_bounds_step_locate by (lia || exact Hf); cbn [nth];
          rewrite locate_outside by (exact Hf || (intros u; apply H; lia));
          cbn [obind list_set nth]).
  vm_compute. reflexivity.
Qed.

Lemma find_bounds_misses_domain_witness :
  (10 < 11)%nat /\
  find_bounds off_axis_box 11
  = Some [[-9.765625e-13; 9.765625e-13]; [-9.765625e-13; 9.765625e-13];
          [-9.765625e-13; 9.765625e-13]]%float.
Proof.
  split; [lia|].
  apply (find_bounds_misses_domain off_axis_box 11); [lia|].
  intros i t Hi. destruct i as [|[|[|i]]]; [| | |lia]; cbn;
    destruct (1 <? t)%float, (t <? 2)%float; vm_compute; reflexivity.
Defined.

(* ================================================================== *)
(** * More on in_domain and contains                                  *)
(* ================================================================== *)

Lemma assign_where_Forall (P : Z -> Prop) (ind : list bool) (v : Z) :
  P v ->
  forall domains d, Forall P domains -> assign_where domains ind v = Ok d ->
    Forall P d /\ List.length d = List.length domains.
Proof.
  intros Hv. induction ind as [|b ind IH]; intros domains d Hd H.
  - destruct domains; cbn in H; injection H as <-; auto.
  - destruct domains as [|x domains]; cbn in H.
    + destruct (b || existsb (fun b => b) ind); [discriminate|].
      injection H as <-. auto.
    + destruct (assign_where domains ind v) as [rest|e] eqn:E; [|discriminate].
      cbn in H. injection H as <-. inversion Hd as [|? ? Hx Hrest]; subst.
      destruct (IH domains rest Hrest E) as [F L]. split.
      * constructor; [destruct b; assumption | exact F].
      * cbn. f_equal. exact L.
Qed.

Lemma paint_Forall (inds : list (list bool)) :
  forall (i : nat) (domains d : list Z),
    Forall (fun x => (0 <= x <= Z.of_nat i)%Z) domains ->
    paint i inds domains = Ok d ->
    Forall (fun x => (0 <= x <= Z.of_nat (i + List.length inds))%Z) d /\
    List.length d = List.length domains.
Proof.
  induction inds as [|ind rest IH]; intros i domains d Hd H.
  - cbn in H. injection H as <-. rewrite Nat.add_0_r. auto.
  - cbn [paint] in H. destruct (paint (S i) rest domains) as [d'|e] eqn:E;
      [|discriminate]. cbn [bind] in H.
    destruct (IH (S i) domains d') as [F L]; [|exact E|].
    { eapply Forall_impl; [|exact Hd]. cbn beta. intros x Hx. lia. }
    destruct (assign_where_Forall
                (fun x => (0 <= x <= Z.of_nat (i + List.length (ind :: rest)))%Z)
                ind (Z.of_nat i + 1)%Z ltac:(cbn [List.length]; lia) d' d) as [F' L'];
      [|exact H|].
    { eapply Forall_impl; [|exact F]. cbn beta. cbn [List.length]. intros x Hx. lia. }
    split; [exact F' | congruence].
Qed.

(** X4: whatever the indicators answer, a result of [in_domain] holds
    one domain number per point, and each is between 0 and the number of
    indicators.  For an array the points are its rows; a point passed
    alone is one point, and its result has the one entry. *)
Theorem in_domain_range (self : Scatterer) (points : points_arg)
    (domains : list Z) :
  in_domain self points = Ok domains ->
  List.length domains = match points with
                        | OnePoint _ => 1%nat
                        | Points rows => List.length rows
                        end /\
  Forall (fun d => (0 <= d <= Z.of_nat (List.length (functions (indicators self))))%Z)
         domains.
Proof.
  intros H. unfold in_domain in H.
  assert (Hr : exists rows,
            as_rows points = Ok rows /\
            List.length rows = match points with
                               | OnePoint _ => 1%nat
                               | Points rows => List.length rows
                               end).
  { destruct points as [p | rows]; cbn in H |- *; [|eauto].
    destruct (Nat.eqb (List.length p) 3); [eauto | discriminate H]. }
  destruct Hr as (rows & Hr & Hn). rewrite Hr in H. cbn [bind] in H.
  destruct (mapM _ rows) as [shifted|e]; [|discriminate]. cbn [bind] in H.
  unfold enumerate in H. rewrite in_domain_loop in H.
  assert (Z0 : Forall (fun x => (0 <= x <= Z.of_nat 0)%Z)
                 (repeat 0%Z (List.length rows))).
  { apply Forall_forall. intros x Hx. apply repeat_spec in Hx. rewrite Hx.
    cbn. lia. }
  destruct (paint_Forall _ 0 _ _ Z0 H) as [F L].
  rewrite repeat_length in L. split; [congruence|].
  unfold Indicators_call in F. rewrite length_map in F. exact F.
Qed.

Lemma in_domain_range_witness :
  in_domain layered_sphere probe_points = Ok [1; 2; 0; 1]%Z /\
  in_domain layered_sphere (OnePoint [11.5; 0; 0]%float) = Ok [2]%Z /\
  (List.length [1; 2; 0; 1]%Z = 4%nat /\
   Forall (fun d => (0 <= d <= 2)%Z) [1; 2; 0; 1]%Z) /\
  (List.length [2]%Z = 1%nat /\ Forall (fun d => (0 <= d <= 2)%Z) [2]%Z).
Proof.
  split; [vm_compute; reflexivity|]. split; [vm_compute; reflexivity|]. split.
  - apply (in_domain_range layered_sphere probe_points [1; 2; 0; 1]%Z).
    vm_compute. reflexivity.
  - apply (in_domain_range layered_sphere (OnePoint [11.5; 0; 0]%float) [2]%Z).
    vm_compute. reflexivity.
Defined.





(* ================================================================== *)
(** * Model: alpha and make_scatterer_from_par_values                 *)
(* ================================================================== *)

Lemma kw_get_set_same {A : Type} (d : list (string * A)) (k : string) (v : A) :
  FitModel.kw_get (FitModel.kw_set d k v) k = Some v.
Proof.
  induction d as [|[k' w] d IH]; cbn.
  - rewrite String.eqb_refl. reflexivity.
  - destruct (String.eqb k' k) eqn:E; cbn; rewrite E; [reflexivity | exact IH].
Qed.

Lemma kw_get_set_other {A : Type} (d : list (string * A)) (k k' : string) (v : A) :
  k' <> k ->
  FitModel.kw_get (FitModel.kw_set d k v) k' = FitModel.kw_get d k'.
Proof.
  intros Hne. induction d as [|[k0 w] d IH]; cbn.
  - destruct (String.eqb k k') eqn:E; [|reflexivity].
    apply String.eqb_eq in E. congruence.
  - destruct (String.eqb k0 k) eqn:E; cbn.
    + apply String.eqb_eq in E. subst k0.
      destruct (String.eqb k k') eqn:E'; [|reflexivity].
      apply String.eqb_eq in E'. congruence.
    + destruct (String.eqb k0 k'); [reflexivity | exact IH].
Qed.

Lemma kw_set_new {A : Type} (d : list (string * A)) (k : string) (v : A) :
  ~ In k (map fst d) -> FitModel.kw_set d k v = d ++ [(k, v)].
Proof.
  induction d as [|[k0 w] d IH]; cbn; intros H; [reflexivity|].
  destruct (String.eqb k0 k) eqn:E.
  - apply String.eqb_eq in E. tauto.
  - rewrite IH by tauto. reflexivity.
Qed.

Lemma kw_get_None {A : Type} (d : list (string * A)) (k : string) :
  FitModel.kw_get d k = None <-> ~ In k (map fst d).
Proof.
  induction d as [|[k0 w] d IH]; cbn; [intuition auto|].
  destruct (String.eqb k0 k) eqn:E.
  - apply String.eqb_eq in E. split; [discriminate|].
    intros H. exfalso. apply H. left. exact E.
  - apply String.eqb_neq in E. rewrite IH. cbn. tauto.
Qed.

Lemma kw_set_keys {A : Type} (d : list (string * A)) (k k' : string) (v : A) :
  In k' (map fst (FitModel.kw_set d k v)) <-> k' = k \/ In k' (map fst d).
Proof.
  induction d as [|[k0 w] d IH]; cbn; [intuition congruence|].
  destruct (String.eqb k0 k) eqn:E; cbn.
  - apply String.eqb_eq in E. subst. intuition congruence.
  - rewrite IH. tauto.
Qed.

(** The first loop of [make_scatterer_from_par_values], started in the
    middle: with enough values it does not fail, the dictionary gets the
    names of the parameters as keys, and a name keeps the value of the
    last parameter that bears it. *)
Lemma all_pars_loop (pv : list number) (ps : list FitParameter) :
  forall (i : nat) (d0 : list (string * value)),
    (i + List.length ps <= List.length pv)%nat ->
    exists d,
      fold_left (fun acc (i_p : nat * FitParameter) =>
                   all_pars <- acc ;;
                   match nth_error pv (fst i_p) with
                   | None => Raise IndexError
                   | Some x =>
                       v <- unscale (snd i_p) (VNum x) ;;
                       Ok (FitModel.kw_set all_pars (name (snd i_p)) v)
                   end)
                (combine (seq i (List.length ps)) ps) (Ok d0) = Ok d /\
      (forall k, In k (map fst d) <-> In k (map fst d0) \/ In k (map name ps)) /\
      (forall k, ~ In k (map name ps) -> FitModel.kw_get d k = FitModel.kw_get d0 k) /\
      (forall pre p post x,
         ps = pre ++ p :: post ->
         (forall q, In q post -> name q <> name p) ->
         nth_error pv (i + List.length pre) = Some x ->
         FitModel.kw_get d (name p) = Some (VNum (mul x (scale_factor p)))).
Proof.
  induction ps as [|p ps IH]; intros i d0 Hlen.
  - exists d0. cbn. split; [reflexivity|]. split; [tauto|]. split; [reflexivity|].
    intros [|? ?] ? ? ? H; discriminate H.
  - cbn [List.length seq combine fold_left fst snd bind].
    destruct (nth_error pv i) as [x|] eqn:Ex.
    2:{ apply nth_error_None in Ex. cbn [List.length] in Hlen. lia. }
    cbn [unscale bind].
    destruct (IH (S i) (FitModel.kw_set d0 (name p) (VNum (mul x (scale_factor p)))))
      as (d & Hd & Hkeys & Hother & Hlast); [cbn [List.length] in Hlen; lia|].
    exists d. split; [exact Hd|]. split; [|split].
    + intros k. rewrite Hkeys, kw_set_keys. cbn. intuition congruence.
    + intros k Hk. cbn in Hk. rewrite Hother by tauto.
      apply kw_get_set_other. intros ->. tauto.
    + intros pre q post y E Hpost Hy. destruct pre as [|p' pre]; cbn in E.
      * injection E as <- <-. rewrite Nat.add_0_r in Hy.
        assert (y = x) by congruence. subst y.
        rewrite Hother.
        -- apply kw_get_set_same.
        -- intros Hin. apply in_map_iff in Hin. destruct Hin as (q & Hq & Hin).
           exact (Hpost q Hin Hq).
      * injection E as <- ->. apply (Hlast pre q post y eq_refl Hpost).
        cbn in Hy. rewrite <- Hy. f_equal. lia.
Qed.

Lemma all_pars_short (pv : list number) (ps : list FitParameter) :
  forall (i : nat) (d0 : list (string * value)),
    (i <= List.length pv < i + List.length ps)%nat ->
    fold_left (fun acc (i_p : nat * FitParameter) =>
                 all_pars <- acc ;;
                 match nth_error pv (fst i_p) with
                 | None => Raise IndexError
                 | Some x =>
                     v <- unscale (snd i_p) (VNum x) ;;
                     Ok (FitModel.kw_set all_pars (name (snd i_p)) v)
                 end)
              (combine (seq i (List.length ps)) ps) (Ok d0) = Raise IndexError.
Proof.
  induction ps as [|p ps IH]; intros i d0 Hlen.
  - cbn in Hlen. lia.
  - cbn [List.length seq combine fold_left fst snd bind].
    destruct (nth_error pv i) as [x|] eqn:Ex.
    + cbn [unscale bind]. apply IH.
      assert (i < List.length pv)%nat by (apply nth_error_Some; congruence).
      cbn [List.length] in Hlen. lia.
    + clear. induction (combine (seq (S i) (List.length ps)) ps) as [|a l IHl];
        [reflexivity | exact IHl].
Qed.

Lemma kw_get_map {A : Type} (f : string -> A) (l : list string) (a : string) :
  In a l -> FitModel.kw_get (map (fun a => (a, f a)) l) a = Some (f a).
Proof.
  induction l as [|b l IH]; cbn; [tauto|]. intros H.
  destruct (String.eqb b a) eqn:E.
  - apply String.eqb_eq in E. subst. reflexivity.
  - apply String.eqb_neq in E. destruct H as [H|H]; [congruence | exact (IH H)].
Qed.

(** The second loop: the arguments are looked up one after the other. *)
Lemma for_scatterer_loop (d : list (string * value)) (arguments : list string) :
  forall acc : list (string * value),
    NoDup (map fst acc ++ arguments) ->
    (forall a, In a arguments -> In a (map fst d)) ->
    fold_left (fun acc (arg : string) =>
                 for_scatterer <- acc ;;
                 match FitModel.kw_get d arg with
                 | Some v => Ok (FitModel.kw_set for_scatterer arg v)
                 | None => Raise KeyError
                 end)
              arguments (Ok acc)
    = Ok (acc ++ map (fun a => (a, match FitModel.kw_get d a with
                                   | Some v => v
                                   | None => VNone
                                   end)) arguments).
Proof.
  induction arguments as [|a rest IH]; intros acc Hnd Hin.
  - cbn. rewrite app_nil_r. reflexivity.
  - cbn [fold_left bind map].
    destruct (FitModel.kw_get d a) as [v|] eqn:Ea.
    2:{ apply kw_get_None in Ea. exfalso. apply Ea, Hin. left. reflexivity. }
    assert (Hnew : ~ In a (map fst acc)).
    { intros Hacc. apply NoDup_remove_2 in Hnd. apply Hnd, in_or_app. auto. }
    rewrite (kw_set_new acc a v Hnew), IH.
    + rewrite <- app_assoc. reflexivity.
    + rewrite map_app, <- app_assoc. exact Hnd.
    + intros b Hb. apply Hin. right. exact Hb.
Qed.

Lemma for_scatterer_missing (d : list (string * value)) (arguments : list string) :
  forall acc : list (string * value),
    (exists a, In a arguments /\ ~ In a (map fst d)) ->
    fold_left (fun acc (arg : string) =>
                 for_scatterer <- acc ;;
                 match FitModel.kw_get d arg with
                 | Some v => Ok (FitModel.kw_set for_scatterer arg v)
                 | None => Raise KeyError
                 end)
              arguments (Ok acc)
    = Raise KeyError.
Proof.
  induction arguments as [|a rest IH]; intros acc (b & Hb & Hmiss).
  - destruct Hb.
  - cbn [fold_left bind].
    destruct (FitModel.kw_get d a) as [v|] eqn:Ea.
    + apply IH. exists b. split; [|exact Hmiss].
      destruct Hb as [<-|Hb]; [|exact Hb].
      apply kw_get_None in Hmiss. congruence.
    + clear. induction rest as [|c l IHl]; [reflexivity | exact IHl].
Qed.

Lemma missing_argument_raises {T : Type} (self : FitModel.Model T)
    (make : FitModel.maker T) (par_values : list number) :
  (List.length (FitModel.parameters self) <= List.length par_values)%nat ->
  FitModel.make_scatterer self = Some make ->
  (exists a, In a (FitModel.args make) /\
             ~ In a (map name (FitModel.parameters self))) ->
  FitModel.make_scatterer_from_par_values self par_values = Raise KeyError.
Proof.
  unfold FitModel.make_scatterer_from_par_values, FitModel.all_pars_of, enumerate.
  intros Hlen Hmake (a & Ha & Hmiss).
  destruct (all_pars_loop par_values (FitModel.parameters self) 0 [] Hlen)
    as (d & -> & Hkeys & _). cbn [bind]. rewrite Hmake.
  rewrite for_scatterer_missing; [reflexivity|].
  exists a. split; [exact Ha|]. rewrite Hkeys. cbn. tauto.
Qed.

(** X6: [make_scatterer_from_par_values] calls [make_scatterer] with
    exactly the arguments its signature names, in that order, each bound
    to the unscaled value of the parameter of the same name; when
    several parameters share a name the last one in the list wins, and
    parameters that are no argument of [make_scatterer] are left out.
    This needs a value for every parameter and a parameter for every
    argument. *)
Theorem make_scatterer_gets_named_values {T : Type} (self : FitModel.Model T)
    (make : FitModel.maker T) (par_values : list number) :
  FitModel.make_scatterer self = Some make ->
  (List.length (FitModel.parameters self) <= List.length par_values)%nat ->
  NoDup (FitModel.args make) ->
  (forall a, In a (FitModel.args make) ->
             In a (map name (FitModel.parameters self))) ->
  exists kwargs,
    FitModel.make_scatterer_from_par_values self par_values
    = FitModel.call make kwargs /\
    map fst kwargs = FitModel.args make /\
    forall pre p post x,
      FitModel.parameters self = pre ++ p :: post ->
      In (name p) (FitModel.args make) ->
      (forall q, In q post -> name q <> name p) ->
      nth_error par_values (List.length pre) = Some x ->
      FitModel.kw_get kwargs (name p) = Some (VNum (mul x (scale_factor p))).
Proof.
  intros Hmake Hlen Hnd Hargs.
  unfold FitModel.make_scatterer_from_par_values, FitModel.all_pars_of, enumerate.
  destruct (all_pars_loop par_values (FitModel.parameters self) 0 [] Hlen)
    as (d & -> & Hkeys & _ & Hlast).
  cbn [bind]. rewrite Hmake.
  rewrite (for_scatterer_loop d (FitModel.args make) []).
  - cbn [bind app]. eexists. split; [reflexivity|]. split.
    + rewrite map_map. cbn. apply map_id.
    + intros pre p post x E Hin Hpost Hx.
      rewrite (kw_get_map (fun a => match FitModel.kw_get d a with
                                     | Some v => v
                                     | None => VNone
                                     end) _ _ Hin).
      rewrite (Hlast pre p post x E Hpost Hx). reflexivity.
  - exact Hnd.
  - intros a Ha. apply Hkeys. right. apply Hargs, Ha.
Qed.

(** X7: the failures of [make_scatterer_from_par_values], in the order
    in which the code meets them.  With fewer values than parameters it
    raises [IndexError]; otherwise, without a [make_scatterer] (the
    default of the constructor) it raises [TypeError]; otherwise, when
    [make_scatterer] has an argument that is no parameter's name, it
    raises [KeyError], and [make_scatterer] is not called. *)
Theorem make_scatterer_from_par_values_errors {T : Type}
    (self : FitModel.Model T) (par_values : list number) :
  ((List.length par_values < List.length (FitModel.parameters self))%nat ->
   FitModel.make_scatterer_from_par_values self par_values = Raise IndexError) /\
  ((List.length (FitModel.parameters self) <= List.length par_values)%nat ->
   FitModel.make_scatterer self = None ->
   FitModel.make_scatterer_from_par_values self par_values = Raise TypeError) /\
  (forall make,
     (List.length (FitModel.parameters self) <= List.length par_values)%nat ->
     FitModel.make_scatterer self = Some make ->
     (exists a, In a (FitModel.args make) /\
                ~ In a (map name (FitModel.parameters self))) ->
     FitModel.make_scatterer_from_par_values self par_values = Raise KeyError).
Proof.
  unfold FitModel.make_scatterer_from_par_values, FitModel.all_pars_of, enumerate.
  split; [|split].
  - intros Hlen. rewrite all_pars_short by lia. reflexivity.
  - intros Hlen Hmake.
    destruct (all_pars_loop par_values (FitModel.parameters self) 0 [] Hlen)
      as (d & -> & _). cbn [bind]. rewrite Hmake. reflexivity.
  - intros make Hlen Hmake Hmiss.
    fold (FitModel.all_pars_of (FitModel.parameters self) par_values).
    exact (missing_argument_raises self make par_values Hlen Hmake Hmiss).
Qed.

Lemma make_scatterer_gets_named_values_witness :
  exists kwargs,
    FitModel.make_scatterer_from_par_values sphere_model
      [NpFloat64 1; NpFloat64 3; NpFloat64 1]
    = FitModel.call sphere_maker kwargs /\
    map fst kwargs = ["r"; "x"]%string /\
    FitModel.kw_get kwargs "x" = Some (VNum (NpFloat64 6)).
Proof.
  destruct (make_scatterer_gets_named_values sphere_model sphere_maker
              [NpFloat64 1; NpFloat64 3; NpFloat64 1] eq_refl)
    as (kwargs & Hcall & Hkeys & Hval).
  - cbn. lia.
  - repeat constructor; cbn; intuition discriminate.
  - intros a [<-|[<-|[]]]; cbn; auto.
  - exists kwargs. split; [exact Hcall|]. split; [exact Hkeys|].
    apply (Hval [par_r] par_x [par_alpha] (NpFloat64 3) eq_refl).
    + cbn. auto.
    + intros q [<-|[]]. discriminate.
    + reflexivity.
Defined.

Lemma make_scatterer_from_par_values_errors_witness :
  FitModel.make_scatterer_from_par_values sphere_model [NpFloat64 1]
  = Raise IndexError /\
  FitModel.make_scatterer_from_par_values
    (FitModel.mkModel (ScattererT := unit) [par_r] None) [NpFloat64 1]
  = Raise TypeError /\
  FitModel.make_scatterer_from_par_values
    (FitModel.mkModel [par_r; par_alpha] (Some sphere_maker))
    [NpFloat64 1; NpFloat64 1]
  = Raise KeyError.
Proof.
  split; [|split].
  - apply (proj1 (make_scatterer_from_par_values_errors sphere_model [NpFloat64 1])).
    cbn. lia.
  - apply (proj1 (proj2 (make_scatterer_from_par_values_errors
                           (FitModel.mkModel (ScattererT := unit) [par_r] None)
                           [NpFloat64 1])));
      [cbn; lia | reflexivity].
  - apply (proj2 (proj2 (make_scatterer_from_par_values_errors
                           (FitModel.mkModel [par_r; par_alpha] (Some sphere_maker))
                           [NpFloat64 1; NpFloat64 1])) sphere_maker);
      [cbn; lia | reflexivity |].
    exists "x"%string. split; [cbn; auto|].
    cbn. intros [H|[H|[]]]; discriminate H.
Defined.

Lemma alpha_loop_spec (pv : list number) (ps : list FitParameter) (i : nat) :
  ((forall p, In p ps -> name p <> "alpha"%string) ->
   FitModel.alpha_loop pv (combine (seq i (List.length ps)) ps) = Ok None) /\
  (forall pre p post,
     ps = pre ++ p :: post ->
     (forall q, In q pre -> name q <> "alpha"%string) ->
     name p = "alpha"%string ->
     FitModel.alpha_loop pv (combine (seq i (List.length ps)) ps)
     = match nth_error pv (i + List.length pre) with
       | Some x => Ok (Some (VNum (mul x (scale_factor p))))
       | None => Raise IndexError
       end).
Proof.
  revert i. induction ps as [|p0 ps IH]; intros i.
  - split; [reflexivity|]. intros [|? ?] ? ? H; discriminate H.
  - cbn [List.length seq combine FitModel.alpha_loop]. split.
    + intros Hno. destruct (String.eqb (name p0) "alpha") eqn:E.
      * apply String.eqb_eq in E. exfalso. apply (Hno p0); [left; reflexivity | exact E].
      * apply (proj1 (IH (S i))). intros p Hp. apply Hno. right. exact Hp.
    + intros pre p post E Hpre Hp. destruct pre as [|p' pre]; cbn in E.
      * injection E as <- <-. rewrite Hp, Nat.add_0_r. cbn.
        destruct (nth_error pv i); reflexivity.
      * injection E as <- ->.
        destruct (String.eqb (name p0) "alpha") eqn:E'.
        -- apply String.eqb_eq in E'. exfalso.
           apply (Hpre p0); [left; reflexivity | exact E'].
        -- rewrite (proj2 (IH (S i)) pre p post eq_refl); [|
             intros q Hq; apply Hpre; right; exact Hq | exact Hp].
           cbn [List.length]. replace (S i + List.length pre)%nat
             with (i + S (List.length pre))%nat by lia. reflexivity.
Qed.

(** X8: [Model.alpha] answers with the unscaled value of the first
    parameter named ['alpha'] (where [make_scatterer_from_par_values]
    takes the last of a name); it raises [IndexError] when [par_values]
    has no entry at the index of that parameter, and it returns [None],
    without looking at [par_values], when no parameter bears the name. *)
Theorem alpha_first_named {T : Type} (self : FitModel.Model T)
    (par_values : list number) :
  ((forall p, In p (FitModel.parameters self) -> name p <> "alpha"%string) ->
   FitModel.alpha self par_values = Ok None) /\
  (forall pre p post,
     FitModel.parameters self = pre ++ p :: post ->
     (forall q, In q pre -> name q <> "alpha"%string) ->
     name p = "alpha"%string ->
     FitModel.alpha self par_values
     = match nth_error par_values (List.length pre) with
       | Some x => Ok (Some (VNum (mul x (scale_factor p))))
       | None => Raise IndexError
       end).
Proof.
  unfold FitModel.alpha, enumerate.
  destruct (alpha_loop_spec par_values (FitModel.parameters self) 0) as [H1 H2].
  split; [exact H1|]. intros pre p post E Hpre Hp.
  rewrite (H2 pre p post E Hpre Hp). reflexivity.
Qed.

Lemma alpha_first_named_witness :
  FitModel.alpha (FitModel.mkModel [par_r; par_x] (Some sphere_maker)) []
  = Ok None /\
  FitModel.alpha sphere_model [NpFloat64 1; NpFloat64 3; NpFloat64 1.5]
  = Ok (Some (VNum (NpFloat64 0.75))) /\
  FitModel.alpha sphere_model [NpFloat64 1; NpFloat64 3] = Raise IndexError.
Proof.
  split; [|split].
  - apply (proj1 (alpha_first_named
                    (FitModel.mkModel [par_r; par_x] (Some sphere_maker)) [])).
    intros p [<-|[<-|[]]]; discriminate.
  - apply (proj2 (alpha_first_named sphere_model
                    [NpFloat64 1; NpFloat64 3; NpFloat64 1.5])
             [par_r; par_x] par_alpha [] eq_refl);
      [intros q [<-|[<-|[]]]; discriminate | reflexivity].
  - apply (proj2 (alpha_first_named sphere_model [NpFloat64 1; NpFloat64 3])
             [par_r; par_x] par_alpha [] eq_refl);
      [intros q [<-|[<-|[]]]; discriminate | reflexivity].
Defined.

(** X9: a [RigidSphereCluster] cannot make its scatterer through
    [Model.make_scatterer_from_par_values], on which [cost_func] and
    [fit] rely: its [make_scatterer] is a method, whose signature starts
    with [self], so that the lookup of the arguments fails with
    [KeyError] unless parameters are named ['self'] and ['par_values'],
    and then the call passes [self] twice.  Whatever the parameters and
    the values, the result is an exception. *)
Theorem RigidSphereCluster_never_builds {T : Type}
    (place : list value -> list value -> result T)
    (alpha beta gamma x y z : FitParameter) (par_values : list number) :
  let model := FitModel.RigidSphereCluster place alpha beta gamma x y z in
  (exists e, FitModel.make_scatterer_from_par_values model par_values = Raise e) /\
  ((6 <= List.length par_values)%nat ->
   ~ In "self"%string (map name (FitModel.parameters model)) ->
   FitModel.make_scatterer_from_par_values model par_values = Raise KeyError).
Proof.
  intros model. split.
  - unfold FitModel.make_scatterer_from_par_values.
    destruct (FitModel.all_pars_of _ _) as [d|e]; cbn [bind]; [|eauto].
    cbn [FitModel.make_scatterer model FitModel.RigidSphereCluster FitModel.args
         fold_left bind].
    destruct (FitModel.kw_get d "self") as [v|]; cbn [bind]; [|eauto].
    destruct (FitModel.kw_get d "par_values") as [w|]; cbn [bind]; [|eauto].
    cbn. eauto.
  - intros Hlen Hself.
    apply (missing_argument_raises model _ par_values Hlen eq_refl).
    exists "self"%string. split; [cbn; auto | exact Hself].
Qed.

Lemma RigidSphereCluster_never_builds_witness :
  FitModel.make_scatterer_from_par_values
    (FitModel.RigidSphereCluster (fun a b => Ok (a, b))
       par_alpha par_alpha par_alpha par_x par_x par_x)
    (repeat (NpFloat64 1) 6)
  = Raise KeyError.
Proof.
  apply (proj2 (RigidSphereCluster_never_builds (fun a b => Ok (a, b))
                  par_alpha par_alpha par_alpha par_x par_x par_x
                  (repeat (NpFloat64 1) 6))).
  - cbn. lia.
  - cbn. intros H. repeat (destruct H as [H|H]; [discriminate H|]). exact H.
Defined.

(* ================================================================== *)
(** * Model.compare                                                   *)
(* ================================================================== *)

Lemma SFmul_comm (x y : spec_float) : SFmul prec emax x y = SFmul prec emax y x.
Proof.
  destruct x as [sx|sx| |sx mx ex], y as [sy|sy| |sy my ey]; cbn;
    try rewrite (xorb_comm sx sy); try reflexivity.
  rewrite (Pos.mul_comm mx my), (Z.add_comm ex ey). reflexivity.
Qed.

Lemma float_mul_comm (x y : float) : (x * y = y * x)%float.
Proof. apply Prim2SF_inj. rewrite !mul_spec. apply SFmul_comm. Qed.

(** [x * 1 = x] for every [x]. *)
Lemma float_mul_1_r (x : float) : (x * 1 = x)%float.
Proof. rewrite float_mul_comm. apply float_mul_1_l. Qed.

Lemma sub_zeros (x y : float) (b c : bool) :
  Prim2SF x = S754_zero b -> Prim2SF y = S754_zero c ->
  (x - y =? 0)%float = true.
Proof.
  intros Hx Hy. rewrite eqb_spec, sub_spec, Hx, Hy. destruct b, c; reflexivity.
Qed.

Lemma np_broadcast_same (op : float -> float -> float) (a b : list float) :
  List.length a = List.length b -> np_broadcast op a b = Ok (zip_with op a b).
Proof. intros H. unfold np_broadcast. rewrite H, Nat.eqb_refl. reflexivity. Qed.

Lemma np_broadcast2_same (op : float -> float -> float) (a b : list (list float)) :
  same_shape a b ->
  FitModel.np_broadcast2 op a b = Ok (zip_with (zip_with op) a b).
Proof.
  intros H. unfold FitModel.np_broadcast2.
  rewrite (Forall2_length H), Nat.eqb_refl.
  induction H as [|x y a b Hxy _ IH]; cbn; [reflexivity|].
  rewrite (np_broadcast_same op x y Hxy), IH. reflexivity.
Qed.

Lemma zip_with_rows_shape {A : Type} (f : float -> A -> float)
    (a : list (list float)) (b : list (list A)) :
  same_shape a b -> same_shape (zip_with (zip_with f) a b) a.
Proof.
  induction 1 as [|x y a b Hxy _ IH]; cbn; constructor; [|exact IH].
  apply zip_with_length. exact Hxy.
Qed.

Lemma same_shape_trans {A B C : Type} (a : list (list A)) (b : list (list B))
    (c : list (list C)) :
  same_shape a b -> same_shape b c -> same_shape a c.
Proof.
  intros H. revert c. induction H as [|x y a b Hxy _ IH]; intros c Hc;
    inversion Hc; subst; constructor; [congruence | apply IH; assumption].
Qed.

Lemma same_shape_sym {A B : Type} (a : list (list A)) (b : list (list B)) :
  same_shape a b -> same_shape b a.
Proof. induction 1; constructor; auto. Qed.

Lemma same_shape_map {A B : Type} (g : A -> B) (a : list (list A)) :
  same_shape a (map (map g) a).
Proof.
  induction a as [|x a IH]; cbn; constructor; [|exact IH].
  symmetry. apply length_map.
Qed.

Lemma pixel_zip_with {A B C : Type} (f : A -> B -> C) (a : list (list A))
    (b : list (list B)) (i j : nat) :
  same_shape a b ->
  pixel (zip_with (zip_with f) a b) i j
  = match pixel a i j, pixel b i j with
    | Some x, Some y => Some (f x y)
    | _, _ => None
    end.
Proof.
  intros H. revert i. induction H as [|x y a b Hxy _ IH]; intros [|i]; cbn;
    try reflexivity.
  - unfold pixel. cbn. apply zip_with_nth_error. exact Hxy.
  - apply IH.
Qed.

Lemma pixel_map {A B : Type} (g : A -> B) (a : list (list A)) (i j : nat) :
  pixel (map (map g) a) i j = option_map g (pixel a i j).
Proof.
  unfold pixel. rewrite nth_error_map.
  destruct (nth_error a i) as [row|]; cbn; [|reflexivity].
  apply nth_error_map.
Qed.

Lemma zip_with_mul_ones (a : list (list float)) (d : list (list float)) :
  same_shape a d ->
  zip_with (zip_with PrimFloat.mul) a
    (map (map FitModel.float_of_int) (FitModel.np_ones_int d)) = a.
Proof.
  unfold FitModel.np_ones_int.
  induction 1 as [|x y a d Hxy _ IH]; cbn [map zip_with]; [reflexivity|].
  rewrite IH. f_equal. clear -Hxy. revert y Hxy.
  induction x as [|u x IHx]; intros [|v y] H; cbn [map zip_with List.length] in *;
    try discriminate; [reflexivity|].
  rewrite IHx by lia. f_equal.
  change (FitModel.float_of_int 1) with 1%float. apply float_mul_1_r.
Qed.

Lemma same_shape_refl {A : Type} (a : list (list A)) : same_shape a a.
Proof. induction a; constructor; auto. Qed.

(** X10: with the default selection [compare] returns exactly the
    difference [calc - data], row after row: the all-ones selection
    changes nothing, since [x * 1] is [x] in binary64, also for an
    infinity or a nan.  [None == None] is true in every numpy. *)
Theorem compare_default_selection (numpy : FitModel.none_comparison)
    (calc data : list (list float)) :
  same_shape calc data ->
  FitModel.compare numpy calc data None
  = Ok (List.concat (zip_with (zip_with PrimFloat.sub) calc data)).
Proof.
  intros H. unfold FitModel.compare. cbn [FitModel.selection_is_none bind].
  assert (Hones : same_shape data
            (map (map FitModel.float_of_int) (FitModel.np_ones_int data))).
  { eapply same_shape_trans; [apply (same_shape_map (fun _ => 1%Z))|].
    apply same_shape_map. }
  rewrite (np_broadcast2_same PrimFloat.mul calc)
    by (eapply same_shape_trans; [exact H | exact Hones]).
  cbn [bind]. rewrite (np_broadcast2_same PrimFloat.mul data) by exact Hones.
  cbn [bind]. rewrite (zip_with_mul_ones calc data H),
    (zip_with_mul_ones data data (same_shape_refl data)).
  rewrite (np_broadcast2_same PrimFloat.sub calc data H). reflexivity.
Qed.

Lemma compare_default_selection_witness :
  FitModel.compare FitModel.Elementwise
    [[1; 2]; [3; 4.5]]%float [[0.5; 2]; [1; 1]]%float None
  = Ok [0.5; 0; 2; 3.5]%float /\
  FitModel.compare FitModel.ScalarFalse
    [[1; 2]; [3; 4.5]]%float [[0.5; 2]; [1; 1]]%float None
  = Ok [0.5; 0; 2; 3.5]%float.
Proof.
  split.
  - apply (compare_default_selection FitModel.Elementwise
             [[1; 2]; [3; 4.5]]%float [[0.5; 2]; [1; 1]]%float).
    repeat constructor.
  - apply (compare_default_selection FitModel.ScalarFalse
             [[1; 2]; [3; 4.5]]%float [[0.5; 2]; [1; 1]]%float).
    repeat constructor.
Defined.

Lemma mul_zero_finite (c : float) :
  is_finite c = true -> exists b, Prim2SF (c * 0) = S754_zero b.
Proof. intros H. rewrite float_mul_comm. apply zero_mul_finite, H. Qed.

(** X11: what [compare] does with a selection array depends on how
    numpy compares the array with [None] in [if selection == None].
    From numpy 1.13 on the comparison is elementwise and [compare]
    raises [ValueError] for every selection of more than one element,
    whatever [calc] and [data] are.  Where the test passes (numpy before
    1.13, or a selection of one element) and the selection has the shape
    of the holograms, the result has one residual per pixel, row after
    row: at a pixel selected with 1 it is [calc - data] there, and at a
    pixel deselected with 0 it compares equal to zero as long as both
    [calc] and [data] are finite at that pixel. *)
Theorem compare_with_selection (numpy : FitModel.none_comparison)
    (calc data : list (list float)) (selection : list (list Z)) :
  (numpy = FitModel.Elementwise -> (1 < FitModel.np_size selection)%nat ->
   FitModel.compare numpy calc data (Some selection) = Raise ValueError) /\
  (numpy = FitModel.ScalarFalse \/ (FitModel.np_size selection <= 1)%nat ->
   same_shape calc data -> same_shape data selection ->
   exists residual,
     FitModel.compare numpy calc data (Some selection) = Ok (List.concat residual) /\
     same_shape residual data /\
     forall i j c d s,
       pixel calc i j = Some c -> pixel data i j = Some d ->
       pixel selection i j = Some s ->
       exists r, pixel residual i j = Some r /\
         (s = 1%Z -> r = (c - d)%float) /\
         (s = 0%Z -> is_finite c = true -> is_finite d = true ->
          (r =? 0)%float = true)).
Proof.
  split.
  - intros -> Hsize. unfold FitModel.compare, FitModel.selection_is_none.
    apply Nat.ltb_lt in Hsize. rewrite Hsize. reflexivity.
  - intros Hpass Hcd Hds. unfold FitModel.compare.
    assert (Htest : FitModel.selection_is_none numpy (Some selection) = Ok false).
    { unfold FitModel.selection_is_none.
      destruct Hpass as [-> | Hsize]; [reflexivity|].
      destruct numpy; [reflexivity|].
      replace (1 <? FitModel.np_size selection)%nat with false
        by (symmetry; apply Nat.ltb_ge; exact Hsize).
      reflexivity. }
    rewrite Htest. cbn [bind].
    set (sel := map (map FitModel.float_of_int) selection).
    assert (Hsel : same_shape data sel).
    { eapply same_shape_trans; [exact Hds | apply same_shape_map]. }
    assert (Hcsel : same_shape calc sel) by (eapply same_shape_trans; eassumption).
    rewrite (np_broadcast2_same PrimFloat.mul calc sel Hcsel). cbn [bind].
    rewrite (np_broadcast2_same PrimFloat.mul data sel Hsel). cbn [bind].
    assert (Hab : same_shape (zip_with (zip_with PrimFloat.mul) calc sel)
                             (zip_with (zip_with PrimFloat.mul) data sel)).
    { eapply same_shape_trans; [apply zip_with_rows_shape, Hcsel|].
      eapply same_shape_trans; [exact Hcd|].
      apply same_shape_sym, zip_with_rows_shape, Hsel. }
    rewrite (np_broadcast2_same PrimFloat.sub _ _ Hab). cbn [bind].
    eexists. split; [reflexivity|]. split.
    + eapply same_shape_trans; [apply zip_with_rows_shape, Hab|].
      eapply same_shape_trans; [apply zip_with_rows_shape, Hcsel | exact Hcd].
    + intros i j c d s Hc Hd Hs.
      rewrite (pixel_zip_with _ _ _ i j Hab),
        (pixel_zip_with _ _ _ i j Hcsel), (pixel_zip_with _ _ _ i j Hsel).
      unfold sel. rewrite pixel_map, Hc, Hd, Hs. cbn [option_map].
      eexists. split; [reflexivity|]. split.
      * intros ->. change (FitModel.float_of_int 1) with 1%float.
        rewrite !float_mul_1_r. reflexivity.
      * intros -> Fc Fd. change (FitModel.float_of_int 0) with 0%float.
        destruct (mul_zero_finite c Fc) as [b Hb].
        destruct (mul_zero_finite d Fd) as [b' Hb'].
        apply (sub_zeros _ _ b b' Hb Hb').
Qed.

Lemma compare_with_selection_witness :
  FitModel.compare FitModel.Elementwise
    [[1; 2]; [3; 4.5]]%float [[0.5; 2]; [1; 1]]%float (Some [[1; 0]; [0; 1]]%Z)
  = Raise ValueError /\
  FitModel.compare FitModel.ScalarFalse
    [[1; 2]; [3; 4.5]]%float [[0.5; 2]; [1; 1]]%float (Some [[1; 0]; [0; 1]]%Z)
  = Ok [0.5; 0; 0; 3.5]%float /\
  FitModel.compare FitModel.Elementwise [[3]]%float [[1]]%float (Some [[0]]%Z)
  = Ok [0]%float /\
  (exists residual,
     FitModel.compare FitModel.ScalarFalse
       [[1; 2]; [3; 4.5]]%float [[0.5; 2]; [1; 1]]%float
       (Some [[1; 0]; [0; 1]]%Z) = Ok (List.concat residual) /\
     same_shape residual [[0.5; 2]; [1; 1]]%float /\
     exists r, pixel residual 1 0 = Some r /\ (r =? 0)%float = true).
Proof.
  split; [|split; [vm_compute; reflexivity|split; [vm_compute; reflexivity|]]].
  - apply (proj1 (compare_with_selection FitModel.Elementwise
                    [[1; 2]; [3; 4.5]]%float [[0.5; 2]; [1; 1]]%float
                    [[1; 0]; [0; 1]]%Z)); [reflexivity | cbn; lia].
  - destruct (proj2 (compare_with_selection FitModel.ScalarFalse
                       [[1; 2]; [3; 4.5]]%float [[0.5; 2]; [1; 1]]%float
                       [[1; 0]; [0; 1]]%Z))
      as (residual & Hres & Hshape & Hpix).
    + left. reflexivity.
    + repeat constructor.
    + repeat constructor.
    + exists residual. split; [exact Hres|]. split; [exact Hshape|].
      destruct (Hpix 1%nat 0%nat 3%float 1%float 0%Z eq_refl eq_refl eq_refl)
        as (r & Hr & _ & Hzero).
      exists r. split; [exact Hr|]. apply Hzero; reflexivity.
Defined.

(* ================================================================== *)
(** * bound_union and the bounds that Indicators computes             *)
(* ================================================================== *)

Lemma SFcompare_antisym (x y : spec_float) :
  SFcompare y x = option_map CompOpp (SFcompare x y).
Proof.
  destruct x as [sx|sx| |sx mx ex], y as [sy|sy| |sy my ey]; cbn;
    try (destruct sx; reflexivity); try (destruct sy; reflexivity);
    try (destruct sx, sy; reflexivity); try reflexivity.
  assert (P : PosDef.Pos.compare_cont Eq my mx
              = CompOpp (PosDef.Pos.compare_cont Eq mx my))
    by (symmetry; exact (Pos.compare_cont_antisym mx my Eq)).
  rewrite (Z.compare_antisym ey ex), P.
  destruct sx, sy; cbn [CompOpp]; try reflexivity;
    destruct (ey ?= ex)%Z; cbn [CompOpp]; reflexivity.
Qed.

Lemma ltb_irrefl (x : float) : (x <? x)%float = false.
Proof.
  rewrite ltb_spec. unfold SFltb.
  pose proof (SFcompare_antisym (Prim2SF x) (Prim2SF x)) as H.
  destruct (SFcompare (Prim2SF x) (Prim2SF x)) as [[| |]|]; cbn in H;
    try reflexivity; discriminate H.
Qed.

Lemma ltb_leb (x y : float) : (x <? y)%float = true -> (x <=? y)%float = true.
Proof.
  rewrite ltb_spec, leb_spec. unfold SFltb, SFleb.
  destruct (SFcompare (Prim2SF x) (Prim2SF y)) as [[| |]|]; auto.
Qed.

Lemma leb_refl (x : float) : is_nan x = false -> (x <=? x)%float = true.
Proof.
  intros Hn. rewrite leb_spec. unfold SFleb.
  pose proof (SFcompare_antisym (Prim2SF x) (Prim2SF x)) as H.
  destruct (SFcompare (Prim2SF x) (Prim2SF x)) as [[| |]|] eqn:E; cbn in H;
    try reflexivity; try discriminate H.
  exfalso. destruct (Prim2SF x) as [s|s| |s m e] eqn:Ex; try discriminate E.
  assert (is_nan x = true) by (apply is_nan_spec; exact Ex). congruence.
Qed.

Lemma not_ltb_leb (x y : float) :
  is_nan x = false -> is_nan y = false ->
  (y <? x)%float = false -> (x <=? y)%float = true.
Proof.
  intros Hx Hy. rewrite ltb_spec, leb_spec. unfold SFltb, SFleb.
  rewrite (SFcompare_antisym (Prim2SF x) (Prim2SF y)).
  destruct (SFcompare (Prim2SF x) (Prim2SF y)) as [[| |]|] eqn:E; cbn;
    try reflexivity; try discriminate.
  exfalso.
  destruct (Prim2SF x) as [s|s| |s m e] eqn:Ex;
    [| |assert (is_nan x = true) by (apply is_nan_spec; exact Ex); congruence|];
    (destruct (Prim2SF y) as [s'|s'| |s' m' e'] eqn:Ey;
     [| |assert (is_nan y = true) by (apply is_nan_spec; exact Ey); congruence|]);
    discriminate E.
Qed.

(** [min(a, b)] and [max(a, b)] bound both arguments when neither is a
    nan. *)
Lemma pymin_le (a b : float) :
  is_nan a = false -> is_nan b = false ->
  (pymin a b <=? a)%float = true /\ (pymin a b <=? b)%float = true.
Proof.
  intros Ha Hb. unfold pymin. destruct (b <? a)%float eqn:E.
  - split; [apply ltb_leb, E | apply leb_refl, Hb].
  - split; [apply leb_refl, Ha | apply not_ltb_leb; assumption].
Qed.

Lemma pymax_ge (a b : float) :
  is_nan a = false -> is_nan b = false ->
  (a <=? pymax a b)%float = true /\ (b <=? pymax a b)%float = true.
Proof.
  intros Ha Hb. unfold pymax. destruct (a <? b)%float eqn:E.
  - split; [apply ltb_leb, E | apply leb_refl, Hb].
  - split; [apply leb_refl, Ha | apply not_ltb_leb; assumption].
Qed.

Lemma bound_union_boxes (x0 x1 y0 y1 z0 z1 u0 u1 v0 v1 w0 w1 : float) :
  bound_union [[x0; x1]; [y0; y1]; [z0; z1]] [[u0; u1]; [v0; v1]; [w0; w1]]
  = Ok [[pymin x0 u0; pymax x1 u1]; [pymin y0 v0; pymax y1 v1];
        [pymin z0 w0; pymax z1 w1]].
Proof. reflexivity. Qed.

(** X12: the union of two bounding boxes is a box that encloses both,
    axis by axis, as long as no bound is a nan; a nan in the second box
    is dropped and one in the first box is kept, since [min] and [max]
    return their first argument unless the second compares smaller or
    larger. *)
Theorem bound_union_encloses (d1 d2 : list (list float)) :
  is_box d1 -> is_box d2 ->
  exists new,
    bound_union d1 d2 = Ok new /\ is_box new /\
    forall i a0 a1 b0 b1,
      nth_error d1 i = Some [a0; a1] -> nth_error d2 i = Some [b0; b1] ->
      exists lo hi,
        nth_error new i = Some [lo; hi] /\
        (is_nan a0 = false -> is_nan b0 = false ->
         (lo <=? a0)%float = true /\ (lo <=? b0)%float = true) /\
        (is_nan a1 = false -> is_nan b1 = false ->
         (a1 <=? hi)%float = true /\ (b1 <=? hi)%float = true) /\
        (is_nan b0 = true -> lo = a0) /\ (is_nan b1 = true -> hi = a1).
Proof.
  intros (x0 & x1 & y0 & y1 & z0 & z1 & ->) (u0 & u1 & v0 & v1 & w0 & w1 & ->).
  rewrite bound_union_boxes. eexists. split; [reflexivity|]. split.
  - unfold is_box. eauto 10.
  - assert (N : forall a b, is_nan b = true -> pymin a b = a /\ pymax a b = a).
    { intros a b Hb. apply is_nan_spec in Hb. unfold pymin, pymax.
      rewrite !ltb_spec, Hb. unfold SFltb.
      destruct (Prim2SF a); cbn; auto. }
    intros i a0 a1 b0 b1 H1 H2.
    destruct i as [|[|[|i]]]; cbn in H1, H2;
      [| | |destruct i; discriminate H1];
      injection H1 as <- <-; injection H2 as <- <-;
      cbn [nth_error]; eexists _, _; (split; [reflexivity|]);
      (split; [apply pymin_le|]); (split; [apply pymax_ge|]);
      (split; intros Hn; apply N, Hn).
Qed.

Lemma bound_union_encloses_witness :
  exists new,
    bound_union [[-1; 1]; [-1; 1]; [-1; 1]]%float [[-2; 0.5]; [0; 3]; [-1; 1]]%float
    = Ok new /\
    exists lo hi, nth_error new 0 = Some [lo; hi] /\
      (lo <=? -2)%float = true /\ (1 <=? hi)%float = true.
Proof.
  destruct (bound_union_encloses [[-1; 1]; [-1; 1]; [-1; 1]]%float
              [[-2; 0.5]; [0; 3]; [-1; 1]]%float)
    as (new & Hnew & _ & Hi).
  - unfold is_box. eauto 10.
  - unfold is_box. eauto 10.
  - exists new. split; [exact Hnew|].
    destruct (Hi 0%nat (-1)%float 1%float (-2)%float 0.5%float eq_refl eq_refl)
      as (lo & hi & Hn & Hlo & Hhi & _).
    exists lo, hi. split; [exact Hn|]. split.
    + apply Hlo; reflexivity.
    + apply Hhi; reflexivity.
Defined.

(** X13: the union of a box with itself is the box: [min(a, a)] and
    [max(a, a)] are [a], also for a nan. *)
Theorem bound_union_idempotent (d : list (list float)) :
  is_box d -> bound_union d d = Ok d.
Proof.
  intros (x0 & x1 & y0 & y1 & z0 & z1 & ->). rewrite bound_union_boxes.
  unfold pymin, pymax. rewrite !ltb_irrefl. reflexivity.
Qed.

Lemma bound_union_idempotent_witness :
  bound_union [[-1; 1]; [-2; 2]; [nan; infinity]]%float
    [[-1; 1]; [-2; 2]; [nan; infinity]]%float
  = Ok [[-1; 1]; [-2; 2]; [nan; infinity]]%float.
Proof.
  apply (bound_union_idempotent [[-1; 1]; [-2; 2]; [nan; infinity]]%float).
  unfold is_box. eauto 10.
Defined.

Lemma ltb_nonpos (x p : float) :
  (x <? p)%float = true -> (p <=? 0)%float = true -> (x <=? 0)%float = true.
Proof.
  rewrite ltb_spec, !leb_spec. change (Prim2SF 0) with (S754_zero false).
  unfold SFltb, SFleb.
  destruct (Prim2SF x) as [sx|sx| |sx mx ex], (Prim2SF p) as [sp|sp| |sp mp ep];
    cbn; try discriminate; try reflexivity;
    try (destruct sx; try discriminate; reflexivity);
    try (destruct sx, sp; try discriminate; reflexivity).
Qed.

Lemma ltb_nonneg (x p : float) :
  (p <? x)%float = true -> (0 <=? p)%float = true -> (0 <=? x)%float = true.
Proof.
  rewrite ltb_spec, !leb_spec. change (Prim2SF 0) with (S754_zero false).
  unfold SFltb, SFleb.
  destruct (Prim2SF x) as [sx|sx| |sx mx ex], (Prim2SF p) as [sp|sp| |sp mp ep];
    cbn; try discriminate; try reflexivity;
    try (destruct sx; try discriminate; reflexivity);
    try (destruct sp; try discriminate; reflexivity);
    try (destruct sx, sp; try discriminate; reflexivity).
Qed.

Lemma pymin_nonpos (a b : float) :
  (a <=? 0)%float = true -> (pymin a b <=? 0)%float = true.
Proof.
  intros H. unfold pymin. destruct (b <? a)%float eqn:E; [|exact H].
  exact (ltb_nonpos b a E H).
Qed.

Lemma pymax_nonneg (a b : float) :
  (0 <=? a)%float = true -> (0 <=? pymax a b)%float = true.
Proof.
  intros H. unfold pymax. destruct (a <? b)%float eqn:E; [|exact H].
  exact (ltb_nonneg b a E H).
Qed.

Lemma find_bounds_is_box (indicator : list float -> bool) (fuel : nat)
    (bounds : list (list float)) :
  find_bounds indicator fuel = Some bounds -> is_box bounds.
Proof.
  intros H.
  apply (find_bounds_more_fuel indicator fuel (fuel + 11)) in H; [|lia].
  destruct (find_bounds_locate indicator (fuel + 11) bounds ltac:(lia) H)
    as (x0 & x1 & y0 & y1 & z0 & z1 & -> & _).
  unfold is_box. eauto 10.
Qed.

Lemma union_around_origin (d found : list (list float)) :
  around_origin d -> is_box found ->
  exists new, bound_union d found = Ok new /\ around_origin new.
Proof.
  intros (x0 & x1 & y0 & y1 & z0 & z1 & -> & Hlo & Hhi)
         (u0 & u1 & v0 & v1 & w0 & w1 & ->).
  rewrite bound_union_boxes. eexists. split; [reflexivity|].
  unfold around_origin. eexists _, _, _, _, _, _. split; [reflexivity|].
  inversion Hlo as [|? ? L0 Hlo']; subst. inversion Hlo' as [|? ? L1 Hlo'']; subst.
  inversion Hlo'' as [|? ? L2 _]; subst.
  inversion Hhi as [|? ? U0 Hhi']; subst. inversion Hhi' as [|? ? U1 Hhi'']; subst.
  inversion Hhi'' as [|? ? U2 _]; subst.
  split; repeat constructor; (apply pymin_nonpos || apply pymax_nonneg); assumption.
Qed.

Lemma Indicators_loop_around_origin (fuel : nat) (functions : list indicator_fn) :
  forall d r,
    around_origin d ->
    fold_left (fun acc (function : indicator_fn) =>
                 obind acc (fun r =>
                 match r with
                 | Raise e => Some (Raise e)
                 | Ok bound =>
                     obind (find_bounds (on_point function) fuel)
                           (fun found => Some (bound_union bound found))
                 end))
              functions (Some (Ok d)) = Some r ->
    exists new, r = Ok new /\ around_origin new.
Proof.
  induction functions as [|f functions IH]; intros d r Hd H.
  - cbn in H. injection H as <-. eauto.
  - cbn [fold_left obind] in H.
    destruct (find_bounds (on_point f) fuel) as [found|] eqn:E; cbn [obind] in H.
    + destruct (union_around_origin d found Hd (find_bounds_is_box _ _ _ E))
        as (new & Hnew & Hbox).
      rewrite Hnew in H. exact (IH new r Hbox H).
    + exfalso. clear -H. induction functions as [|g l IHl]; cbn in H;
        [discriminate | auto].
Qed.

(** X14: when [Indicators] computes the bounds itself, it does not
    raise, and what it stores is a box around the origin: on every axis
    the lower bound is at most 0 and the upper bound at least 0,
    whatever the indicators are (the union starts from the box that is
    the origin alone). *)
Theorem Indicators_bound_around_origin (fns : functions_arg) (fuel : nat)
    (r : result Indicators) :
  Indicators_init fns None fuel = Some r ->
  exists self, r = Ok self /\ around_origin (bound self) /\
    List.length (functions self)
    = match fns with
      | OneFunction _ => 1%nat
      | FunctionList fs => List.length fs
      end.
Proof.
  unfold Indicators_init. intros H.
  match type of H with
  | obind ?loop _ = _ => destruct loop as [r0|] eqn:E; cbn [obind] in H;
                         [|discriminate H]
  end.
  assert (O : around_origin [[0; 0]; [0; 0]; [0; 0]]%float).
  { unfold around_origin. eexists _, _, _, _, _, _. split; [reflexivity|].
    split; repeat constructor. }
  destruct (Indicators_loop_around_origin fuel _ _ r0 O E) as (new & -> & Hnew).
  cbn [bind] in H. injection H as <-. eexists. split; [reflexivity|].
  split; [exact Hnew|]. cbn [functions]. rewrite length_map.
  destruct fns; reflexivity.
Qed.

Lemma Indicators_bound_around_origin_witness :
  exists self,
    Indicators_init (OneFunction (pointwise (in_ball 1))) None 400 = Some (Ok self) /\
    around_origin (bound self) /\
    List.length (functions self) = 1%nat.
Proof.
  destruct (Indicators_bound_around_origin (OneFunction (pointwise (in_ball 1))) 400
              (Ok (mkIndicators [vectorize (in_ball 1)]
                     [[-1.0717944050000008; 1.0717944050000008];
                      [-1.0717944050000008; 1.0717944050000008];
                      [-1.0717944050000008; 1.0717944050000008]]%float)))
    as (self & Hself & Hbox & Hlen).
  - vm_compute. reflexivity.
  - exists self. split; [|split; assumption].
    rewrite <- Hself. vm_compute. reflexivity.
Defined.

(* ================================================================== *)
(** * Scatterer._index_type                                           *)
(* ================================================================== *)

(** X15: [index_at] returns a [float64] array exactly when
    [_index_type] answers [float] for the same background and the
    background is given as a real number; in every other case the array
    is complex.  The two methods decide on the imaginary parts of [n]
    and of the background in the same way. *)
Theorem index_at_dtype (self : Scatterer) (points : points_arg)
    (background : scalar) (index : ndarray) :
  index_at self points background = Ok index ->
  ((exists xs, index = FArr xs) <->
   (_index_type self background = Float64 /\ exists b, background = Real b)).
Proof.
  unfold index_at. destruct (in_domain self points) as [domains|e]; [|discriminate].
  cbn [bind]. intros H. injection H as <-.
  set (dt := if existsb iscomplex (arr_items (n self) ++ [background])
             then Complex128 else Float64).
  assert (Hdt : dt = _index_type self background).
  { unfold dt, _index_type. rewrite existsb_app. cbn. rewrite orb_false_r.
    reflexivity. }
  set (index0 := np_mul_scalar (np_ones_like (List.length domains) dt) background).
  destruct (background_array (List.length domains) dt background) as (L0 & _ & F0).
  fold index0 in L0, F0.
  destruct (index_at_loop domains (arr_items (n self)) 0 index0 L0) as (K & _ & _).
  unfold enumerate. cbn zeta in K.
  match goal with
  | |- (exists xs, ?f = FArr xs) <-> _ => set (final := f) in *
  end.
  rewrite <- Hdt. split.
  - intros [xs Hxs]. rewrite Hxs in K. destruct index0 as [ys|ys] eqn:E; [|destruct K].
    exact (F0 ys eq_refl).
  - intros [Hf [b ->]]. unfold index0 in K. rewrite Hf in K. cbn in K.
    destruct final as [xs|xs]; [eauto | destruct K].
Qed.

Lemma index_at_dtype_witness :
  index_at layered_sphere probe_points (Real 1)
  = Ok (FArr [1.59; 1.33; 1; 1.59]%float) /\
  _index_type layered_sphere (Real 1) = Float64.
Proof.
  split; [vm_compute; reflexivity|].
  apply (proj1 (index_at_dtype layered_sphere probe_points (Real 1)
                  (FArr [1.59; 1.33; 1; 1.59]%float)
                  ltac:(vm_compute; reflexivity))).
  eauto.
Defined.

(* ================================================================== *)
(** * Minimizer.minimize: what the solver is given                    *)
(* ================================================================== *)

Lemma nmp_par_fields (par : FitParameter) (d : parinfo) :
  nmp_par par = Ok d ->
  parname d = name par /\
  exists g, guess par = Some g /\ scale par (VNum g) = Ok (value_ d).
Proof.
  unfold nmp_par, bind. intros H.
  repeat match goal with
         | E : Ok _ = Ok _ |- _ => injection E as <-
         | E : Raise _ = Ok _ |- _ => discriminate E
         | E : context [match ?x with _ => _ end] |- _ => destruct x eqn:?
         end;
    cbn; eauto.
Qed.

(** X16: the fit starts from the vector of ones.  For parameters whose
    scale factor is their guess, as the constructor sets it, finite and
    not zero, and whose limit is absent or has both sides, [minimize]
    calls the solver with one entry per parameter, in the order of the
    list and under the parameter's name, and the start value of each is
    exactly 1; it returns what the solver returns. *)
Theorem minimize_starts_at_one (Residual Selection : Type)
    (mpfit : (list float -> Z * Residual) -> list parinfo -> mpfit_result)
    (cost_func : list float -> option Selection -> Residual)
    (selection : option Selection) (parameters : list FitParameter) :
  parameters <> [] ->
  Forall (fun p => guess p = Some (scale_factor p) /\
                   is_finite (float_of (scale_factor p)) = true /\
                   is_zero (float_of (scale_factor p)) = false /\
                   (limit p = None \/
                    exists lo hi, limit p = Some (Some lo, Some hi)))
         parameters ->
  exists infos,
    minimize mpfit Minimizer_default parameters cost_func selection
    = (let fitresult := mpfit (resid_wrapper cost_func selection) infos in
       Ok (Some (params fitresult, (status fitresult <? 4)%Z, fitresult))) /\
    map parname infos = map name parameters /\
    Forall (fun d => exists one, value_ d = VNum one /\ float_of one = 1%float)
           infos.
Proof.
  intros Hne Hall.
  assert (G : exists infos,
            mapM nmp_par parameters = Ok infos /\
            map parname infos = map name parameters /\
            Forall (fun d => exists one, value_ d = VNum one /\
                                         float_of one = 1%float) infos).
  { clear Hne. induction Hall as [|p ps (Hg & Hf & Hz & Hl) _ IH].
    - exists []. cbn. auto.
    - destruct IH as (infos & Hm & Hn & Hv).
      destruct (nmp_par_builds p _ Hg Hz Hl) as [d Hd].
      destruct (nmp_par_fields p d Hd) as (Hname & g & Hg' & Hs).
      assert (g = scale_factor p) by congruence. subst g.
      exists (d :: infos). cbn. rewrite Hd, Hm. cbn.
      split; [reflexivity|]. split; [congruence|].
      constructor; [|exact Hv].
      cbn in Hs. rewrite (truediv_self _ Hf Hz) in Hs. cbn in Hs.
      injection Hs as Hs. rewrite <- Hs.
      destruct (scale_factor p); eexists; split; reflexivity. }
  destruct G as (infos & Hm & Hn & Hv). exists infos.
  split; [|split; assumption].
  exact (minimize_returns Residual Selection mpfit cost_func selection
           parameters infos Hne Hm).
Qed.

Lemma minimize_starts_at_one_witness :
  exists infos,
    minimize (mpfit_stub 1) Minimizer_default [par_r; par_x] cost_stub None
    = Ok (Some ([1; 1]%float, true, mkFit 1 [1; 1]%float)) /\
    map parname infos = ["r"; "x"]%string.
Proof.
  destruct (minimize_starts_at_one unit unit (mpfit_stub 1) cost_stub None
              [par_r; par_x])
    as (infos & Hm & Hn & _).
  - discriminate.
  - repeat constructor; cbn; auto.
  - exists infos. split; [vm_compute; reflexivity | exact Hn].
Defined.

(* ================================================================== *)
(** * The property guess and the flat dictionary                      *)
(* ================================================================== *)

(** X17: the property [guess] of a [CenteredScatterer] never returns a
    scatterer: it ends in [from_parameters], which raises for every
    dictionary it is given. *)
Theorem CenteredScatterer_guess_raises (self : Centered.CenteredScatterer) :
  exists e, CenteredScatterer_guess self = Raise e.
Proof. unfold CenteredScatterer_guess. apply from_parameters_never_returns. Qed.

Fixpoint expand_obj_leaves (par : Centered.pyobj) {struct par} :
  forall key, Forall (fun kv => is_leaf (snd kv)) (Centered.expand_obj key par).
Proof.
  destruct par as [| x | re im | xs | items | g]; intros key; cbn;
    try (constructor; [exact I | constructor]).
  - generalize 0%nat. induction xs as [|x xs IH]; intros i.
    + constructor.
    + apply Forall_app. split; [apply expand_obj_leaves | apply IH].
  - induction items as [|[k v] items IH].
    + constructor.
    + apply Forall_app. split; [apply expand_obj_leaves | apply IH].
Qed.

Lemma dict_set_values (P : Centered.pyobj -> Prop) (d : Centered.dict)
    (key : string) (v : Centered.pyobj) :
  Forall (fun kv => P (snd kv)) d -> P v ->
  Forall (fun kv => P (snd kv)) (Centered.dict_set d key v).
Proof.
  intros Hd Hv. induction Hd as [|[k w] d Hkw Hd IH]; cbn.
  - constructor; [exact Hv | constructor].
  - destruct (String.eqb k key); constructor; auto.
Qed.

Lemma dict_of_values (P : Centered.pyobj -> Prop)
    (pairs : list (string * Centered.pyobj)) :
  Forall (fun kv => P (snd kv)) pairs ->
  Forall (fun kv => P (snd kv)) (Centered.dict_of pairs).
Proof.
  unfold Centered.dict_of. intros Hp.
  assert (G : forall (d : Centered.dict),
            Forall (fun kv => P (snd kv)) d ->
            Forall (fun kv => P (snd kv))
              (fold_left (fun d kv => Centered.dict_set d (fst kv) (snd kv)) pairs d)).
  { induction Hp as [|kv pairs Hkv _ IH]; intros d Hd; cbn; [exact Hd|].
    apply IH. apply dict_set_values; assumption. }
  apply G. constructor.
Qed.

(** X18: the flat dictionary holds no list and no dictionary: whatever
    is nested in the attributes, [_expand_parameters] takes lists and
    dictionaries apart down to [None], numbers and priors, for every
    base key. *)
Theorem expand_parameters_leaves (pairs : list (string * Centered.pyobj))
    (basekey : string) :
  Forall (fun kv => is_leaf (snd kv)) (Centered.expand_parameters pairs basekey) /\
  Forall (fun kv => is_leaf (snd kv))
         (Centered.dict_of (Centered.expand_parameters pairs basekey)).
Proof.
  assert (H : Forall (fun kv => is_leaf (snd kv))
                (Centered.expand_parameters pairs basekey)).
  { unfold Centered.expand_parameters. induction pairs as [|kv pairs IH]; cbn.
    - constructor.
    - apply Forall_app. split; [apply expand_obj_leaves | exact IH]. }
  split; [exact H | apply dict_of_values, H].
Qed.

(* ================================================================== *)
(** * extract_pars inverts the flattening                             *)
(* ================================================================== *)

Lemma dict_set_new (d : Centered.dict) (k : string) (v : Centered.pyobj) :
  ~ In k (map fst d) -> Centered.dict_set d k v = d ++ [(k, v)].
Proof.
  induction d as [|[k0 w] d IH]; cbn; intros H; [reflexivity|].
  destruct (String.eqb k0 k) eqn:E.
  - apply String.eqb_eq in E. tauto.
  - rewrite IH by tauto. reflexivity.
Qed.

Lemma dict_of_NoDup (pairs : list (string * Centered.pyobj)) :
  NoDup (map fst pairs) -> Centered.dict_of pairs = pairs.
Proof.
  unfold Centered.dict_of. intros H.
  assert (G : forall acc : Centered.dict,
            NoDup (map fst acc ++ map fst pairs) ->
            fold_left (fun d kv => Centered.dict_set d (fst kv) (snd kv)) pairs acc
            = acc ++ pairs).
  { clear H. induction pairs as [|[k v] pairs IH]; intros acc Hnd; cbn.
    - rewrite app_nil_r. reflexivity.
    - cbn in Hnd. rewrite dict_set_new.
      + rewrite IH; [rewrite <- app_assoc; reflexivity|].
        rewrite map_app, <- app_assoc. exact Hnd.
      + intros Hin. apply NoDup_remove_2 in Hnd. apply Hnd, in_or_app. auto. }
  apply (G []). exact H.
Qed.

Lemma dedup_NoDup (keys : list string) : NoDup keys -> Centered.dedup keys = keys.
Proof.
  induction 1 as [|k keys Hk _ IH]; cbn; [reflexivity|].
  rewrite IH. f_equal. clear IH.
  induction keys as [|k' keys IH]; cbn; [reflexivity|].
  destruct (String.eqb k' k) eqn:E.
  - apply String.eqb_eq in E. subst. exfalso. apply Hk. left. reflexivity.
  - cbn. rewrite IH; [reflexivity|]. intros H. apply Hk. right. exact H.
Qed.

Lemma dict_get_NoDup (pre suf : Centered.dict) (k : string) (v : Centered.pyobj) :
  ~ In k (map fst pre) -> Centered.dict_get (pre ++ (k, v) :: suf) k = Some v.
Proof.
  induction pre as [|[k0 w] pre IH]; cbn; intros H.
  - rewrite String.eqb_refl. reflexivity.
  - destruct (String.eqb k0 k) eqn:E.
    + apply String.eqb_eq in E. tauto.
    + apply IH. tauto.
Qed.

Lemma dict_has_last (d : Centered.dict) (k : string) (v : Centered.pyobj) :
  Centered.dict_has (d ++ [(k, v)]) k = true.
Proof.
  unfold Centered.dict_has. induction d as [|[k0 w] d IH]; cbn.
  - rewrite String.eqb_refl. reflexivity.
  - destruct (String.eqb k0 k); [reflexivity | exact IH].
Qed.

(** [extract_pars] on a dictionary whose keys have no delimiter: every
    entry is kept, a prior replaced by its guess; one level of fuel is
    all it takes. *)
Lemma extract_flat_loop (extract : Centered.dict -> result Centered.dict)
    (raw_pars : Centered.dict) :
  NoDup (map fst raw_pars) ->
  forall pre suf, raw_pars = pre ++ suf ->
    fold_left (fun (acc : result Centered.dict) (subkey : string) =>
                 out_dict <- acc ;;
                 Centered.extract_subkey extract raw_pars out_dict subkey)
              (map fst suf)
              (Ok (map (fun kv => (fst kv, guess_of (snd kv))) pre))
    = Ok (map (fun kv => (fst kv, guess_of (snd kv))) raw_pars).
Proof.
  intros Hnd pre suf. revert pre. induction suf as [|[k v] suf IH]; intros pre E.
  - cbn. rewrite E, app_nil_r. reflexivity.
  - cbn [map fold_left fst bind].
    assert (Hk : ~ In k (map fst pre)).
    { rewrite E, map_app in Hnd. cbn in Hnd.
      apply NoDup_remove_2 in Hnd. intros H. apply Hnd, in_or_app. auto. }
    unfold Centered.extract_subkey at 2.
    rewrite E at 1. rewrite (dict_get_NoDup pre suf k v Hk). cbn [bind].
    rewrite dict_set_new by (rewrite map_map; cbn; exact Hk).
    rewrite dict_has_last.
    change (match v with
            | Centered.PPrior guess => Centered.PFloat guess
            | _ => v
            end) with (guess_of v).
    change (map (fun kv => (fst kv, guess_of (snd kv))) pre ++ [(k, guess_of v)])
      with (map (fun kv => (fst kv, guess_of (snd kv))) pre
            ++ map (fun kv => (fst kv, guess_of (snd kv))) [(k, v)]).
    rewrite <- map_app. apply IH. rewrite E, <- app_assoc. reflexivity.
Qed.

Lemma extract_pars_fuel_plain (fuel : nat) (raw_pars : Centered.dict) :
  NoDup (map fst raw_pars) ->
  Forall (fun kv => plain_key (fst kv)) raw_pars ->
  Centered.extract_pars_fuel (S fuel) raw_pars
  = Ok (map (fun kv => (fst kv, guess_of (snd kv))) raw_pars).
Proof.
  intros Hnd Hplain. cbn [Centered.extract_pars_fuel].
  assert (Hs : map (fun kv => Centered.before "_" (Centered.before "." (fst kv)))
                 raw_pars = map fst raw_pars).
  { clear Hnd. induction Hplain as [|kv d Hkv _ IH]; cbn; [reflexivity|].
    rewrite IH. f_equal. exact Hkv. }
  rewrite Hs, (dedup_NoDup _ Hnd).
  apply (extract_flat_loop _ raw_pars Hnd [] raw_pars eq_refl).
Qed.

Lemma expand_leaves_id (pairs : list (string * Centered.pyobj)) :
  Forall (fun kv => is_leaf (snd kv)) pairs ->
  Centered.expand_parameters pairs "" = pairs.
Proof.
  unfold Centered.expand_parameters.
  induction 1 as [|[k v] pairs Hv _ IH]; [reflexivity|].
  cbn [flat_map fst snd]. rewrite IH. change ("" ++ k)%string with k.
  destruct v; cbn in Hv |- *; try reflexivity; destruct Hv.
Qed.

Lemma dict_get_In (d : Centered.dict) (k : string) :
  In k (map fst d) -> exists v, Centered.dict_get d k = Some v.
Proof.
  induction d as [|[k0 w] d IH]; cbn; [tauto|]. intros H.
  destruct (String.eqb k0 k) eqn:E; [eauto|].
  apply String.eqb_neq in E. destruct H as [H|H]; [congruence | exact (IH H)].
Qed.

Lemma dict_get_not_In (d : Centered.dict) (k : string) :
  ~ In k (map fst d) -> Centered.dict_get d k = None.
Proof.
  induction d as [|[k0 w] d IH]; cbn; [reflexivity|]. intros H.
  destruct (String.eqb k0 k) eqn:E.
  - apply String.eqb_eq in E. tauto.
  - apply IH. tauto.
Qed.

Lemma dict_get_keyed (g : string -> Centered.pyobj) (keys : list string)
    (key : string) :
  In key keys ->
  Centered.dict_get (map (fun k => (k, g k)) keys) key = Some (g key).
Proof.
  induction keys as [|k keys IH]; cbn; [tauto|]. intros H.
  destruct (String.eqb k key) eqn:E.
  - apply String.eqb_eq in E. subst. reflexivity.
  - apply String.eqb_neq in E. destruct H as [H|H]; [congruence | exact (IH H)].
Qed.

(** The loop over keys that the raw dictionary holds, in any order:
    every key gets its value, a prior replaced by its guess. *)
Lemma extract_any_order_loop (extract : Centered.dict -> result Centered.dict)
    (raw_pars : Centered.dict) (keys : list string) :
  forall acc : Centered.dict,
    NoDup (map fst acc ++ keys) ->
    (forall k, In k keys -> In k (map fst raw_pars)) ->
    fold_left (fun (acc : result Centered.dict) (subkey : string) =>
                 out_dict <- acc ;;
                 Centered.extract_subkey extract raw_pars out_dict subkey)
              keys (Ok acc)
    = Ok (acc ++ map (fun k => (k, guess_of (match Centered.dict_get raw_pars k with
                                              | Some v => v
                                              | None => Centered.PNone
                                              end))) keys).
Proof.
  induction keys as [|k keys IH]; intros acc Hnd Hin.
  - cbn. rewrite app_nil_r. reflexivity.
  - cbn [fold_left bind map].
    destruct (dict_get_In raw_pars k (Hin k (or_introl eq_refl))) as [v Hv].
    assert (Hnew : ~ In k (map fst acc)).
    { intros Hacc. apply NoDup_remove_2 in Hnd. apply Hnd, in_or_app. auto. }
    unfold Centered.extract_subkey at 2. rewrite Hv. cbn [bind].
    rewrite (dict_set_new acc k _ Hnew), dict_has_last.
    change (match v with
            | Centered.PPrior guess => Centered.PFloat guess
            | _ => v
            end) with (guess_of v).
    etransitivity; [apply IH|].
    + rewrite map_app, <- app_assoc. exact Hnd.
    + intros k' Hk'. apply Hin. right. exact Hk'.
    + rewrite <- app_assoc. reflexivity.
Qed.

(** X19: for a dictionary of attributes that are [None], numbers or
    priors, under distinct names without delimiter, the flat dictionary
    holds the same items, and [extract_pars] gives back a dictionary
    that binds every name to its value, a prior replaced by its guess,
    and nothing else.  This holds for every order in which the set of
    subkeys is iterated; the order of the result is that order. *)
Theorem extract_pars_inverts_flat (attrs : list (string * Centered.pyobj)) :
  NoDup (map fst attrs) ->
  Forall (fun kv => plain_key (fst kv) /\ is_leaf (snd kv)) attrs ->
  let raw_pars := Centered.dict_of (Centered.expand_parameters attrs "") in
  (forall key, Centered.dict_get raw_pars key = Centered.dict_get attrs key) /\
  (forall extract keys,
     Permutation keys
       (Centered.dedup
          (map (fun kv => Centered.before "_" (Centered.before "." (fst kv)))
               raw_pars)) ->
     exists out,
       extract_pars_in_order extract raw_pars keys = Ok out /\
       map fst out = keys /\
       forall key, Centered.dict_get out key
                   = option_map guess_of (Centered.dict_get attrs key)) /\
  (exists out,
     Centered.extract_pars raw_pars = Ok out /\
     forall key, Centered.dict_get out key
                 = option_map guess_of (Centered.dict_get attrs key)).
Proof.
  intros Hnd Hall raw_pars.
  assert (Hl : Forall (fun kv => is_leaf (snd kv)) attrs)
    by (eapply Forall_impl; [|exact Hall]; cbn; tauto).
  assert (Hp : Forall (fun kv => plain_key (fst kv)) attrs)
    by (eapply Forall_impl; [|exact Hall]; cbn; tauto).
  assert (Hraw : raw_pars = attrs).
  { unfold raw_pars. rewrite (expand_leaves_id attrs Hl). apply dict_of_NoDup, Hnd. }
  rewrite Hraw. clear raw_pars Hraw.
  assert (Hs : Centered.dedup
                 (map (fun kv => Centered.before "_" (Centered.before "." (fst kv)))
                      attrs) = map fst attrs).
  { rewrite <- (dedup_NoDup _ Hnd). f_equal.
    clear Hnd Hall Hl. induction Hp as [|kv d Hkv _ IH]; cbn; [reflexivity|].
    rewrite IH. f_equal. exact Hkv. }
  assert (G : forall extract keys,
            Permutation keys (map fst attrs) ->
            exists out,
              extract_pars_in_order extract attrs keys = Ok out /\
              map fst out = keys /\
              forall key, Centered.dict_get out key
                          = option_map guess_of (Centered.dict_get attrs key)).
  { intros extract keys Hperm.
    pose proof (extract_any_order_loop extract attrs keys []
                  (Permutation_NoDup (Permutation_sym Hperm) Hnd)
                  (fun k Hk => Permutation_in _ Hperm Hk)) as L.
    cbn [app] in L. eexists. split; [exact L|]. split.
    - rewrite map_map. cbn. apply map_id.
    - intros key. destruct (in_dec string_dec key keys) as [Hin|Hnot].
      + rewrite (dict_get_keyed _ keys key Hin).
        destruct (dict_get_In attrs key) as [v Hv];
          [apply (Permutation_in _ Hperm), Hin|].
        rewrite Hv. reflexivity.
      + rewrite dict_get_not_In by (rewrite map_map; cbn; rewrite map_id; exact Hnot).
        rewrite dict_get_not_In; [reflexivity|].
        intros Hin. apply Hnot.
        apply (Permutation_in _ (Permutation_sym Hperm)), Hin. }
  split; [reflexivity|]. split.
  - intros extract keys Hperm. rewrite Hs in Hperm. apply G, Hperm.
  - destruct (G (Centered.extract_pars_fuel (Centered.longest_key attrs))
                (map fst attrs) (Permutation_refl _)) as (out & Hout & _ & Hget).
    exists out. split; [|exact Hget].
    unfold Centered.extract_pars. cbn [Centered.extract_pars_fuel].
    rewrite Hs. exact Hout.
Qed.

Lemma extract_pars_inverts_flat_witness :
  let attrs := [("r"%string, Centered.PPrior 0.5);
                ("n"%string, Centered.PComplex 1.59 0.01)] in
  let raw_pars := Centered.dict_of (Centered.expand_parameters attrs "") in
  extract_pars_in_order (fun _ => Raise RecursionError) raw_pars ["n"; "r"]%string
  = Ok [("n"%string, Centered.PComplex 1.59 0.01); ("r"%string, Centered.PFloat 0.5)] /\
  extract_pars_in_order (fun _ => Raise RecursionError) raw_pars ["r"; "n"]%string
  = Ok [("r"%string, Centered.PFloat 0.5); ("n"%string, Centered.PComplex 1.59 0.01)] /\
  (exists out,
     extract_pars_in_order (fun _ => Raise RecursionError) raw_pars ["n"; "r"]%string
     = Ok out /\
     Centered.dict_get out "r" = Some (Centered.PFloat 0.5) /\
     Centered.dict_get out "n" = Some (Centered.PComplex 1.59 0.01) /\
     Centered.dict_get out "x" = None).
Proof.
  split; [vm_compute; reflexivity|]. split; [vm_compute; reflexivity|].
  destruct (extract_pars_inverts_flat
              [("r"%string, Centered.PPrior 0.5);
               ("n"%string, Centered.PComplex 1.59 0.01)])
    as (_ & Hany & _).
  - repeat constructor; cbn; intuition discriminate.
  - repeat constructor.
  - destruct (Hany (fun _ => Raise RecursionError) ["n"; "r"]%string)
      as (out & Hout & _ & Hget).
    + apply perm_swap.
    + exists out. split; [exact Hout|]. rewrite !Hget. repeat split.
Defined.

(** ** A list attribute *)

Lemma str_nat_inj (i j : nat) : Centered.str_nat i = Centered.str_nat j -> i = j.
Proof.
  unfold Centered.str_nat. intros H. apply Unsigned.to_uint_inj.
  assert (E : Some (Nat.to_uint i) = Some (Nat.to_uint j))
    by (rewrite <- !NilEmpty.usu, H; reflexivity).
  injection E as E. exact E.
Qed.

Lemma str_nat_plain (i : nat) : plain_key (Centered.str_nat i).
Proof.
  unfold plain_key, Centered.str_nat.
  induction (Nat.to_uint i) as [|d IH|d IH|d IH|d IH|d IH|d IH|d IH|d IH|d IH|d IH];
    cbn; [reflexivity | rewrite IH; reflexivity ..].
Qed.

Lemma before_fixed (c : ascii) (s t : string) :
  Centered.before c s = s -> Centered.before c (s ++ String c t) = s.
Proof.
  induction s as [|a s IH]; cbn.
  - rewrite Ascii.eqb_refl. reflexivity.
  - destruct (Ascii.eqb a c); [discriminate|].
    intros H. injection H as H. rewrite (IH H). reflexivity.
Qed.

Lemma plain_key_parts (key : string) :
  plain_key key ->
  Centered.before "." key = key /\ Centered.before "_" key = key.
Proof.
  unfold plain_key. induction key as [|a key IH]; cbn; [auto|].
  destruct (Ascii.eqb a ".") eqn:E1; cbn; [discriminate|].
  destruct (Ascii.eqb a "_") eqn:E2; cbn; [discriminate|].
  intros H. injection H as H. destruct (IH H) as [H1 H2].
  rewrite H1, H2. auto.
Qed.

Lemma prefix_append (s t : string) : String.prefix s (s ++ t) = true.
Proof.
  induction s as [|a s IH]; cbn; [destruct t; reflexivity|].
  destruct (ascii_dec a a); [exact IH | congruence].
Qed.

Lemma drop_append (s t : string) (c : ascii) :
  Centered.drop (String.length s + 1) (s ++ String c t) = t.
Proof. induction s as [|a s IH]; cbn; [reflexivity | exact IH]. Qed.

Lemma get_append (s t : string) (c : ascii) :
  String.get (String.length s) (s ++ String c t) = Some c.
Proof. induction s as [|a s IH]; cbn; [reflexivity | exact IH]. Qed.

Lemma append_inj (s t u : string) : (s ++ t = s ++ u)%string -> t = u.
Proof.
  induction s as [|a s IH]; cbn; [auto|]. intros H. injection H as H. auto.
Qed.

Lemma append_longer (s t : string) (c : ascii) : (s ++ String c t)%string <> s.
Proof.
  induction s as [|a s IH]; cbn; [discriminate|]. intros H. injection H as H. auto.
Qed.

(** The flat entries of a list of leaves under [key], numbered from
    [i]. *)
Lemma expand_list_leaves (key : string) (leaves : list Centered.pyobj) :
  Forall is_leaf leaves ->
  Centered.expand_obj key (Centered.PList leaves)
  = map (fun ix => ((key ++ "." ++ Centered.str_nat (fst ix))%string, snd ix))
        (combine (seq 0 (List.length leaves)) leaves).
Proof.
  intros H. cbn [Centered.expand_obj]. generalize 0%nat.
  induction H as [|x xs Hx _ IH]; intros i; [reflexivity|].
  cbn [List.length seq combine map fst snd]. rewrite IH.
  destruct x; cbn in Hx |- *; try reflexivity; destruct Hx.
Qed.

Lemma NoDup_map_injective {A B : Type} (f : A -> B) (l : list A) :
  (forall x y, f x = f y -> x = y) -> NoDup l -> NoDup (map f l).
Proof.
  intros Hinj. induction 1 as [|x l Hx _ IH]; cbn; constructor; [|exact IH].
  intros H. apply in_map_iff in H. destruct H as (y & E & Hy).
  apply Hinj in E. subst. exact (Hx Hy).
Qed.

Lemma combine_seq_fst {A : Type} (i : nat) (xs : list A) :
  map fst (combine (seq i (List.length xs)) xs) = seq i (List.length xs).
Proof.
  revert i. induction xs as [|x xs IH]; intros i; cbn; [reflexivity|].
  rewrite IH. reflexivity.
Qed.

(** [subset] and [delimchar] for the keys [name.i]. *)
Lemma clip_items_list (name : string) (ixs : list (nat * Centered.pyobj)) :
  forall (pre : list (nat * Centered.pyobj)) (raw : Centered.dict) (dl : option ascii),
    NoDup (map fst (pre ++ ixs)) ->
    fold_left (fun (acc : Centered.dict * option ascii) (kv : string * Centered.pyobj) =>
                 if String.prefix name (fst kv)
                 then (Centered.dict_set (fst acc)
                         (Centered.drop (String.length name + 1) (fst kv)) (snd kv),
                       String.get (String.length name) (fst kv))
                 else acc)
              (map (fun ix => ((name ++ "." ++ Centered.str_nat (fst ix))%string,
                               snd ix)) ixs)
              (map (fun ix => (Centered.str_nat (fst ix), snd ix)) pre, dl)
    = (map (fun ix => (Centered.str_nat (fst ix), snd ix)) (pre ++ ixs),
       match ixs with [] => dl | _ => Some "."%char end).
Proof.
  induction ixs as [|[i x] ixs IH]; intros pre raw dl Hnd.
  - cbn. rewrite app_nil_r. reflexivity.
  - cbn [map fold_left fst snd]. rewrite prefix_append.
    change (name ++ "." ++ Centered.str_nat i)%string
      with (name ++ String "." (Centered.str_nat i))%string.
    rewrite drop_append, get_append.
    rewrite dict_set_new.
    + change (map (fun ix => (Centered.str_nat (fst ix), snd ix)) pre
              ++ [(Centered.str_nat i, x)])
        with (map (fun ix => (Centered.str_nat (fst ix), snd ix)) pre
              ++ map (fun ix => (Centered.str_nat (fst ix), snd ix)) [(i, x)]).
      rewrite <- map_app.
      assert (Hnd' : NoDup (map fst ((pre ++ [(i, x)]) ++ ixs)))
        by (rewrite <- app_assoc; exact Hnd).
      etransitivity; [exact (IH (pre ++ [(i, x)]) raw (Some "."%char) Hnd')|].
      rewrite <- app_assoc. cbn. destruct ixs; reflexivity.
    + rewrite map_map. cbn. intros Hin. apply in_map_iff in Hin.
      destruct Hin as ([j y] & E & Hj). cbn in E. apply str_nat_inj in E. subst j.
      rewrite map_app in Hnd. cbn in Hnd. apply NoDup_remove_2 in Hnd.
      apply Hnd, in_or_app. left. apply in_map_iff. exists (i, y). auto.
Qed.

Lemma clip_items_indexed (name : string) (ixs : list (nat * Centered.pyobj)) :
  NoDup (map fst ixs) -> ixs <> [] ->
  Centered.clip_items name
    (map (fun ix => ((name ++ "." ++ Centered.str_nat (fst ix))%string, snd ix)) ixs)
  = (map (fun ix => (Centered.str_nat (fst ix), snd ix)) ixs, Some "."%char).
Proof.
  intros Hnd Hne. unfold Centered.clip_items.
  etransitivity; [exact (clip_items_list name ixs [] [] None Hnd)|].
  destruct ixs; [congruence | reflexivity].
Qed.

Lemma lookup_indices (ys : list Centered.pyobj) :
  forall (i0 : nat) (pre : Centered.dict),
    Forall (fun kv => exists j, (j < i0)%nat /\ fst kv = Centered.str_nat j) pre ->
    mapM (fun i => match Centered.dict_get
                           (pre ++ map (fun ix => (Centered.str_nat (fst ix), snd ix))
                                       (combine (seq i0 (List.length ys)) ys))
                           (Centered.str_nat i) with
                   | Some v => Ok v
                   | None => Raise KeyError
                   end)
         (seq i0 (List.length ys))
    = Ok ys.
Proof.
  induction ys as [|y ys IH]; intros i0 pre Hpre; [reflexivity|].
  cbn [List.length seq combine map fst snd mapM].
  rewrite dict_get_NoDup.
  - cbn [bind].
    replace (pre ++ (Centered.str_nat i0, y)
                 :: map (fun ix => (Centered.str_nat (fst ix), snd ix))
                        (combine (seq (S i0) (List.length ys)) ys))
      with ((pre ++ [(Centered.str_nat i0, y)])
            ++ map (fun ix => (Centered.str_nat (fst ix), snd ix))
                   (combine (seq (S i0) (List.length ys)) ys))
      by (rewrite <- app_assoc; reflexivity).
    rewrite IH; [reflexivity|].
    apply Forall_app. split.
    + eapply Forall_impl; [|exact Hpre]. cbn. intros kv (j & Hj & E). exists j.
      split; [lia | exact E].
    + constructor; [|constructor]. exists i0. split; [lia | reflexivity].
  - intros Hin. apply in_map_iff in Hin. destruct Hin as (kv & E & Hkv).
    rewrite Forall_forall in Hpre. destruct (Hpre kv Hkv) as (j & Hj & E').
    rewrite E' in E. apply str_nat_inj in E. lia.
Qed.

(** X20: an attribute that is a nonempty list of numbers or priors,
    under a name without delimiter, is flattened into the keys [name.0],
    [name.1], ..., and [extract_pars] puts the list together again, in
    order, with every prior replaced by its guess. *)
Theorem extract_pars_inverts_list (name : string) (leaves : list Centered.pyobj) :
  plain_key name -> leaves <> [] -> Forall is_leaf leaves ->
  Centered.dict_of (Centered.expand_parameters [(name, Centered.PList leaves)] "")
  = map (fun ix => ((name ++ "." ++ Centered.str_nat (fst ix))%string, snd ix))
        (combine (seq 0 (List.length leaves)) leaves) /\
  Centered.extract_pars
    (Centered.dict_of (Centered.expand_parameters [(name, Centered.PList leaves)] ""))
  = Ok [(name, Centered.PList (map guess_of leaves))].
Proof.
  intros Hname Hne Hleaves.
  set (ixs := combine (seq 0 (List.length leaves)) leaves).
  set (raw := map (fun ix => ((name ++ "." ++ Centered.str_nat (fst ix))%string,
                              snd ix)) ixs).
  assert (Hix : NoDup (map fst ixs)).
  { unfold ixs. rewrite combine_seq_fst. apply seq_NoDup. }
  assert (Hflat : Centered.dict_of
                    (Centered.expand_parameters [(name, Centered.PList leaves)] "")
                  = raw).
  { unfold Centered.expand_parameters. cbn [flat_map fst snd].
    change ("" ++ name)%string with name.
    rewrite app_nil_r, (expand_list_leaves name leaves Hleaves). fold ixs. fold raw.
    apply dict_of_NoDup. unfold raw. rewrite map_map. cbn [fst].
    rewrite <- (map_map fst (fun i => (name ++ "." ++ Centered.str_nat i)%string)).
    apply NoDup_map_injective; [|exact Hix].
    intros i j E. apply append_inj in E. injection E as E.
    exact (str_nat_inj _ _ E). }
  rewrite Hflat. split; [reflexivity|].
  destruct (plain_key_parts name Hname) as [Hdot Hund].
  (* the one subkey *)
  assert (Hix_ne : ixs <> []).
  { unfold ixs. destruct leaves; [congruence | discriminate]. }
  assert (Hsub : Centered.dedup
                   (map (fun kv => Centered.before "_" (Centered.before "." (fst kv)))
                        raw) = [name]).
  { unfold raw. rewrite map_map. cbn [fst].
    assert (E : forall l : list (nat * Centered.pyobj),
              map (fun ix => Centered.before "_"
                               (Centered.before "."
                                  (name ++ "." ++ Centered.str_nat (fst ix))))
                  l = map (fun _ => name) l).
    { intros l. apply map_ext. intros ix.
      change (name ++ "." ++ Centered.str_nat (fst ix))%string
        with (name ++ String "." (Centered.str_nat (fst ix)))%string.
      rewrite (before_fixed "." name _ Hdot). exact Hund. }
    rewrite E. destruct ixs as [|ix l]; [congruence|]. cbn. f_equal.
    clear. induction l as [|a l IH]; cbn; [reflexivity|].
    rewrite IH. cbn. rewrite String.eqb_refl. reflexivity. }
  unfold Centered.extract_pars. cbn [Centered.extract_pars_fuel].
  rewrite Hsub. cbn [fold_left bind]. unfold Centered.extract_subkey.
  (* [name] itself is no key *)
  assert (Hget : Centered.dict_get raw name = None).
  { unfold raw. clear. induction ixs as [|ix l IH]; cbn; [reflexivity|].
    destruct (String.eqb _ name) eqn:E; [|exact IH].
    apply String.eqb_eq in E. exfalso.
    exact (append_longer name (Centered.str_nat (fst ix)) "." E). }
  rewrite Hget. unfold raw at 1.
  rewrite (clip_items_indexed name ixs Hix Hix_ne). fold raw.
  set (subset := map (fun ix => (Centered.str_nat (fst ix), snd ix)) ixs).
  (* the recursive call, on keys without delimiter *)
  assert (Hfuel : exists f, Centered.longest_key raw = S f).
  { assert (Hlong : (1 <= Centered.longest_key raw)%nat).
    { unfold raw. destruct ixs as [|ix0 ixs']; [congruence|].
      cbn [map]. rewrite longest_key_cons. cbn [fst].
      assert (L : forall s t : string,
                (1 <= String.length (s ++ "." ++ t))%nat)
        by (intros s t; destruct s; cbn; lia).
      specialize (L name (Centered.str_nat (fst ix0))). lia. }
    destruct (Centered.longest_key raw) as [|f]; [lia | eauto]. }
  destruct Hfuel as [f ->].
  rewrite (extract_pars_fuel_plain f subset).
  2:{ unfold subset. rewrite map_map. cbn [fst].
      rewrite <- (map_map fst Centered.str_nat).
      apply NoDup_map_injective; [exact str_nat_inj | exact Hix]. }
  2:{ unfold subset. apply Forall_map. apply Forall_forall. intros ix _.
      apply str_nat_plain. }
  cbn [bind].
  set (dictform := map (fun kv => (fst kv, guess_of (snd kv))) subset).
  assert (Hform : dictform
                  = map (fun ix => (Centered.str_nat (fst ix), snd ix))
                        (combine (seq 0 (List.length (map guess_of leaves)))
                                 (map guess_of leaves))).
  { unfold dictform, subset, ixs. rewrite map_map, length_map. cbn [fst snd].
    generalize 0%nat. clear. induction leaves as [|x xs IH]; intros i; cbn;
      [reflexivity | rewrite IH; reflexivity]. }
  assert (Hzero : Centered.dict_has dictform "0" = true).
  { rewrite Hform. destruct leaves; [congruence | reflexivity]. }
  rewrite Hzero.
  assert (Hlen : List.length dictform = List.length (map guess_of leaves)).
  { rewrite Hform, length_map, length_combine, length_seq. lia. }
  rewrite Hlen, Hform.
  pose proof (lookup_indices (map guess_of leaves) 0 [] (Forall_nil _)) as Hitems.
  cbn [app] in Hitems. rewrite Hitems.
  cbn [bind Centered.dict_set]. unfold Centered.dict_has. cbn [Centered.dict_get].
  rewrite String.eqb_refl. reflexivity.
Qed.

Lemma extract_pars_inverts_list_witness :
  Centered.extract_pars (Centered.parameters centered_123)
  = Ok [("center"%string,
         Centered.PList [Centered.PFloat 1; Centered.PFloat 2; Centered.PFloat 3])].
Proof.
  apply (proj2 (extract_pars_inverts_list "center"
                  [Centered.PFloat 1; Centered.PFloat 2; Centered.PFloat 3]
                  eq_refl ltac:(discriminate) ltac:(repeat constructor))).
Defined.

(** ** The sides and the symmetry of the bounds *)

Lemma binary_round_aux_opp (s : bool) (m e : Z) (l : location) :
  binary_round_aux prec emax (negb s) m e l
  = SFopp (binary_round_aux prec emax s m e l).
Proof.
  unfold binary_round_aux.
  destruct (shr_fexp prec emax m e l) as [mrs' e'].
  destruct (shr_fexp prec emax _ e' loc_Exact) as [mrs'' e''].
  destruct (shr_m mrs''); [reflexivity | | reflexivity].
  destruct (e'' <=? emax - prec)%Z; reflexivity.
Qed.

Lemma xorb_negb_l (a b : bool) : xorb (negb a) b = negb (xorb a b).
Proof. destruct a, b; reflexivity. Qed.

Lemma SFmul_opp_l (x y : spec_float) :
  SFmul prec emax (SFopp x) y = SFopp (SFmul prec emax x y).
Proof.
  destruct x as [sx|sx| |sx mx ex], y as [sy|sy| |sy my ey]; cbn [SFmul SFopp];
    rewrite ?xorb_negb_l; try reflexivity.
  apply binary_round_aux_opp.
Qed.

Lemma SFdiv_opp_l (x y : spec_float) :
  SFdiv prec emax (SFopp x) y = SFopp (SFdiv prec emax x y).
Proof.
  destruct x as [sx|sx| |sx mx ex], y as [sy|sy| |sy my ey]; cbn [SFdiv SFopp];
    rewrite ?xorb_negb_l; try reflexivity.
  destruct (SFdiv_core_binary prec emax (Z.pos mx) ex (Z.pos my) ey) as [[mz ez] lz].
  apply binary_round_aux_opp.
Qed.

Lemma float_mul_opp_l (x y : float) : (- x * y = - (x * y))%float.
Proof.
  apply Prim2SF_inj. rewrite opp_spec, !mul_spec, opp_spec. apply SFmul_opp_l.
Qed.

Lemma float_div_opp_l (x y : float) : (- x / y = - (x / y))%float.
Proof.
  apply Prim2SF_inj. rewrite opp_spec, !div_spec, opp_spec. apply SFdiv_opp_l.
Qed.

Lemma float_opp_involutive (x : float) : (- - x = x)%float.
Proof.
  apply Prim2SF_inj. rewrite !opp_spec.
  destruct (Prim2SF x) as [s|s| |s m e]; cbn; rewrite ?negb_involutive; reflexivity.
Qed.

Section SymmetricIndicator.

Variable inside : float -> bool.
Hypothesis inside_opp : forall t, inside (- t)%float = inside t.

Lemma grow_opp (fuel : nat) (factor t : float) :
  grow fuel factor inside (- t)%float
  = option_map PrimFloat.opp (grow fuel factor inside t).
Proof.
  revert t. induction fuel as [|fuel IH]; intros t; cbn; [reflexivity|].
  rewrite inside_opp. destruct (inside t); [|reflexivity].
  rewrite float_mul_opp_l. apply IH.
Qed.

Lemma shrink_opp (steps : nat) (t : float) :
  shrink steps inside (- t)%float = (- shrink steps inside t)%float.
Proof.
  revert t. induction steps as [|steps IH]; intros t; cbn; [reflexivity|].
  rewrite inside_opp. destruct (inside t); [reflexivity|].
  rewrite float_div_opp_l. apply IH.
Qed.

Lemma locate_opp (fuel : nat) (factor seed : float) :
  locate fuel factor inside (- seed)%float
  = option_map PrimFloat.opp (locate fuel factor inside seed).
Proof.
  unfold locate. rewrite grow_opp.
  destruct (grow fuel factor inside seed) as [t|]; cbn [option_map obind];
    [|reflexivity].
  rewrite shrink_opp. apply grow_opp.
Qed.

End SymmetricIndicator.

(** X21: for an indicator that is symmetric along the axes (it answers
    the same at an offset and at its opposite) every lower bound that
    [find_bounds] returns is the exact opposite of the upper bound of
    its axis: the two searches start from the opposite seeds -1e-9 and
    1e-9, and multiplying and halving commute with the change of
    sign. *)
Theorem find_bounds_symmetric (indicator : list float -> bool) (fuel : nat)
    (bounds : list (list float)) :
  (forall i t, (i < 3)%nat ->
     indicator (on_axis i (- t)%float) = indicator (on_axis i t)) ->
  find_bounds indicator fuel = Some bounds ->
  forall i, (i < 3)%nat ->
    nth 0 (nth i bounds []) zero = (- nth 1 (nth i bounds []) zero)%float.
Proof.
  intros Hsym H.
  apply (find_bounds_more_fuel indicator fuel (fuel + 11)) in H; [|lia].
  destruct (find_bounds_locate indicator (fuel + 11) bounds ltac:(lia) H)
    as (x0 & x1 & y0 & y1 & z0 & z1 & -> & H1 & H2 & H3 & H4 & H5 & H6).
  assert (G : forall i lo hi, (i < 3)%nat ->
            locate (fuel + 11) 10 (fun t => indicator (on_axis i t)) (-1e-9) = Some lo ->
            locate (fuel + 11) 10 (fun t => indicator (on_axis i t)) 1e-9 = Some hi ->
            lo = (- hi)%float).
  { intros i lo hi Hi Hlo Hhi.
    change (-1e-9)%float with (PrimFloat.opp 1e-9) in Hlo.
    rewrite (locate_opp (fun t => indicator (on_axis i t))
               (fun t => Hsym i t Hi)) in Hlo.
    rewrite Hhi in Hlo. cbn in Hlo. injection Hlo as <-. reflexivity. }
  intros i Hi. destruct i as [|[|[|i]]]; [| | |lia]; cbn [nth]; eapply G;
    try eassumption; lia.
Qed.

Lemma in_ball_symmetric (r : float) (i : nat) (t : float) :
  (i < 3)%nat -> in_ball r (on_axis i (- t)%float) = in_ball r (on_axis i t).
Proof.
  assert (E : (- t * - t = t * t)%float).
  { rewrite float_mul_opp_l, (float_mul_comm t (- t)), float_mul_opp_l.
    apply float_opp_involutive. }
  intros Hi. destruct i as [|[|[|i]]]; [| | |lia]; cbn; rewrite E; reflexivity.
Qed.

Lemma find_bounds_symmetric_witness :
  find_bounds (in_ball 1) 400
  = Some [[-1.0717944050000008; 1.0717944050000008];
          [-1.0717944050000008; 1.0717944050000008];
          [-1.0717944050000008; 1.0717944050000008]]%float /\
  (-1.0717944050000008)%float = PrimFloat.opp 1.0717944050000008.
Proof.
  split; [vm_compute; reflexivity|].
  apply (find_bounds_symmetric (in_ball 1) 400
           [[-1.0717944050000008; 1.0717944050000008];
            [-1.0717944050000008; 1.0717944050000008];
            [-1.0717944050000008; 1.0717944050000008]]%float
           (in_ball_symmetric 1) ltac:(vm_compute; reflexivity) 0%nat).
  lia.
Defined.

(** A float that is not above zero (a nan included), and one that is
    not below. *)
Lemma not_above_spec (x : float) :
  (0 <? x)%float = false <->
  match Prim2SF x with
  | S754_finite false _ _ | S754_infinity false => False
  | _ => True
  end.
Proof.
  rewrite ltb_spec. change (Prim2SF 0) with (S754_zero false). unfold SFltb.
  destruct (Prim2SF x) as [s|[|]| |[|] m e]; cbn; intuition discriminate.
Qed.

Lemma not_below_spec (x : float) :
  (x <? 0)%float = false <->
  match Prim2SF x with
  | S754_finite true _ _ | S754_infinity true => False
  | _ => True
  end.
Proof.
  rewrite ltb_spec. change (Prim2SF 0) with (S754_zero false). unfold SFltb.
  destruct (Prim2SF x) as [s|[|]| |[|] m e]; cbn; intuition discriminate.
Qed.

Lemma binary_round_aux_sign (s : bool) (m e : Z) (l : location) :
  match binary_round_aux prec emax s m e l with
  | S754_zero s' | S754_infinity s' | S754_finite s' _ _ => s' = s
  | S754_nan => True
  end.
Proof.
  unfold binary_round_aux.
  destruct (shr_fexp prec emax m e l) as [mrs' e'].
  destruct (shr_fexp prec emax _ e' loc_Exact) as [mrs'' e''].
  destruct (shr_m mrs''); [reflexivity | | exact I].
  destruct (e'' <=? emax - prec)%Z; reflexivity.
Qed.

(** Multiplying by, or dividing by, a positive finite number keeps a
    number on its side of zero. *)
Lemma mul_keeps_side (x y : float) (m : positive) (e : Z) :
  Prim2SF y = S754_finite false m e ->
  ((0 <? x)%float = false -> (0 <? x * y)%float = false) /\
  ((x <? 0)%float = false -> (x * y <? 0)%float = false).
Proof.
  intros Hy. rewrite !not_above_spec, !not_below_spec, mul_spec, Hy.
  unfold SF64mul.
  destruct (Prim2SF x) as [s|s| |s mx ex]; cbn [SFmul xorb];
    rewrite ?xorb_false_r; try tauto.
  pose proof (binary_round_aux_sign s (Z.pos (mx * m)) (ex + e) loc_Exact) as S.
  destruct (binary_round_aux prec emax s (Z.pos (mx * m)) (ex + e) loc_Exact);
    try subst; tauto.
Qed.

Lemma div_keeps_side (x y : float) (m : positive) (e : Z) :
  Prim2SF y = S754_finite false m e ->
  ((0 <? x)%float = false -> (0 <? x / y)%float = false) /\
  ((x <? 0)%float = false -> (x / y <? 0)%float = false).
Proof.
  intros Hy. rewrite !not_above_spec, !not_below_spec, div_spec, Hy.
  unfold SF64div.
  destruct (Prim2SF x) as [s|s| |s mx ex]; cbn [SFdiv xorb];
    rewrite ?xorb_false_r; try tauto.
  destruct (SFdiv_core_binary prec emax (Z.pos mx) ex (Z.pos m) e) as [[mz ez] lz].
  pose proof (binary_round_aux_sign s mz ez lz) as S.
  destruct (binary_round_aux prec emax s mz ez lz); try subst; tauto.
Qed.

Lemma grow_invariant (P : float -> Prop) (factor : float) (inside : float -> bool) :
  (forall t, P t -> P (t * factor)%float) ->
  forall fuel t r, P t -> grow fuel factor inside t = Some r -> P r.
Proof.
  intros Hstep. induction fuel as [|fuel IH]; intros t r Ht H; cbn in H;
    [discriminate|].
  destruct (inside t); [|injection H as <-; exact Ht].
  exact (IH _ _ (Hstep t Ht) H).
Qed.

Lemma shrink_invariant (P : float -> Prop) (inside : float -> bool) :
  (forall t, P t -> P (t / 2)%float) ->
  forall steps t, P t -> P (shrink steps inside t).
Proof.
  intros Hstep. induction steps as [|steps IH]; intros t Ht; cbn; [exact Ht|].
  destruct (inside t); [exact Ht | apply IH, Hstep, Ht].
Qed.

Lemma locate_invariant (P : float -> Prop) (inside : float -> bool) :
  (forall t, P t -> P (t * 10)%float) ->
  (forall t, P t -> P (t / 2)%float) ->
  (forall t, P t -> P (t * 1.1)%float) ->
  forall fuel seed r, P seed -> locate fuel 10 inside seed = Some r -> P r.
Proof.
  intros H10 H2 H11 fuel seed r Hs. unfold locate.
  destruct (grow fuel 10 inside seed) as [t|] eqn:E; cbn [obind]; [|discriminate].
  apply (grow_invariant P 1.1 inside H11).
  apply (shrink_invariant P inside H2).
  exact (grow_invariant P 10 inside H10 _ _ _ Hs E).
Qed.

(** X22: whatever the indicator, a lower bound that [find_bounds]
    returns is never above zero and an upper bound never below: the
    search only multiplies and halves the seeds -1e-9 and 1e-9, which
    keeps each on its side of the origin. *)
Theorem find_bounds_sides (indicator : list float -> bool) (fuel : nat)
    (bounds : list (list float)) :
  find_bounds indicator fuel = Some bounds ->
  forall i, (i < 3)%nat ->
    (0 <? nth 0 (nth i bounds []) zero)%float = false /\
    (nth 1 (nth i bounds []) zero <? 0)%float = false.
Proof.
  intros H.
  apply (find_bounds_more_fuel indicator fuel (fuel + 11)) in H; [|lia].
  destruct (find_bounds_locate indicator (fuel + 11) bounds ltac:(lia) H)
    as (x0 & x1 & y0 & y1 & z0 & z1 & -> & H1 & H2 & H3 & H4 & H5 & H6).
  assert (E10 : Prim2SF 10 = S754_finite false 5629499534213120 (-49))
    by (vm_compute; reflexivity).
  assert (E2 : Prim2SF 2 = S754_finite false 4503599627370496 (-51))
    by (vm_compute; reflexivity).
  assert (E11 : Prim2SF 1.1 = S754_finite false 4953959590107546 (-52))
    by (vm_compute; reflexivity).
  assert (Lo : forall inside r,
            locate (fuel + 11) 10 inside (-1e-9) = Some r -> (0 <? r)%float = false).
  { intros inside r. apply (locate_invariant (fun t => (0 <? t)%float = false)).
    - intros t. apply (proj1 (mul_keeps_side t 10 _ _ E10)).
    - intros t. apply (proj1 (div_keeps_side t 2 _ _ E2)).
    - intros t. apply (proj1 (mul_keeps_side t 1.1 _ _ E11)).
    - vm_compute. reflexivity. }
  assert (Hi : forall inside r,
            locate (fuel + 11) 10 inside 1e-9 = Some r -> (r <? 0)%float = false).
  { intros inside r. apply (locate_invariant (fun t => (t <? 0)%float = false)).
    - intros t. apply (proj2 (mul_keeps_side t 10 _ _ E10)).
    - intros t. apply (proj2 (div_keeps_side t 2 _ _ E2)).
    - intros t. apply (proj2 (mul_keeps_side t 1.1 _ _ E11)).
    - vm_compute. reflexivity. }
  intros i Hlt. destruct i as [|[|[|i]]]; [| | |lia]; cbn [nth]; split;
    (eapply Lo || eapply Hi); eassumption.
Qed.

Lemma find_bounds_sides_witness :
  find_bounds off_axis_box 11
  = Some [[-9.765625e-13; 9.765625e-13]; [-9.765625e-13; 9.765625e-13];
          [-9.765625e-13; 9.765625e-13]]%float /\
  (0 <? -9.765625e-13)%float = false /\ (9.765625e-13 <? 0)%float = false.
Proof.
  split; [vm_compute; reflexivity|].
  apply (find_bounds_sides off_axis_box 11
           [[-9.765625e-13; 9.765625e-13]; [-9.765625e-13; 9.765625e-13];
            [-9.765625e-13; 9.765625e-13]]%float
           ltac:(vm_compute; reflexivity) 0%nat).
  lia.
Defined.
